(** * Store rating platform: aggregation, rating upsert, session and routing

    A shallow embedding of the logic of the store rating platform:
    - [calculateStoreRatings] of [src/services/supabaseService.js], with the
      binary64 arithmetic of its division and of [toFixed] written out;
    - [submitRating] against the [ratings] table of the schema, with its
      [CHECK] and [UNIQUE] constraints, its foreign keys and its row-level
      policies;
    - the [AuthProvider] operations and its auth-state handler, with the
      [handle_new_user] trigger of the schema;
    - the route table of [AppRouter]. *)

From Stdlib Require Import Btauto.
From Stdlib Require Import ZArith Lia.
From stdpp Require Import base list strings gmap sorting.

Local Open Scope Z_scope.

(** ** JavaScript numbers

    Every number of the aggregation is a binary64 value.  Integer-valued
    numbers are kept as [Z]; the quotient [sum / totalRatings] is kept as a
    significand and an exponent.  The exponent range of binary64 is not
    bounded here: quotients of two integers below [2^53] never leave it. *)
Module JSNumber.

(** [N / D] rounded to the nearest integer, ties to the even one
    ([0 <= N], [0 < D]): the rounding of a binary64 significand. *)
Definition rne (N D : Z) : Z :=
  let q := N / D in
  let r := N mod D in
  if 2 * r <? D then q
  else if D <? 2 * r then q + 1
  else if Z.even q then q else q + 1.

(** The binary64 value nearest to the integer [z]: [z] itself up to
    [2^53], and beyond that [z] rounded to 53 significant bits. *)
Definition round53 (z : Z) : Z :=
  let a := Z.abs z in
  if a <? 2 ^ 53 then z
  else
    let k := Z.log2 a - 52 in
    Z.sgn z * (rne a (2 ^ k) * 2 ^ k).

(** [x + y] on two integer-valued numbers. *)
Definition add (x y : Z) : Z := round53 (x + y).

(** A finite binary64 value [mant * 2 ^ expo]. *)
Record double := Double { mant : Z; expo : Z }.

(** [2 ^ d <= a / b] for positive [a], [b], without leaving [Z]. *)
Definition pow2_le_quot (d a b : Z) : bool :=
  if 0 <=? d then b * 2 ^ d <=? a else b <=? a * 2 ^ (- d).

(** The integer part of the binary logarithm of [a / b], [0 < a], [0 < b]. *)
Definition log2_quot (a b : Z) : Z :=
  let d := Z.log2 a - Z.log2 b in
  if pow2_le_quot d a b then d else d - 1.

(** [x / y] for integer-valued [x] and [0 < y]: the quotient is scaled
    so that its significand has 53 bits and then rounded. *)
Definition div (x y : Z) : double :=
  if x =? 0 then Double 0 0
  else
    let a := Z.abs x in
    let e := log2_quot a y - 52 in
    let m := if 0 <=? e then rne a (y * 2 ^ e) else rne (a * 2 ^ (- e)) y in
    Double (Z.sgn x * m) e.

(** [x.toFixed(1)] for [|x| < 10^21]: the integer [n] for which
    [n / 10 - |x|] is as close to zero as possible, the larger one of two,
    with the sign of [x] put in front.  The decimal string is kept as its
    number of tenths. *)
Definition toFixed1 (x : double) : Z :=
  let m := Z.abs (mant x) in
  let e := expo x in
  let n := if 0 <=? e then 10 * m * 2 ^ e
           else (20 * m + 2 ^ (- e)) / (2 * 2 ^ (- e)) in
  Z.sgn (mant x) * n.

(** [parseFloat] of a decimal string with one fractional digit is the
    binary64 value nearest to it; the model keeps that value as the
    decimal it was read from, in tenths. *)
Definition parseFloat (tenths : Z) : Z := tenths.

End JSNumber.

(** ** Rows of the schema *)

(** A row of [public.stores]. *)
Module Store.
Record t := Build {
  id : Z;
  name : string;
  email : string;
  address : string;
  owner_id : option string;
  created_at : string
}.
End Store.

(** A row of [public.ratings] as [select('store_id, rating')] returns it. *)
Module Rating.
Record t := Build { store_id : Z; rating : Z }.
End Rating.

(** A store with the two derived fields.  [averageRating] is in tenths. *)
Module StoreWithRatings.
Record t := Build {
  id : Z;
  name : string;
  email : string;
  address : string;
  owner_id : option string;
  created_at : string;
  averageRating : Z;
  totalRatings : nat
}.
End StoreWithRatings.

(** ** The aggregation of [supabaseService.js] *)

(** [{ ...store, averageRating, totalRatings }] *)
Definition spread (store : Store.t) (averageRating : Z) (totalRatings : nat)
  : StoreWithRatings.t :=
  {| StoreWithRatings.id := Store.id store;
     StoreWithRatings.name := Store.name store;
     StoreWithRatings.email := Store.email store;
     StoreWithRatings.address := Store.address store;
     StoreWithRatings.owner_id := Store.owner_id store;
     StoreWithRatings.created_at := Store.created_at store;
     StoreWithRatings.averageRating := averageRating;
     StoreWithRatings.totalRatings := totalRatings |}.

(** The body of the callback given to [stores.map]. *)
Definition storeWithRatings (ratings : list Rating.t) (store : Store.t)
  : StoreWithRatings.t :=
  let storeRatings :=
    filter (λ r, Rating.store_id r = Store.id store) ratings in
  let totalRatings := length storeRatings in
  if decide (totalRatings = 0%nat) then spread store 0 0%nat
  else
    let sum :=
      foldl (λ acc r, JSNumber.add acc (Rating.rating r)) 0 storeRatings in
    let averageRating :=
      JSNumber.toFixed1 (JSNumber.div sum (Z.of_nat totalRatings)) in
    spread store (JSNumber.parseFloat averageRating) totalRatings.

Definition calculateStoreRatings
  (stores : list Store.t) (ratings : list Rating.t) : list StoreWithRatings.t :=
  storeWithRatings ratings <$> stores.

(** ** Calls to the persistence service

    A query resolves to [{ data, error }].  An [async] function of the
    application either returns a value or throws. *)

Inductive ServiceError :=
  | numeric_value_out_of_range   (* 22003: the value does not fit the column type *)
  | insufficient_privilege       (* 42501: a row-level policy refuses the row *)
  | check_violation              (* 23514: a CHECK constraint rejects the row *)
  | foreign_key_violation        (* 23503: a referenced key does not exist *)
  | no_single_row                (* PGRST116: [single()] on zero or several rows *)
  | auth_error (message : string)
  | client_failure (message : string). (* a call of the client library that rejects *)

Record Response (A : Type) := { data : option A; error : option ServiceError }.
Arguments data {A} _.
Arguments error {A} _.

Inductive Completion (A : Type) :=
  | Returned (a : A)
  | Thrown (e : ServiceError).
Arguments Returned {A} a.
Arguments Thrown {A} e.

(** [if (error) throw error; return data;] *)
Definition throw_or_data {A : Type} (r : Response A) : Completion (option A) :=
  match error r with
  | Some e => Thrown e
  | None => Returned (data r)
  end.

(** ** The ratings table and [submitRating]

    [public.ratings] with the columns [submitRating] writes.  [id] and the
    two timestamps are assigned by the server and read by no function
    below. *)
Module RatingsTable.

Record row := Row { user_id : string; store_id : Z; rating : Z }.

Definition same_key (a b : row) : Prop :=
  user_id a = user_id b ∧ store_id a = store_id b.

#[global] Instance same_key_dec a b : Decision (same_key a b).
Proof. unfold same_key. apply _. Defined.

(** [rating SMALLINT] *)
Definition fits_smallint (z : Z) : bool := (-32768 <=? z) && (z <=? 32767).

(** [CHECK (rating >= 1 AND rating <= 5)] *)
Definition rating_check (z : Z) : bool := (1 <=? z) && (z <=? 5).

(** [UNIQUE (user_id, store_id)] *)
Fixpoint unique_key (rows : list row) : Prop :=
  match rows with
  | [] => True
  | r :: rest => Forall (λ r', ¬ same_key r' r) rest ∧ unique_key rest
  end.

(** [INSERT ... ON CONFLICT (store_id, user_id) DO UPDATE]: the row that
    holds the key is overwritten, and the new row is added when no row
    holds it. *)
Fixpoint on_conflict_update (new : row) (rows : list row) : list row :=
  match rows with
  | [] => [new]
  | r :: rest =>
      if decide (same_key r new) then new :: rest
      else r :: on_conflict_update new rest
  end.

(** What a statement on the table reads of the rest of the database:
    [auth.uid()], the identity of the request, which the row-level
    policies compare with, and the keys the foreign keys refer to. *)
Record context := Context {
  auth_uid : option string;
  store_ids : list Z;         (* [public.stores(id)] *)
  profile_ids : list string   (* [public.profiles(id)] *)
}.

(** ["Users can insert their own ratings." ... FOR INSERT
    WITH CHECK (auth.uid() = user_id)], in both scripts; a request
    without identity passes no policy. *)
Definition insert_policy (c : context) (new : row) : bool :=
  bool_decide (auth_uid c = Some (user_id new)).

(** ["Users can update their own ratings." ... FOR UPDATE
    USING (auth.uid() = user_id)], on the row in conflict; the
    [WITH CHECK] of the initial script repeats [insert_policy] on the new
    row. *)
Definition update_policy (c : context) (old : row) : bool :=
  bool_decide (auth_uid c = Some (user_id old)).

(** [user_id ... REFERENCES public.profiles(id)],
    [store_id ... REFERENCES public.stores(id)] *)
Definition references (c : context) (new : row) : bool :=
  bool_decide (user_id new ∈ profile_ids c)
  && bool_decide (store_id new ∈ store_ids c).

(** The row that holds the key of [new]. *)
Definition in_conflict (new : row) (rows : list row) : option row :=
  List.find (λ r, bool_decide (same_key r new)) rows.

(** [from('ratings').upsert(new, { onConflict: 'store_id, user_id' })
    .select().single()], with the checks in the order the server makes
    them: the conversion to the column type, the policy on the proposed
    row, the [CHECK] constraint, the policy on the row in conflict, and,
    at the end of the statement, the foreign keys of an inserted row (a
    row that is overwritten keeps its keys, which are not checked
    again). *)
Definition upsert (c : context) (new : row) (rows : list row)
  : Response row * list row :=
  let refused e := ({| data := None; error := Some e |}, rows) in
  let stored :=
    ({| data := Some new; error := None |}, on_conflict_update new rows) in
  if negb (fits_smallint (rating new)) then refused numeric_value_out_of_range
  else if negb (insert_policy c new) then refused insufficient_privilege
  else if negb (rating_check (rating new)) then refused check_violation
  else
    match in_conflict new rows with
    | Some old =>
        if negb (update_policy c old) then refused insufficient_privilege
        else stored
    | None =>
        if negb (references c new) then refused foreign_key_violation
        else stored
    end.

(** [from('ratings').select('store_id, rating')] *)
Definition select_store_id_rating (rows : list row) : list Rating.t :=
  (λ r, Rating.Build (store_id r) (rating r)) <$> rows.

End RatingsTable.

Definition submitRating (c : RatingsTable.context)
  (storeId : Z) (userId : string) (rating : Z)
  (ratings : list RatingsTable.row)
  : Completion (option RatingsTable.row) * list RatingsTable.row :=
  let '(response, ratings') :=
    RatingsTable.upsert c (RatingsTable.Row userId storeId rating) ratings in
  (throw_or_data response, ratings').

Definition getAllStoresWithRatings
  (stores : list Store.t) (ratings : list RatingsTable.row)
  : list StoreWithRatings.t :=
  calculateStoreRatings stores (RatingsTable.select_store_id_rating ratings).

(** ** Profiles and the sign-up trigger of the schema *)

(** [CREATE TYPE public.user_role AS ENUM ('admin', 'user', 'store_owner')] *)
Inductive user_role := admin | user | store_owner.

#[global] Instance user_role_eq_dec : EqDecision user_role.
Proof. solve_decision. Defined.

Definition role_label (r : user_role) : string :=
  match r with
  | admin => "admin"
  | user => "user"
  | store_owner => "store_owner"
  end.

(** The cast [::public.user_role]; any other label raises. *)
Definition role_of_label (label : string) : option user_role :=
  if decide (label = "admin") then Some admin
  else if decide (label = "user") then Some user
  else if decide (label = "store_owner") then Some store_owner
  else None.

(** A row of [public.profiles].  [updated_at] is the column
    [updated_at TIMESTAMPTZ DEFAULT NOW()] of the initial script, which
    the insert of the trigger fills and no statement of the application
    writes; the table of the revised script has no such column, and its
    rows have [None]. *)
Module Profile.
Record t := Build {
  id : string;
  name : string;
  address : string;
  role : user_role;
  updated_at : option string
}.

(** The row as the object [select('*')] returns: a property for every
    column of the table. *)
Definition to_object (p : t) : gmap string string :=
  let columns : gmap string string :=
    <["id" := id p]> (<["name" := name p]> (<["address" := address p]>
      {["role" := role_label (role p)]})) in
  match updated_at p with
  | Some time => <["updated_at" := time]> columns
  | None => columns
  end.
End Profile.

(** A row of [auth.users]: the identity and its sign-up metadata. *)
Module AuthUser.
Record t := Build {
  id : string;
  email : option string;
  raw_user_meta_data : gmap string string
}.
End AuthUser.

Record Backend := {
  users : list AuthUser.t;
  profiles : list Profile.t
}.

(** The schema file holds two versions of the setup script. *)
Inductive setup_script := initial_setup | revised_setup.

(** [char_length]: the number of characters of a string.  The strings of
    this model hold code units below 256, none of them half of a
    surrogate pair, so that every code unit is one character: the
    server's count and the [length] the forms read are the same number
    for them. *)
Definition char_length (value : string) : nat := String.length value.

(** Storing a value in a [VARCHAR(n)] column: a value of more than [n]
    characters raises an error, unless the characters beyond the [n]th
    are all spaces, which are cut off. *)
Definition varchar (n : nat) (value : string) : option string :=
  let chars := String.list_ascii_of_string value in
  if bool_decide (Forall (λ c, c = Ascii.ascii_of_nat 32) (drop n chars))
  then Some (String.string_of_list_ascii (take n chars))
  else None.

(** [name VARCHAR(60) NOT NULL], with
    [CHECK (char_length(name) >= 20 AND char_length(name) <= 60)] in the
    revised script: the value the column holds, or [None] when the row is
    refused.  The constraint is checked on the value as the column
    stores it. *)
Definition name_column (v : setup_script) (name : string) : option string :=
  match varchar 60 name with
  | Some stored =>
      match v with
      | initial_setup => Some stored
      | revised_setup =>
          if bool_decide (20 ≤ char_length stored)%nat
             && bool_decide (char_length stored ≤ 60)%nat
          then Some stored else None
      end
  | None => None
  end.

(** [address VARCHAR(400) NOT NULL], with
    [CHECK (char_length(address) <= 400)] in the revised script. *)
Definition address_column (v : setup_script) (address : string)
  : option string :=
  match varchar 400 address with
  | Some stored =>
      match v with
      | initial_setup => Some stored
      | revised_setup =>
          if bool_decide (char_length stored ≤ 400)%nat
          then Some stored else None
      end
  | None => None
  end.

(** The role expression of the trigger:
    [(new.raw_user_meta_data->>'role')::public.user_role] in the initial
    script, wrapped in [COALESCE(..., 'user')] in the revised one.  [None]
    stands for a raised error or a [NULL] put into the [NOT NULL] column. *)
Definition trigger_role (v : setup_script) (meta : gmap string string)
  : option user_role :=
  match meta !! "role" with
  | Some label => role_of_label label
  | None =>
      match v with
      | initial_setup => None
      | revised_setup => Some user
      end
  end.

(** The value of [updated_at] in a row inserted at time [now]. *)
Definition updated_at_default (v : setup_script) (now : string)
  : option string :=
  match v with
  | initial_setup => Some now
  | revised_setup => None
  end.

(** [public.handle_new_user()]: the insert into [public.profiles] for the
    new identity, or [None] when the insert raises.  The trigger
    [on_profile_created] of the initial script writes [public.stores] only
    and is left out. *)
Definition handle_new_user (v : setup_script) (now : string)
  (new : AuthUser.t) (rows : list Profile.t) : option (list Profile.t) :=
  let meta := AuthUser.raw_user_meta_data new in
  match meta !! "name", meta !! "address", trigger_role v meta with
  | Some name, Some address, Some role =>
      match name_column v name, address_column v address with
      | Some stored_name, Some stored_address =>
          if bool_decide (AuthUser.id new ∉ Profile.id <$> rows)
          then Some (rows ++ [Profile.Build (AuthUser.id new) stored_name
                                stored_address role
                                (updated_at_default v now)])
          else None
      | _, _ => None
      end
  | _, _, _ => None
  end.

(** ** The authentication service *)
Module Auth.

Record AuthError := { message : string }.

(** What the operations of [AuthProvider] read of a response. *)
Record response := { error : option AuthError }.

Record SignUp := {
  email : option string;
  password : option string;
  options_data : gmap string string
}.

End Auth.

(** An object literal whose [undefined] properties are left out when it is
    sent to the service. *)
Definition object_literal (fields : list (string * option string))
  : gmap string string :=
  foldr (λ kv o, match kv.2 with Some v => <[kv.1 := v]> o | None => o end)
        ∅ fields.

(** The result every operation of [AuthProvider] resolves to:
    [{ success: true }] or [{ success: false, error: message }]. *)
Record AuthResult := { success : bool; error_message : option string }.

Definition succeeded : AuthResult := {| success := true; error_message := None |}.
Definition failed (message : string) : AuthResult :=
  {| success := false; error_message := Some message |}.

(** [if (error) return { success: false, error: error.message };
     return { success: true };] *)
Definition result_of (r : Auth.response) : AuthResult :=
  match Auth.error r with
  | Some e => failed (Auth.message e)
  | None => succeeded
  end.

(** How a call of the client library that does not resolve rejects:
    before the request was sent, or after the service has handled it.
    The library is not part of the repository. *)
Inductive rejection :=
  | rejected_unsent (e : ServiceError)
  | rejected_handled (e : ServiceError).

(** [const { error } = await call;
     if (error) return { success: false, error: error.message };
     return { success: true };]
    No operation has a [try]: when the call rejects, the [await] throws
    and the operation rejects with the same error. *)
Definition await_result (call : Completion Auth.response)
  : Completion AuthResult :=
  match call with
  | Returned response => Returned (result_of response)
  | Thrown e => Thrown e
  end.

Section AuthProvider.

(** The decisions of the hosted service and of its client library that
    the repository does not hold: how a sign-in and a password update
    complete, whether a call of [signUp] rejects, whether a sign-up is
    refused before any row is written, the identifier of a new identity
    and the time of its insertion. *)
Variable signInWithPassword : string → string → Completion Auth.response.
Variable updateUser : string → Completion Auth.response.
Variable signUp_rejected : Backend → Auth.SignUp → option rejection.
Variable signUp_refused : Backend → Auth.SignUp → option Auth.AuthError.
Variable gen_random_uuid : Backend → string.
Variable now : Backend → string.
Variable script : setup_script.

(** The service handling a sign-up request: the identity is inserted
    into [auth.users] and the trigger [on_auth_user_created] runs
    [handle_new_user] in the same transaction. *)
Definition signup_request (request : Auth.SignUp) (b : Backend)
  : Auth.response * Backend :=
  match signUp_refused b request with
  | Some e => ({| Auth.error := Some e |}, b)
  | None =>
      let new := AuthUser.Build (gen_random_uuid b) (Auth.email request)
                   (Auth.options_data request) in
      match handle_new_user script (now b) new (profiles b) with
      | Some rows =>
          ({| Auth.error := None |},
           {| users := users b ++ [new]; profiles := rows |})
      | None =>
          ({| Auth.error :=
                Some {| Auth.message := "Database error saving new user" |} |},
           b)
      end
  end.

(** [supabase.auth.signUp]: the call resolves with the answer of the
    service, or rejects. *)
Definition signUp (request : Auth.SignUp) (b : Backend)
  : Completion Auth.response * Backend :=
  match signUp_rejected b request with
  | Some (rejected_unsent e) => (Thrown e, b)
  | Some (rejected_handled e) => (Thrown e, (signup_request request b).2)
  | None =>
      let '(response, b') := signup_request request b in
      (Returned response, b')
  end.

Definition login (email password : string) : Completion AuthResult :=
  await_result (signInWithPassword email password).

Definition register (userData : gmap string string) (b : Backend)
  : Completion AuthResult * Backend :=
  let name := userData !! "name" in
  let email := userData !! "email" in
  let address := userData !! "address" in
  let password := userData !! "password" in
  let '(call, b') :=
    signUp {| Auth.email := email;
              Auth.password := password;
              Auth.options_data :=
                object_literal [("name", name); ("address", address);
                                ("role", Some "user")] |} b in
  (await_result call, b').

Definition updatePassword (currentPassword newPassword : string)
  : Completion AuthResult :=
  await_result (updateUser newPassword).

Definition createUser (userData : gmap string string) (b : Backend)
  : Completion AuthResult * Backend :=
  let name := userData !! "name" in
  let email := userData !! "email" in
  let address := userData !! "address" in
  let password := userData !! "password" in
  let role := userData !! "role" in
  let '(call, b') :=
    signUp {| Auth.email := email;
              Auth.password := password;
              Auth.options_data :=
                object_literal [("name", name); ("address", address);
                                ("role", role)] |} b in
  (await_result call, b').

End AuthProvider.

(** ** The session context of [AuthProvider] *)

(** [from('profiles').select('*').eq('id', userId).single()] *)
Definition single {A : Type} (rows : list A) : Response A :=
  match rows with
  | [row] => {| data := Some row; error := None |}
  | _ => {| data := None; error := Some no_single_row |}
  end.

Definition getProfile (rows : list Profile.t) (userId : option string)
  : Completion (option Profile.t) :=
  throw_or_data (single (filter (λ p, Some (Profile.id p) = userId) rows)).

(** [user] and [loading] of the context, and the session the
    authentication client holds; [session] is its [user] object. *)
Module AuthContext.
Record state := State {
  user : option (gmap string string);
  loading : bool;
  session : option (gmap string string)
}.
End AuthContext.

Definition setUser (u : option (gmap string string)) (s : AuthContext.state)
  : AuthContext.state :=
  AuthContext.State u (AuthContext.loading s) (AuthContext.session s).

Definition setLoading (l : bool) (s : AuthContext.state) : AuthContext.state :=
  AuthContext.State (AuthContext.user s) l (AuthContext.session s).

(** [supabase.auth.signOut()] *)
Definition signOut (s : AuthContext.state) : AuthContext.state :=
  AuthContext.State (AuthContext.user s) (AuthContext.loading s) None.

(** [useState(null)], [useState(true)] *)
Definition initial_state (session : option (gmap string string))
  : AuthContext.state :=
  AuthContext.State None true session.

(** The callback given to [onAuthStateChange], run on one event.  The
    result lists the states the component tree is rendered with: the state
    at each [await], where the callback is suspended, and the state it
    completes with.  [{ ...session.user, ...profile }] is the union in
    which the properties of [profile] win. *)
Definition onAuthStateChange (rows : list Profile.t)
  (session : option (gmap string string)) (s : AuthContext.state)
  : list AuthContext.state :=
  let s1 :=
    setLoading true
      (AuthContext.State (AuthContext.user s) (AuthContext.loading s) session) in
  match session with
  | Some session_user =>
      match getProfile rows (session_user !! "id") with
      | Returned (Some profile) =>
          [s1;
           setLoading false
             (setUser (Some (Profile.to_object profile ∪ session_user)) s1)]
      | Returned None =>
          let s2 := signOut s1 in
          [s1; s2; setLoading false (setUser None s2)]
      | Thrown _ =>
          let s2 := signOut s1 in
          [s1; s2; setLoading false (setUser None s2)]
      end
  | None => [setLoading false (setUser None s1)]
  end.

(** [logout]: [await supabase.auth.signOut(); setUser(null);] *)
Definition logout (s : AuthContext.state) : list AuthContext.state :=
  [signOut s; setUser None (signOut s)].

(** The states of the context over the life of the provider. *)
Inductive reachable : AuthContext.state → Prop :=
  | reachable_initial session : reachable (initial_state session)
  | reachable_event rows session s s' :
      reachable s → s' ∈ onAuthStateChange rows session s → reachable s'
  | reachable_logout s s' :
      reachable s → s' ∈ logout s → reachable s'.

(** ** The route table of [AppRouter] *)

Inductive element :=
  | LoadingSpinner
  | AdminDashboard
  | UserDashboard
  | StoreOwnerDashboard
  | LoginPage
  | RegisterPage
  | Navigate (to : string).

Definition getDashboardPath (role : option string) : string :=
  if decide (role = Some "admin") then "/admin"
  else if decide (role = Some "user") then "/user"
  else if decide (role = Some "store_owner") then "/store-owner"
  else "/login".

(** [{condition && <Route ... />}] *)
Definition route_when (condition : bool) (path : string) (e : element)
  : list (string * element) :=
  if condition then [(path, e)] else [].

(** The children of [<Routes>]. *)
Definition routes (user : option (gmap string string))
  : list (string * element) :=
  match user with
  | Some u =>
      let role := u !! "role" in
      route_when (bool_decide (role = Some "admin")) "/admin" AdminDashboard
      ++ route_when (bool_decide (role = Some "user")) "/user" UserDashboard
      ++ route_when (bool_decide (role = Some "store_owner")) "/store-owner"
           StoreOwnerDashboard
      ++ [("/", Navigate (getDashboardPath role));
          ("*", Navigate (getDashboardPath role))]
  | None =>
      [("/login", LoginPage);
       ("/register", RegisterPage);
       ("*", Navigate "/login")]
  end.

Section Router.

(** The path matching of the routing library: does the route pattern
    match the requested path name. *)
Variable matchPath : string → string → bool.

(** [<Routes>] renders the element of the matching route; in both route
    tables the splat route comes last and the other patterns are
    distinct literal paths. *)
Definition Routes (table : list (string * element)) (pathname : string)
  : option element :=
  snd <$> List.find (λ r, matchPath r.1 pathname) table.

Definition AppRouter (s : AuthContext.state) (pathname : string)
  : option element :=
  if AuthContext.loading s then Some LoadingSpinner
  else Routes (routes (AuthContext.user s)) pathname.

End Router.

(** A path matching for the examples: a literal pattern matches the same
    path name, and the splat matches every path name. *)
Definition literal_match (pattern pathname : string) : bool :=
  bool_decide (pattern = "*") || bool_decide (pattern = pathname).

(** ** Notions of the specification *)

(** The sum of the scores of a list of ratings, in [Z]. *)
Definition sum_of_scores (l : list Rating.t) : Z :=
  foldr (λ r acc, Rating.rating r + acc) 0 l.

(** The ratings associated with a store. *)
Definition ratings_of (store_id : Z) (ratings : list Rating.t) : list Rating.t :=
  filter (λ r, Rating.store_id r = store_id) ratings.

(** [rating SMALLINT]: the scores a row of the table can hold. *)
Definition smallint_score (r : Rating.t) : Prop :=
  -32768 <= Rating.rating r <= 32767.

(** The data model's scores: integers in [1,5]. *)
Definition valid_score (r : Rating.t) : Prop := 1 <= Rating.rating r <= 5.

(** A JavaScript array holds fewer than [2^32] elements. *)
Definition array_length {A : Type} (l : list A) : Prop :=
  Z.of_nat (length l) < 2 ^ 32.

(** [tenths / 10] is the mean [sum / count] rounded to one decimal place:
    no number with one decimal is nearer to the mean, that is
    [|tenths / 10 - sum / count| <= 1 / 20]. *)
Definition mean_rounded_to_one_decimal (tenths sum : Z) (count : nat) : Prop :=
  Z.abs (2 * tenths * Z.of_nat count - 20 * sum) <= Z.of_nat count.

(** The errors by which the server refuses a value for the [rating]
    column: the specification's ValidationError. *)
Definition ValidationError (e : ServiceError) : Prop :=
  e = check_violation ∨ e = numeric_value_out_of_range.

(** [CHECK (rating >= 1 AND rating <= 5)] holds of every stored row. *)
Definition checked (rows : list RatingsTable.row) : Prop :=
  Forall (λ r, 1 <= RatingsTable.rating r <= 5) rows.

(** The specification's statement on the rating submission: whoever
    submits, a score outside [1,5] fails with a ValidationError. *)
Definition fails_with_ValidationError : Prop :=
  forall c storeId userId score rows,
    ¬ (1 <= score <= 5) ->
    exists e,
      submitRating c storeId userId score rows = (Thrown e, rows)
      /\ ValidationError e.

(** The rating that [submitRating] is called with is the caller's own:
    the request carries the identity of [userId]. *)
Definition own_rating (c : RatingsTable.context) (userId : string) : Prop :=
  RatingsTable.auth_uid c = Some userId.

(** A row of [userId] for [storeId] can be written: the pair already has
    a row, or both keys exist in the tables they refer to. *)
Definition writable (c : RatingsTable.context) (storeId : Z) (userId : string)
  (rows : list RatingsTable.row) : Prop :=
  (exists r, r ∈ rows /\ RatingsTable.user_id r = userId
             /\ RatingsTable.store_id r = storeId)
  \/ (userId ∈ RatingsTable.profile_ids c
      /\ storeId ∈ RatingsTable.store_ids c).

(** The specification's statement on the operations of [AuthProvider]:
    for every input and every behaviour of the client library each of
    them returns a result value. *)
Definition always_returns_a_result : Prop :=
  forall signInWithPassword updateUser signUp_rejected signUp_refused
         gen_random_uuid now script,
    (forall email password,
       exists result, login signInWithPassword email password = Returned result)
    /\ (forall currentPassword newPassword,
          exists result,
            updatePassword updateUser currentPassword newPassword
            = Returned result)
    /\ (forall userData b,
          exists result,
            (register signUp_rejected signUp_refused gen_random_uuid now
               script userData b).1 = Returned result)
    /\ (forall userData b,
          exists result,
            (createUser signUp_rejected signUp_refused gen_random_uuid now
               script userData b).1 = Returned result).

(** The dashboard of a role and the path it is routed on. *)
Definition dashboard (r : user_role) : element :=
  match r with
  | admin => AdminDashboard
  | user => UserDashboard
  | store_owner => StoreOwnerDashboard
  end.

Definition dashboard_path (r : user_role) : string :=
  match r with
  | admin => "/admin"
  | user => "/user"
  | store_owner => "/store-owner"
  end.

(** The session user of a state is a profile row merged into an
    identity. *)
Definition session_user_merged (s : AuthContext.state) : Prop :=
  match AuthContext.user s with
  | None => True
  | Some u => exists p session_user, u = Profile.to_object p ∪ session_user
  end.

(** The specification's statement on the loading state: once a handler
    has completed, no later auth event shows the loading state again. *)
Definition never_reenters_loading : Prop :=
  forall rows session s s',
    reachable s -> AuthContext.loading s = false ->
    s' ∈ onAuthStateChange rows session s ->
    AuthContext.loading s' = false.

(** ** Sample data for the examples *)

Definition corner_shop : Store.t :=
  Store.Build 7 "Corner Shop" "shop@example.org" "1 Main Street" None
    "2025-01-01T00:00:00Z".

Definition book_shop : Store.t :=
  Store.Build 9 "Book Shop" "books@example.org" "2 Main Street" None
    "2025-01-02T00:00:00Z".

Definition sample_ratings : list Rating.t :=
  [Rating.Build 7 5; Rating.Build 8 1; Rating.Build 7 4; Rating.Build 7 3].

Definition sample_table : list RatingsTable.row :=
  [RatingsTable.Row "u1" 7 3; RatingsTable.Row "u2" 7 4;
   RatingsTable.Row "u1" 9 2].

(** The requests of a signed-in user against the sample tables. *)
Definition sample_context (uid : string) : RatingsTable.context :=
  RatingsTable.Context (Some uid) [7; 9] ["u1"; "u2"].

(** A sign-up form whose caller adds a [role] property. *)
Definition sample_userData : gmap string string :=
  <["name" := "Alexandra Maria Johnson"]>
    (<["email" := "alex@example.org"]>
       (<["address" := "3 Main Street"]>
          (<["password" := "Secret#123"]> {["role" := "admin"]}))).

Definition empty_backend : Backend := {| users := []; profiles := [] |}.

Definition sample_profile : Profile.t :=
  Profile.Build "id-1" "Alexandra Maria Johnson" "3 Main Street" admin
    (Some "2025-01-03T00:00:00Z").

(** The identity as the authentication client holds it; its own [role]
    property is the database role of the session. *)
Definition sample_session_user : gmap string string :=
  <["id" := "id-1"]> (<["email" := "alex@example.org"]>
    {["role" := "authenticated"]}).

(** The sample identity with a time stamp of its own. *)
Definition sample_identity : gmap string string :=
  <["updated_at" := "2025-01-05T00:00:00Z"]> sample_session_user.

(** The state the sample identity is in once its profile is fetched. *)
Definition sample_admin_state : AuthContext.state :=
  AuthContext.State
    (Some (Profile.to_object sample_profile ∪ sample_session_user))
    false (Some sample_session_user).

(** ** Further functions of [supabaseService.js] *)

(** [getStoresByOwner]: the stores with [eq('owner_id', ownerId)], and
    the ratings with [.in('store_id', storeIds)]. *)
Definition getStoresByOwner (ownerId : string)
  (stores : list Store.t) (ratings : list RatingsTable.row)
  : list StoreWithRatings.t :=
  let owned := filter (λ s, Store.owner_id s = Some ownerId) stores in
  let storeIds := Store.id <$> owned in
  let theirs :=
    RatingsTable.select_store_id_rating
      (filter (λ r, RatingsTable.store_id r ∈ storeIds) ratings) in
  calculateStoreRatings owned theirs.

(** [maybeSingle()]: no row is no data and no error, one row is that
    row, several rows are an error. *)
Definition maybeSingle {A : Type} (rows : list A) : Response A :=
  match rows with
  | [] => {| data := None; error := None |}
  | [row] => {| data := Some row; error := None |}
  | _ => {| data := None; error := Some no_single_row |}
  end.

(** [getUserRating]: [select('rating').eq('store_id', storeId)
    .eq('user_id', userId).maybeSingle()]; the returned object is kept as
    its [rating]. *)
Definition getUserRating (storeId : Z) (userId : string)
  (ratings : list RatingsTable.row) : Completion (option Z) :=
  throw_or_data
    (maybeSingle
       (RatingsTable.rating
          <$> filter (λ r, RatingsTable.store_id r = storeId
                           ∧ RatingsTable.user_id r = userId) ratings)).

(** ** The dashboards *)

(** [AdminDashboard]: [stores.reduce((total, store) => total +
    store.totalRatings, 0)] *)
Definition AdminDashboard_totalRatings (stores : list StoreWithRatings.t) : Z :=
  foldl (λ total store,
           JSNumber.add total (Z.of_nat (StoreWithRatings.totalRatings store)))
        0 stores.

(** [UserDashboard.loadData]: the loop that fills [userRatings], from the
    empty object; a thrown [getUserRating] leaves the loop. *)
Fixpoint loadUserRatings (userId : string) (storesData : list StoreWithRatings.t)
  (table : list RatingsTable.row) (ratings : gmap Z Z)
  : Completion (gmap Z Z) :=
  match storesData with
  | [] => Returned ratings
  | store :: rest =>
      match getUserRating (StoreWithRatings.id store) userId table with
      | Thrown e => Thrown e
      | Returned userRatingData =>
          loadUserRatings userId rest table
            match userRatingData with
            | Some rating => <[StoreWithRatings.id store := rating]> ratings
            | None => ratings
            end
      end
  end.

(** Every rating refers to a stored store:
    [store_id BIGINT NOT NULL REFERENCES public.stores(id)]. *)
Definition references_stores (stores : list Store.t)
  (ratings : list RatingsTable.row) : Prop :=
  Forall (λ r, RatingsTable.store_id r ∈ Store.id <$> stores) ratings.

(** ** Strings of the forms

    A string of a form is taken as a sequence of characters with a code
    below 256, so that [length] is the number of its characters. *)
Module JSString.

(** White space and line terminators below 256: what [trim] removes and
    what [\s] matches. *)
Definition is_space (c : Ascii.ascii) : bool :=
  let n := Ascii.nat_of_ascii c in
  ((9 <=? n) && (n <=? 13) || (n =? 32) || (n =? 160))%nat.

Fixpoint trimStart (s : string) : string :=
  match s with
  | String c rest => if is_space c then trimStart rest else s
  | EmptyString => EmptyString
  end.

Fixpoint trimEnd (s : string) : string :=
  match s with
  | String c rest =>
      match trimEnd rest with
      | EmptyString => if is_space c then EmptyString else String c EmptyString
      | t => String c t
      end
  | EmptyString => EmptyString
  end.

Definition trim (s : string) : string := trimEnd (trimStart s).

(** [!s]: the empty string is the only falsy string. *)
Definition falsy (s : string) : bool := bool_decide (s = EmptyString).

(** Some, respectively every, character of [s] is in the class [p]. *)
Fixpoint some_char (p : Ascii.ascii -> bool) (s : string) : bool :=
  match s with
  | String c rest => p c || some_char p rest
  | EmptyString => false
  end.

Fixpoint every_char (p : Ascii.ascii -> bool) (s : string) : bool :=
  match s with
  | String c rest => p c && every_char p rest
  | EmptyString => true
  end.

(** The characters [@], [.] and the double quote. *)
Definition at_sign : Ascii.ascii := Ascii.ascii_of_nat 64.
Definition dot : Ascii.ascii := Ascii.ascii_of_nat 46.
Definition double_quote : Ascii.ascii := Ascii.ascii_of_nat 34.

(** [[A-Z]] *)
Definition is_upper (c : Ascii.ascii) : bool :=
  let n := Ascii.nat_of_ascii c in ((65 <=? n) && (n <=? 90))%nat.

(** The class of special characters of the password rule: the characters
    of the string below and the double quote. *)
Definition is_special (c : Ascii.ascii) : bool :=
  some_char (Ascii.eqb c) "!@#$%^&*(),.?:{}|<>"
  || Ascii.eqb c double_quote.

(** [/(?=.*[A-Z])/.test(s)]: the look-ahead succeeds at the position of an
    upper-case letter, and nowhere if there is none. *)
Definition test_has_upper (s : string) : bool := some_char is_upper s.

(** The same test with the class of special characters. *)
Definition test_has_special (s : string) : bool := some_char is_special s.

(** [[^\s@]] *)
Definition email_char (c : Ascii.ascii) : bool :=
  negb (is_space c) && negb (Ascii.eqb c at_sign).

(** A dot of [s] that has a character after it. *)
Fixpoint dot_before_last (s : string) : bool :=
  match s with
  | String c rest =>
      match rest with
      | EmptyString => false
      | _ => Ascii.eqb c dot || dot_before_last rest
      end
  | EmptyString => false
  end.

(** [[^\s@]+\.[^\s@]+$] on what follows the at sign. *)
Definition test_domain (s : string) : bool :=
  every_char email_char s
  && match s with
     | String _ rest => dot_before_last rest
     | EmptyString => false
     end.

(** [^[^\s@]+@] and then the domain; [seen] tells that a character of the
    local part has been read. *)
Fixpoint test_local (seen : bool) (s : string) : bool :=
  match s with
  | String c rest =>
      if Ascii.eqb c at_sign then seen && test_domain rest
      else if is_space c then false
      else test_local true rest
  | EmptyString => false
  end.

(** [/^[^\s@]+@[^\s@]+\.[^\s@]+$/.test(s)] *)
Definition test_email (s : string) : bool := test_local false s.

End JSString.

(** ** The forms *)

(** [formData] of [Register]. *)
Module RegisterForm.
Record t := Build {
  name : string;
  email : string;
  address : string;
  password : string
}.

Definition to_object (f : t) : gmap string string :=
  <["name" := name f]> (<["email" := email f]> (<["address" := address f]>
    {["password" := password f]})).
End RegisterForm.

(** [validateForm] of [Register]: the errors it sets and its result,
    [Object.keys(newErrors).length === 0]. *)
Definition Register_validateForm (formData : RegisterForm.t)
  : gmap string string * bool :=
  let newErrors : gmap string string := ∅ in
  let newErrors :=
    if JSString.falsy (JSString.trim (RegisterForm.name formData))
    then <["name" := "Name is required"]> newErrors
    else if (String.length (RegisterForm.name formData) <? 20)%nat
    then <["name" := "Name must be at least 20 characters"]> newErrors
    else if (60 <? String.length (RegisterForm.name formData))%nat
    then <["name" := "Name must be maximum 60 characters"]> newErrors
    else newErrors in
  let newErrors :=
    if JSString.falsy (JSString.trim (RegisterForm.email formData))
    then <["email" := "Email is required"]> newErrors
    else if negb (JSString.test_email (RegisterForm.email formData))
    then <["email" := "Please enter a valid email address"]> newErrors
    else newErrors in
  let newErrors :=
    if JSString.falsy (JSString.trim (RegisterForm.address formData))
    then <["address" := "Address is required"]> newErrors
    else if (400 <? String.length (RegisterForm.address formData))%nat
    then <["address" := "Address must be maximum 400 characters"]> newErrors
    else newErrors in
  let newErrors :=
    if JSString.falsy (RegisterForm.password formData)
    then <["password" := "Password is required"]> newErrors
    else if (String.length (RegisterForm.password formData) <? 8)%nat
            || (16 <? String.length (RegisterForm.password formData))%nat
    then <["password" := "Password must be 8-16 characters long"]> newErrors
    else if negb (JSString.test_has_upper (RegisterForm.password formData))
    then <["password" := "Password must contain at least one uppercase letter"]>
           newErrors
    else if negb (JSString.test_has_special (RegisterForm.password formData))
    then <["password" := "Password must contain at least one special character"]>
           newErrors
    else newErrors in
  (newErrors, bool_decide (size newErrors = 0%nat)).

(** [errors] and [loading] of a form component. *)
Record FormState := { errors : gmap string string; loading : bool }.

(** [handleSubmit] of [Register]: nothing is sent unless the form
    validates; the message of a failed registration is shown under
    [general]. *)
Definition Register_handleSubmit
  (signUp_rejected : Backend → Auth.SignUp → option rejection)
  (signUp_refused : Backend → Auth.SignUp → option Auth.AuthError)
  (gen_random_uuid : Backend → string) (now : Backend → string)
  (script : setup_script)
  (formData : RegisterForm.t) (b : Backend)
  : Completion FormState * Backend :=
  let '(newErrors, valid) := Register_validateForm formData in
  if negb valid then (Returned {| errors := newErrors; loading := false |}, b)
  else
    match register signUp_rejected signUp_refused gen_random_uuid now script
            (RegisterForm.to_object formData) b with
    | (Returned result, b') =>
        (Returned
           {| errors :=
                if negb (success result)
                then object_literal [("general", error_message result)]
                else newErrors;
              loading := false |},
         b')
    | (Thrown e, b') => (Thrown e, b')
    end.

(** [formData] of [AddUserModal]. *)
Module AddUserForm.
Record t := Build {
  name : string;
  email : string;
  password : string;
  address : string;
  role : string
}.
End AddUserForm.

(** [validateForm] of [AddUserModal]. *)
Definition AddUserModal_validateForm (formData : AddUserForm.t)
  : gmap string string * bool :=
  let newErrors : gmap string string := ∅ in
  let newErrors :=
    if JSString.falsy (JSString.trim (AddUserForm.name formData))
       || (String.length (AddUserForm.name formData) <? 20)%nat
       || (60 <? String.length (AddUserForm.name formData))%nat
    then <["name" := "Name must be 20-60 characters"]> newErrors
    else newErrors in
  let newErrors :=
    if JSString.falsy (JSString.trim (AddUserForm.email formData))
       || negb (JSString.test_email (AddUserForm.email formData))
    then <["email" := "Valid email is required"]> newErrors
    else newErrors in
  let newErrors :=
    if JSString.falsy (JSString.trim (AddUserForm.address formData))
       || (400 <? String.length (AddUserForm.address formData))%nat
    then <["address" := "Address is required (max 400 characters)"]> newErrors
    else newErrors in
  let newErrors :=
    if JSString.falsy (AddUserForm.password formData)
       || (String.length (AddUserForm.password formData) <? 8)%nat
       || (16 <? String.length (AddUserForm.password formData))%nat
       || negb (JSString.test_has_upper (AddUserForm.password formData))
       || negb (JSString.test_has_special (AddUserForm.password formData))
    then <["password" :=
             "Password must be 8-16 chars with uppercase and special character"]>
           newErrors
    else newErrors in
  (newErrors, bool_decide (size newErrors = 0%nat)).

(** [formData] of [PasswordChangeModal]. *)
Module PasswordForm.
Record t := Build {
  currentPassword : string;
  newPassword : string;
  confirmPassword : string
}.
End PasswordForm.

(** [validateForm] of [PasswordChangeModal]. *)
Definition PasswordChangeModal_validateForm (formData : PasswordForm.t)
  : gmap string string * bool :=
  let newErrors : gmap string string := ∅ in
  let newErrors :=
    if JSString.falsy (PasswordForm.currentPassword formData)
    then <["currentPassword" := "Current password is required"]> newErrors
    else newErrors in
  let newErrors :=
    if JSString.falsy (PasswordForm.newPassword formData)
    then <["newPassword" := "New password is required"]> newErrors
    else if (String.length (PasswordForm.newPassword formData) <? 8)%nat
            || (16 <? String.length (PasswordForm.newPassword formData))%nat
    then <["newPassword" := "Password must be 8-16 characters long"]> newErrors
    else if negb (JSString.test_has_upper (PasswordForm.newPassword formData))
    then <["newPassword" := "Password must contain at least one uppercase letter"]>
           newErrors
    else if negb (JSString.test_has_special (PasswordForm.newPassword formData))
    then <["newPassword" := "Password must contain at least one special character"]>
           newErrors
    else newErrors in
  let newErrors :=
    if negb (bool_decide (PasswordForm.newPassword formData
                          = PasswordForm.confirmPassword formData))
    then <["confirmPassword" := "Passwords do not match"]> newErrors
    else newErrors in
  (newErrors, bool_decide (size newErrors = 0%nat)).

(** The password rule in words: 8 to 16 characters, an upper-case letter
    and a special character. *)
Definition password_rule (password : string) : Prop :=
  (8 <= String.length password <= 16)%nat
  /\ (exists c, JSString.is_upper c = true /\ c ∈ String.list_ascii_of_string password)
  /\ (exists c, JSString.is_special c = true /\ c ∈ String.list_ascii_of_string password).

(** A string has a character that is no white space. *)
Definition not_blank (s : string) : Prop :=
  exists c, JSString.is_space c = false /\ c ∈ String.list_ascii_of_string s.

(** Strings of the form [local@domain.top], the three parts not empty and
    free of white space and of at signs. *)
Definition email_shaped (s : string) : Prop :=
  exists a b c : string,
    s = (a ++ "@" ++ b ++ "." ++ c)%string
    /\ a <> EmptyString /\ b <> EmptyString /\ c <> EmptyString
    /\ JSString.every_char JSString.email_char a = true
    /\ JSString.every_char JSString.email_char b = true
    /\ JSString.every_char JSString.email_char c = true.

(** What the forms accept of each field, as the negation of the tests
    that set an error. *)
Definition name_ok (name : string) : bool :=
  negb (JSString.falsy (JSString.trim name))
  && negb (String.length name <? 20)%nat
  && negb (60 <? String.length name)%nat.

Definition email_ok (email : string) : bool :=
  negb (JSString.falsy (JSString.trim email)) && JSString.test_email email.

Definition address_ok (address : string) : bool :=
  negb (JSString.falsy (JSString.trim address))
  && negb (400 <? String.length address)%nat.

Definition password_ok (password : string) : bool :=
  negb (JSString.falsy password)
  && negb ((String.length password <? 8)%nat
           || (16 <? String.length password)%nat)
  && JSString.test_has_upper password
  && JSString.test_has_special password.

(** A registration form that validates, for the examples. *)
Definition sample_form : RegisterForm.t :=
  RegisterForm.Build "Alexander Hamilton Junior" "ah@example.org"
    "1 Wall Street" "Federal1st!".

(** ** The rating distribution of the store owner's dashboard *)

Module JSCount.

(** A property of [counts]: a number, or [NaN] once [++] was applied to a
    property that was missing. *)
Inductive t := Num (n : nat) | NaN.

(** [counts[k]++] *)
Definition incr (c : option t) : t :=
  match c with
  | Some (Num n) => Num (S n)
  | _ => NaN
  end.

End JSCount.

(** [x * k] for an integer [k]: the exact product, rounded to 53
    significant bits. *)
Definition mul_int (x : JSNumber.double) (k : Z) : JSNumber.double :=
  let p := JSNumber.mant x * k in
  let a := Z.abs p in
  if a <? 2 ^ 53 then JSNumber.Double p (JSNumber.expo x)
  else
    let s := Z.log2 a - 52 in
    JSNumber.Double (Z.sgn p * JSNumber.rne a (2 ^ s)) (JSNumber.expo x + s).

(** An entry of [distribution]; [percentage] is [None] for [NaN]. *)
Module Bar.
Record t := Build {
  star : Z;
  count : JSCount.t;
  percentage : option JSNumber.double
}.
End Bar.

(** [const counts = { 5: 0, 4: 0, 3: 0, 2: 0, 1: 0 };
     for (const rating of ratings) counts[rating.rating]++;] *)
Definition count_ratings (ratings : list Rating.t) : gmap Z JSCount.t :=
  foldl (λ counts r,
           <[Rating.rating r := JSCount.incr (counts !! Rating.rating r)]>
             counts)
        {[5 := JSCount.Num 0; 4 := JSCount.Num 0; 3 := JSCount.Num 0;
          2 := JSCount.Num 0; 1 := JSCount.Num 0]}
        ratings.

(** [total > 0 ? (count / total) * 100 : 0] *)
Definition percentage_of (total : nat) (count : JSCount.t)
  : option JSNumber.double :=
  if (0 <? total)%nat then
    match count with
    | JSCount.Num n =>
        Some (mul_int (JSNumber.div (Z.of_nat n) (Z.of_nat total)) 100)
    | JSCount.NaN => None
    end
  else Some (JSNumber.Double 0 0).

(** The order of [(a, b) => b.star - a.star]: [a] is not put after [b]. *)
Definition by_star (a b : Bar.t) : Prop := Bar.star b <= Bar.star a.

#[global] Instance by_star_dec (a b : Bar.t) : Decision (by_star a b) :=
  Z_le_dec (Bar.star b) (Bar.star a).

(** [distribution] of [RatingDistribution]: the entries of [counts],
    sorted by [b.star - a.star].  The stars of the entries differ from one
    another, so the order in which [Object.entries] lists them does not
    show in the sorted array. *)
Definition RatingDistribution (ratings : list Rating.t) (total : nat)
  : list Bar.t :=
  merge_sort by_star
    ((λ entry, Bar.Build entry.1 entry.2 (percentage_of total entry.2))
       <$> map_to_list (count_ratings ratings)).

(** The number of ratings of [k] stars, and the bar the distribution
    shows for them. *)
Definition ratings_of_star (k : Z) (ratings : list Rating.t) : nat :=
  length (filter (λ r, Rating.rating r = k) ratings).

Definition bar_of (ratings : list Rating.t) (total : nat) (k : Z) : Bar.t :=
  Bar.Build k (JSCount.Num (ratings_of_star k ratings))
    (percentage_of total (JSCount.Num (ratings_of_star k ratings))).

(** [stored] is [value] itself or [value] without spaces at its end: what
    a [VARCHAR] column holds of a value it has accepted. *)
Definition cut_of (value stored : string) : Prop :=
  exists spaces,
    value = (stored ++ spaces)%string
    /\ Forall (λ c, c = Ascii.ascii_of_nat 32)
         (String.list_ascii_of_string spaces).

(** * Properties

    ** Binary64 arithmetic of the aggregation *)

Lemma rne_bounds N D :
  0 <= N -> 0 < D ->
  - D <= 2 * (JSNumber.rne N D * D - N) <= D.
Proof.
  intros HN HD. unfold JSNumber.rne.
  pose proof (Z.div_mod N D ltac:(lia)) as Hdm.
  pose proof (Z.mod_pos_bound N D HD) as Hr.
  repeat case_match; rewrite ?Z.ltb_lt, ?Z.ltb_ge in *; nia.
Qed.

(** [log2_quot a b] is the exponent [d] with [2^d <= a / b < 2^(d+1)]. *)
Lemma log2_quot_spec a b :
  0 < a -> 0 < b ->
  let d := JSNumber.log2_quot a b in
  (0 <= d /\ b * 2 ^ d <= a < 2 * b * 2 ^ d)
  \/ (d < 0 /\ b <= a * 2 ^ (- d) < 2 * b).
Proof.
  intros Ha Hb. unfold JSNumber.log2_quot, JSNumber.pow2_le_quot.
  pose proof (Z.log2_spec a Ha) as [Ha1 Ha2].
  pose proof (Z.log2_spec b Hb) as [Hb1 Hb2].
  pose proof (Z.log2_nonneg a) as Hla. pose proof (Z.log2_nonneg b) as Hlb.
  rewrite Z.pow_succ_r in Ha2, Hb2 by done.
  set (la := Z.log2 a) in *. set (lb := Z.log2 b) in *.
  destruct (Z.leb_spec 0 (la - lb)) as [Hd0 | Hd0].
  - assert (Hsplit : 2 ^ la = 2 ^ lb * 2 ^ (la - lb)).
    { rewrite <- Z.pow_add_r by lia. f_equal; lia. }
    assert (Hpos : 0 < 2 ^ (la - lb)) by (apply Z.pow_pos_nonneg; lia).
    destruct (Z.leb_spec (b * 2 ^ (la - lb)) a) as [Hle | Hgt]; cbn zeta.
    + left. split; [done |]. nia.
    + destruct (Z.eq_dec (la - lb) 0) as [E | E].
      * right. rewrite E in *. change (- (0 - 1)) with 1.
        change (2 ^ 0) with 1 in *. change (2 ^ 1) with 2. lia.
      * left. split; [lia |].
        assert (Hpred : 2 ^ (la - lb) = 2 * 2 ^ (la - lb - 1)).
        { rewrite <- Z.pow_succ_r by lia. f_equal; lia. }
        nia.
  - assert (Hsplit : 2 ^ lb = 2 ^ la * 2 ^ (- (la - lb))).
    { rewrite <- Z.pow_add_r by lia. f_equal; lia. }
    assert (Hpos : 0 < 2 ^ (- (la - lb))) by (apply Z.pow_pos_nonneg; lia).
    destruct (Z.leb_spec b (a * 2 ^ (- (la - lb)))) as [Hle | Hgt]; cbn zeta.
    + right. split; [done |]. nia.
    + right. split; [lia |].
      replace (- (la - lb - 1)) with (Z.succ (- (la - lb))) by lia.
      rewrite Z.pow_succ_r by lia. nia.
Qed.

(** Scaled by [2^(52-d)], the quotient has a significand of 53 bits. *)
Lemma scaled_quot_53_bits s t :
  0 < s -> 0 < t ->
  let d := JSNumber.log2_quot s t in
  d <= 52 ->
  t * 2 ^ 52 <= s * 2 ^ (52 - d) < t * 2 ^ 53.
Proof.
  intros Hs Ht d Hd.
  change (2 ^ 53) with (2 * 2 ^ 52).
  destruct (log2_quot_spec s t Hs Ht) as [(Hd0 & Hlo & Hhi) | (Hd0 & Hlo & Hhi)];
    fold d in Hd0, Hlo, Hhi.
  - assert (Hpow : 2 ^ 52 = 2 ^ d * 2 ^ (52 - d)).
    { rewrite <- Z.pow_add_r by lia. f_equal; lia. }
    assert (0 < 2 ^ (52 - d)) by (apply Z.pow_pos_nonneg; lia).
    rewrite Hpow. nia.
  - assert (Hpow : 2 ^ (52 - d) = 2 ^ 52 * 2 ^ (- d)).
    { rewrite <- Z.pow_add_r by lia. f_equal; lia. }
    rewrite Hpow. nia.
Qed.

(** The quotient of two positive integers, [s / t < 2^52]: a significand
    of 53 bits, within half a unit in the last place of [s / t]. *)
Lemma div_correctly_rounded s t :
  0 < s -> 0 < t -> s < 2 ^ 52 * t ->
  exists m k,
    JSNumber.div s t = JSNumber.Double m (- k)
    /\ 0 < k
    /\ 2 ^ 52 <= m <= 2 ^ 53
    /\ t * 2 ^ 52 <= s * 2 ^ k
    /\ - t <= 2 * (m * t - s * 2 ^ k) <= t.
Proof.
  intros Hs Ht Hsmall.
  set (d := JSNumber.log2_quot s t).
  assert (Hd : d < 52).
  { destruct (log2_quot_spec s t Hs Ht) as [(Hd0 & Hlo & _) | (Hd0 & _)];
      fold d in Hd0; [| lia]. fold d in Hlo.
    destruct (Z.lt_ge_cases d 52) as [| Hge]; [done |].
    assert (2 ^ 52 <= 2 ^ d) by (apply Z.pow_le_mono_r; lia). nia. }
  pose proof (scaled_quot_53_bits s t Hs Ht ltac:(fold d; lia)) as Hbits.
  fold d in Hbits. cbn zeta in Hbits.
  exists (JSNumber.rne (s * 2 ^ (52 - d)) t), (52 - d).
  assert (Hk : 0 < 2 ^ (52 - d)) by (apply Z.pow_pos_nonneg; lia).
  pose proof (rne_bounds (s * 2 ^ (52 - d)) t ltac:(nia) Ht) as Hm.
  split.
  { unfold JSNumber.div. destruct (Z.eqb_spec s 0) as [| _]; [lia |].
    rewrite (Z.abs_eq s), (Z.sgn_pos s), Z.mul_1_l by lia. fold d.
    destruct (Z.leb_spec 0 (d - 52)); [lia |].
    by replace (- (d - 52)) with (52 - d) by lia;
       replace (d - 52) with (- (52 - d)) by lia. }
  split; [lia |]. split; [| split; [lia | done]].
  change (2 ^ 53) with (2 * 2 ^ 52) in *. nia.
Qed.

Lemma div_opp s t :
  0 < s ->
  JSNumber.div (- s) t
  = JSNumber.Double (- JSNumber.mant (JSNumber.div s t))
      (JSNumber.expo (JSNumber.div s t)).
Proof.
  intros Hs. unfold JSNumber.div.
  destruct (Z.eqb_spec (- s) 0); [lia |]. destruct (Z.eqb_spec s 0); [lia |].
  rewrite Z.abs_opp, (Z.sgn_neg (- s)), (Z.sgn_pos s) by lia.
  cbn [JSNumber.mant JSNumber.expo]. f_equal. lia.
Qed.

Lemma toFixed1_opp m e :
  JSNumber.toFixed1 (JSNumber.Double (- m) e)
  = - JSNumber.toFixed1 (JSNumber.Double m e).
Proof.
  unfold JSNumber.toFixed1. cbn [JSNumber.mant JSNumber.expo].
  rewrite Z.abs_opp, Z.sgn_opp. lia.
Qed.

(** [toFixed(1)] of the quotient of two positive integers is a nearest
    decimal to the exact quotient, as long as [10 * s < 2^52]. *)
Lemma toFixed1_div_nearest_pos s t :
  0 < s -> 0 < t -> 10 * s < 2 ^ 52 ->
  let n := JSNumber.toFixed1 (JSNumber.div s t) in
  - t <= 2 * n * t - 20 * s <= t.
Proof.
  intros Hs Ht Hsmall.
  destruct (div_correctly_rounded s t Hs Ht ltac:(nia))
    as (m & k & -> & Hk & Hm53 & Hlo & Hm).
  unfold JSNumber.toFixed1; cbn [JSNumber.mant JSNumber.expo].
  destruct (Z.leb_spec 0 (- k)); [lia |].
  rewrite Z.opp_involutive.
  assert (Hmpos : 0 < m) by lia.
  rewrite (Z.abs_eq m), (Z.sgn_pos m), Z.mul_1_l by lia.
  set (K := 2 ^ k) in *.
  assert (HK : 10 * t < K) by nia.
  clearbody K. clear Hm53 Hk.
  pose proof (Z.div_mod (20 * m + K) (2 * K) ltac:(lia)) as Hdm.
  pose proof (Z.mod_pos_bound (20 * m + K) (2 * K) ltac:(lia)) as Hr.
  set (n := (20 * m + K) / (2 * K)) in *. clearbody n.
  set (r := (20 * m + K) mod (2 * K)) in *. clearbody r.
  assert (Hnt : 20 * (m * t) + K * t = K * (2 * n * t) + r * t) by nia.
  assert (Hrt : 0 <= r * t <= (2 * K - 1) * t) by nia.
  set (X := 2 * n * t - 20 * s).
  assert (HX : - (K * t) - 9 * t <= K * X <= K * t + 10 * t).
  { unfold X. rewrite Z.mul_sub_distr_l.
    replace (K * (20 * s)) with (20 * (s * K)) by lia.
    set (mt := m * t) in *. set (sK := s * K) in *. set (Kt := K * t) in *.
    set (Knt := K * (2 * n * t)) in *. set (rt := r * t) in *.
    replace ((2 * K - 1) * t) with (2 * Kt - t) in Hrt by (unfold Kt; lia).
    lia. }
  nia.
Qed.

Lemma toFixed1_div_nearest s t :
  0 < t -> 10 * Z.abs s < 2 ^ 52 ->
  let n := JSNumber.toFixed1 (JSNumber.div s t) in
  - t <= 2 * n * t - 20 * s <= t.
Proof.
  intros Ht Hsmall.
  destruct (Z.lt_trichotomy s 0) as [Hneg | [-> | Hpos]].
  - pose proof (toFixed1_div_nearest_pos (- s) t ltac:(lia) Ht ltac:(lia)) as H.
    cbn zeta in H |- *.
    assert (E : JSNumber.toFixed1 (JSNumber.div s t)
                = - JSNumber.toFixed1 (JSNumber.div (- s) t)).
    { replace s with (- (- s)) at 1 by lia.
      rewrite div_opp by lia. rewrite toFixed1_opp.
      by destruct (JSNumber.div (- s) t). }
    rewrite E. lia.
  - change (JSNumber.toFixed1 (JSNumber.div 0 t)) with 0. lia.
  - apply toFixed1_div_nearest_pos; [done | done | lia].
Qed.

(** Up to [2^53] every integer is a binary64 value. *)
Lemma round53_exact z : Z.abs z < 2 ^ 53 -> JSNumber.round53 z = z.
Proof.
  intros H. unfold JSNumber.round53.
  destruct (Z.ltb_spec (Z.abs z) (2 ^ 53)); [done | lia].
Qed.

(** *** The sum of the scores of a column of type SMALLINT is exact *)

Lemma sum_of_scores_cons r (l : list Rating.t) :
  sum_of_scores (r :: l) = Rating.rating r + sum_of_scores l.
Proof. reflexivity. Qed.

Lemma sum_of_scores_smallint (l : list Rating.t) :
  Forall smallint_score l ->
  Z.abs (sum_of_scores l) <= 32768 * Z.of_nat (length l).
Proof.
  induction 1 as [| r l Hr _ IH]; [simpl; lia |].
  unfold smallint_score in Hr. rewrite sum_of_scores_cons.
  cbn [length]. lia.
Qed.

Lemma sum_of_scores_valid (l : list Rating.t) :
  Forall valid_score l ->
  Z.of_nat (length l) <= sum_of_scores l <= 5 * Z.of_nat (length l).
Proof.
  induction 1 as [| r l Hr _ IH]; [simpl; lia |].
  unfold valid_score in Hr. rewrite sum_of_scores_cons.
  cbn [length]. lia.
Qed.

Lemma valid_scores_smallint (l : list Rating.t) :
  Forall valid_score l -> Forall smallint_score l.
Proof.
  intros H. eapply Forall_impl; [exact H |].
  unfold valid_score, smallint_score. intros r Hr. lia.
Qed.

Lemma foldl_add_exact (l : list Rating.t) (acc : Z) :
  Forall smallint_score l ->
  Z.abs acc + 32768 * Z.of_nat (length l) < 2 ^ 53 ->
  foldl (λ a r, JSNumber.add a (Rating.rating r)) acc l = acc + sum_of_scores l.
Proof.
  intros Hl. revert acc.
  induction Hl as [| r l Hr _ IH]; intros acc Hbound.
  - simpl. lia.
  - unfold smallint_score in Hr. rewrite sum_of_scores_cons.
    cbn [foldl length] in *.
    unfold JSNumber.add at 2. rewrite round53_exact by lia.
    rewrite IH by lia. lia.
Qed.

Lemma ratings_of_Forall (P : Rating.t -> Prop) i (ratings : list Rating.t) :
  Forall P ratings -> Forall P (ratings_of i ratings).
Proof.
  unfold ratings_of. rewrite !Forall_forall. intros H r Hr.
  apply list_elem_of_filter in Hr as [_ Hr]. by apply H.
Qed.

Lemma ratings_of_length i (ratings : list Rating.t) :
  array_length ratings -> array_length (ratings_of i ratings).
Proof.
  unfold array_length, ratings_of. intros H.
  pose proof (length_filter (λ r, Rating.store_id r = i) ratings). lia.
Qed.

(** The record [storeWithRatings] builds, with the sum taken in [Z]. *)
Lemma storeWithRatings_exact (ratings : list Rating.t) (store : Store.t) :
  Forall smallint_score ratings -> array_length ratings ->
  let R := ratings_of (Store.id store) ratings in
  storeWithRatings ratings store =
    if decide (length R = 0%nat) then spread store 0 0%nat
    else spread store
           (JSNumber.toFixed1 (JSNumber.div (sum_of_scores R) (Z.of_nat (length R))))
           (length R).
Proof.
  intros Hv Hlen R. unfold storeWithRatings. fold (ratings_of (Store.id store) ratings).
  fold R. destruct (decide (length R = 0%nat)); [done |].
  unfold JSNumber.parseFloat.
  rewrite foldl_add_exact.
  - by rewrite Z.add_0_l.
  - by apply ratings_of_Forall.
  - pose proof (ratings_of_length (Store.id store) ratings Hlen) as HR.
    unfold array_length in HR. fold R in HR.
    change (2 ^ 32) with 4294967296 in HR.
    change (2 ^ 53) with 9007199254740992. lia.
Qed.

Lemma mean_rounded_of_smallint (R : list Rating.t) :
  Forall smallint_score R -> array_length R -> R <> [] ->
  mean_rounded_to_one_decimal
    (JSNumber.toFixed1 (JSNumber.div (sum_of_scores R) (Z.of_nat (length R))))
    (sum_of_scores R) (length R).
Proof.
  intros Hv Hlen Hne. unfold mean_rounded_to_one_decimal.
  pose proof (sum_of_scores_smallint R Hv) as Hsum.
  assert (0 < Z.of_nat (length R)) by (destruct R; [done | simpl; lia]).
  unfold array_length in Hlen. change (2 ^ 32) with 4294967296 in Hlen.
  assert (Hsmall : 10 * Z.abs (sum_of_scores R) < 2 ^ 52)
    by (change (2 ^ 52) with 4503599627370496; lia).
  pose proof (toFixed1_div_nearest (sum_of_scores R) (Z.of_nat (length R))
                ltac:(lia) Hsmall) as Hn.
  cbn zeta in Hn. lia.
Qed.

Lemma calculateStoreRatings_lookup stores ratings (i : nat) :
  calculateStoreRatings stores ratings !! i
  = storeWithRatings ratings <$> stores !! i.
Proof. unfold calculateStoreRatings. apply list_lookup_fmap. Qed.

Lemma length_zero_iff_nil {A} (l : list A) : length l = 0%nat <-> l = [].
Proof. destruct l; simpl; split; intros; congruence. Qed.

(** A mean has one rounding to one decimal, unless it lies exactly midway
    between two neighbouring decimals. *)
Lemma mean_rounded_unique n n' s (c : nat) :
  (0 < c)%nat ->
  mean_rounded_to_one_decimal n s c -> mean_rounded_to_one_decimal n' s c ->
  n = n' \/ (Z.abs (n - n') = 1 /\ 20 * s = (n + n') * Z.of_nat c).
Proof.
  unfold mean_rounded_to_one_decimal. intros Hc Hn Hn'.
  assert (0 < Z.of_nat c) by lia. nia.
Qed.

Lemma storeWithRatings_scores_5_4_3 ratings store :
  Rating.rating <$> ratings_of (Store.id store) ratings = [5; 4; 3] ->
  storeWithRatings ratings store = spread store 40 3%nat.
Proof.
  unfold storeWithRatings. fold (ratings_of (Store.id store) ratings).
  destruct (ratings_of _ ratings) as [| [i1 x1] [| [i2 x2] [| [i3 x3] [|]]]];
    try discriminate.
  cbn [fmap list_fmap Rating.rating]. intros [= -> -> ->]. reflexivity.
Qed.

(** C1: for every store of the input, [totalRatings] is the number of
    ratings whose [store_id] is the store's [id]; a store with no such
    rating gets [averageRating] 0 and [totalRatings] 0; otherwise, for
    scores of the column's type held in a JavaScript array,
    [averageRating] is the arithmetic mean of those scores rounded to one
    decimal place; scores 5, 4, 3 give 4.0 (40 tenths) and 3. *)
Theorem C1_average_and_total
  (stores : list Store.t) (ratings : list Rating.t) (i : nat) (store : Store.t) :
  stores !! i = Some store ->
  exists out,
    calculateStoreRatings stores ratings !! i = Some out /\
    let R := ratings_of (Store.id store) ratings in
    StoreWithRatings.totalRatings out = length R /\
    (R = [] ->
     StoreWithRatings.averageRating out = 0 /\
     StoreWithRatings.totalRatings out = 0%nat) /\
    (Forall smallint_score ratings -> array_length ratings -> R <> [] ->
     mean_rounded_to_one_decimal
       (StoreWithRatings.averageRating out) (sum_of_scores R) (length R)) /\
    (Rating.rating <$> R = [5; 4; 3] ->
     StoreWithRatings.averageRating out = 40 /\
     StoreWithRatings.totalRatings out = 3%nat).
Proof.
  intros Hi. exists (storeWithRatings ratings store). split.
  { by rewrite calculateStoreRatings_lookup, Hi. }
  cbn zeta. split; [| split; [| split]];
    [| | | intros H543; by rewrite storeWithRatings_scores_5_4_3].
  - unfold storeWithRatings. fold (ratings_of (Store.id store) ratings).
    by case_decide.
  - intros HR. unfold storeWithRatings.
    fold (ratings_of (Store.id store) ratings). rewrite HR. done.
  - intros Hv Hlen HR. rewrite storeWithRatings_exact by done. cbn zeta.
    case_decide as Hz; [by apply length_zero_iff_nil in Hz |].
    cbn [spread StoreWithRatings.averageRating].
    apply mean_rounded_of_smallint;
      [by apply ratings_of_Forall | by apply ratings_of_length | done].
Qed.

Lemma C1_witness :
  [corner_shop; book_shop] !! 0%nat = Some corner_shop
  /\ exists out,
    calculateStoreRatings [corner_shop; book_shop] sample_ratings !! 0%nat
    = Some out /\
    let R := ratings_of (Store.id corner_shop) sample_ratings in
    StoreWithRatings.totalRatings out = length R /\
    (R = [] ->
     StoreWithRatings.averageRating out = 0 /\
     StoreWithRatings.totalRatings out = 0%nat) /\
    (Forall smallint_score sample_ratings -> array_length sample_ratings ->
     R <> [] ->
     mean_rounded_to_one_decimal
       (StoreWithRatings.averageRating out) (sum_of_scores R) (length R)) /\
    (Rating.rating <$> R = [5; 4; 3] ->
     StoreWithRatings.averageRating out = 40 /\
     StoreWithRatings.totalRatings out = 3%nat).
Proof.
  split; [reflexivity |].
  apply (C1_average_and_total [corner_shop; book_shop] sample_ratings 0%nat
           corner_shop).
  reflexivity.
Defined.

(** Scenario A of the specification: scores 5, 4, 3 give average 4.0 and
    total 3; scenario B: no rating gives 0 and 0. *)
Example scenario_A_and_B :
  (λ out, (StoreWithRatings.id out,
           StoreWithRatings.averageRating out,
           StoreWithRatings.totalRatings out))
    <$> calculateStoreRatings [corner_shop; book_shop] sample_ratings
  = [(7, 40, 3%nat); (9, 0, 0%nat)].
Proof. vm_compute. reflexivity. Qed.

(** Where the mean lies midway between two decimals, the binary64 value
    of the quotient decides: 87/20 is below 4.35 and gives 4.3, 5/4 is
    1.25 and gives 1.3, 27/20 is above 1.35 and gives 1.4. *)
Example midway_means :
  JSNumber.toFixed1 (JSNumber.div 87 20) = 43
  /\ JSNumber.toFixed1 (JSNumber.div 5 4) = 13
  /\ JSNumber.toFixed1 (JSNumber.div 27 20) = 14
  /\ JSNumber.toFixed1 (JSNumber.div 29 20) = 14.
Proof. vm_compute. done. Qed.

(** *** Frame and range of the aggregation *)

Lemma storeWithRatings_frame ratings store :
  let out := storeWithRatings ratings store in
  StoreWithRatings.id out = Store.id store
  /\ StoreWithRatings.name out = Store.name store
  /\ StoreWithRatings.email out = Store.email store
  /\ StoreWithRatings.address out = Store.address store
  /\ StoreWithRatings.owner_id out = Store.owner_id store
  /\ StoreWithRatings.created_at out = Store.created_at store.
Proof. cbn zeta. unfold storeWithRatings. by case_decide. Qed.

Lemma averageRating_range ratings store :
  Forall valid_score ratings -> array_length ratings ->
  0 <= StoreWithRatings.averageRating (storeWithRatings ratings store) <= 50.
Proof.
  intros Hv Hlen.
  rewrite storeWithRatings_exact by (by apply valid_scores_smallint || done).
  cbn zeta. set (R := ratings_of (Store.id store) ratings).
  case_decide as Hz; [simpl; lia |].
  cbn [spread StoreWithRatings.averageRating].
  assert (HR : R <> []) by (by rewrite <- length_zero_iff_nil).
  pose proof (ratings_of_Forall valid_score (Store.id store) ratings Hv) as HvR.
  pose proof (ratings_of_length (Store.id store) ratings Hlen) as HlR.
  fold R in HvR, HlR.
  pose proof (mean_rounded_of_smallint R (valid_scores_smallint R HvR) HlR HR) as Hn.
  pose proof (sum_of_scores_valid R HvR) as Hs.
  unfold mean_rounded_to_one_decimal in Hn.
  set (n := JSNumber.toFixed1 _) in *. clearbody n.
  assert (0 < Z.of_nat (length R)) by lia.
  nia.
Qed.

(** C10: the aggregation returns one record per input store, in the
    order of the input; each record carries the six fields of its store
    unchanged next to the two derived fields; and when every score lies
    in [1,5] (in a JavaScript array) each [averageRating] lies in [0,5],
    that is between 0 and 50 tenths. *)
Theorem C10_frame_and_range (stores : list Store.t) (ratings : list Rating.t) :
  length (calculateStoreRatings stores ratings) = length stores
  /\ forall (i : nat) (store : Store.t),
      stores !! i = Some store ->
      exists out,
        calculateStoreRatings stores ratings !! i = Some out
        /\ StoreWithRatings.id out = Store.id store
        /\ StoreWithRatings.name out = Store.name store
        /\ StoreWithRatings.email out = Store.email store
        /\ StoreWithRatings.address out = Store.address store
        /\ StoreWithRatings.owner_id out = Store.owner_id store
        /\ StoreWithRatings.created_at out = Store.created_at store
        /\ (Forall valid_score ratings -> array_length ratings ->
            0 <= StoreWithRatings.averageRating out <= 50).
Proof.
  split.
  { unfold calculateStoreRatings. apply length_fmap. }
  intros i store Hi. exists (storeWithRatings ratings store).
  split; [by rewrite calculateStoreRatings_lookup, Hi |].
  pose proof (storeWithRatings_frame ratings store) as Hframe.
  cbn zeta in Hframe. destruct Hframe as (? & ? & ? & ? & ? & ?).
  repeat (split; [done |]).
  apply averageRating_range.
Qed.

Lemma sample_ratings_valid : Forall valid_score sample_ratings.
Proof. unfold sample_ratings, valid_score. repeat constructor; simpl; lia. Qed.

Lemma sample_ratings_smallint : Forall smallint_score sample_ratings.
Proof. apply valid_scores_smallint, sample_ratings_valid. Qed.

Lemma sample_ratings_length : array_length sample_ratings.
Proof. unfold array_length. simpl. lia. Qed.

Lemma C10_witness :
  exists out,
    calculateStoreRatings [corner_shop; book_shop] sample_ratings !! 1%nat
    = Some out
    /\ StoreWithRatings.id out = 9
    /\ StoreWithRatings.name out = "Book Shop"
    /\ 0 <= StoreWithRatings.averageRating out <= 50.
Proof.
  destruct (proj2 (C10_frame_and_range [corner_shop; book_shop] sample_ratings)
              1%nat book_shop eq_refl)
    as (out & Hout & Hid & Hname & _ & _ & _ & _ & Hrange).
  exists out. repeat split; try assumption;
    apply (Hrange sample_ratings_valid sample_ratings_length).
Defined.

(** *** Independence of the input order *)

Lemma sum_of_scores_Permutation (l l' : list Rating.t) :
  l ≡ₚ l' -> sum_of_scores l = sum_of_scores l'.
Proof.
  induction 1 as [| r l l' _ IH | r r' l | l l' l'' _ IH1 _ IH2];
    rewrite ?sum_of_scores_cons; lia.
Qed.

Lemma ratings_of_Permutation i (l l' : list Rating.t) :
  l ≡ₚ l' -> ratings_of i l ≡ₚ ratings_of i l'.
Proof. intros H. unfold ratings_of. by rewrite H. Qed.

Lemma storeWithRatings_Permutation ratings ratings' store :
  Forall smallint_score ratings -> array_length ratings ->
  ratings ≡ₚ ratings' ->
  storeWithRatings ratings' store = storeWithRatings ratings store.
Proof.
  intros Hv Hlen Hp.
  assert (Hv' : Forall smallint_score ratings') by (by rewrite <- Hp).
  assert (Hlen' : array_length ratings').
  { unfold array_length in *. by rewrite <- Hp. }
  rewrite !storeWithRatings_exact by done. cbn zeta.
  pose proof (ratings_of_Permutation (Store.id store) _ _ Hp) as HR.
  rewrite <- (sum_of_scores_Permutation _ _ HR).
  by rewrite <- (Permutation_length HR).
Qed.

(** C6: for scores of the column's type held in a JavaScript array,
    reordering the ratings changes no store's record, and reordering the
    stores only reorders the output: every store keeps its
    [averageRating] and its [totalRatings]. *)
Theorem C6_order_independent
  (stores stores' : list Store.t) (ratings ratings' : list Rating.t) :
  Forall smallint_score ratings -> array_length ratings ->
  stores ≡ₚ stores' -> ratings ≡ₚ ratings' ->
  (forall store, storeWithRatings ratings' store = storeWithRatings ratings store)
  /\ calculateStoreRatings stores' ratings' ≡ₚ calculateStoreRatings stores ratings.
Proof.
  intros Hv Hlen Hs Hr. split.
  - intros store. by apply storeWithRatings_Permutation.
  - unfold calculateStoreRatings. rewrite <- Hs.
    assert (E : storeWithRatings ratings' <$> stores
                = storeWithRatings ratings <$> stores).
    { apply list_fmap_ext. intros _ store _.
      by apply storeWithRatings_Permutation. }
    by rewrite E.
Qed.

Lemma C6_witness :
  Forall smallint_score sample_ratings /\ array_length sample_ratings
  /\ [corner_shop; book_shop] ≡ₚ [book_shop; corner_shop]
  /\ sample_ratings ≡ₚ reverse sample_ratings
  /\ (forall store,
        storeWithRatings (reverse sample_ratings) store
        = storeWithRatings sample_ratings store)
  /\ calculateStoreRatings [book_shop; corner_shop] (reverse sample_ratings)
     ≡ₚ calculateStoreRatings [corner_shop; book_shop] sample_ratings.
Proof.
  assert (H1 : [corner_shop; book_shop] ≡ₚ [book_shop; corner_shop])
    by apply Permutation_swap.
  assert (H2 : sample_ratings ≡ₚ reverse sample_ratings)
    by (symmetry; apply reverse_Permutation).
  split; [apply sample_ratings_smallint |].
  split; [apply sample_ratings_length |].
  split; [exact H1 |]. split; [exact H2 |].
  apply (C6_order_independent _ _ _ _
           sample_ratings_smallint sample_ratings_length H1 H2).
Defined.

(** Beyond [2^53] the addition of numbers rounds, and the sum depends on
    the order of its terms: the type of the scores is needed. *)
Example add_rounds_beyond_2_53 :
  foldl JSNumber.add 0 [2 ^ 53; 1; 1] = 2 ^ 53
  /\ foldl JSNumber.add 0 [1; 1; 2 ^ 53] = 2 ^ 53 + 2.
Proof. vm_compute. done. Qed.

(** *** The rating upsert *)

Lemma totalRatings_storeWithRatings ratings store :
  StoreWithRatings.totalRatings (storeWithRatings ratings store)
  = length (ratings_of (Store.id store) ratings).
Proof.
  unfold storeWithRatings. fold (ratings_of (Store.id store) ratings).
  by case_decide.
Qed.

Lemma same_key_sym a b : RatingsTable.same_key a b -> RatingsTable.same_key b a.
Proof. intros [H1 H2]. split; congruence. Qed.

Lemma same_key_trans a b c :
  RatingsTable.same_key a b -> RatingsTable.same_key b c ->
  RatingsTable.same_key a c.
Proof. intros [H1 H2] [H3 H4]. split; congruence. Qed.

Lemma unique_key_app_inv before r after :
  RatingsTable.unique_key (before ++ r :: after) ->
  Forall (λ b, ¬ RatingsTable.same_key b r) before.
Proof.
  induction before as [| b before IH]; [constructor |].
  cbn [app RatingsTable.unique_key]. intros [Hb Hrest].
  constructor; [| by apply IH].
  rewrite Forall_app, Forall_cons in Hb. destruct Hb as (_ & Hrb & _).
  intros Hk. by apply Hrb, same_key_sym.
Qed.

Lemma on_conflict_update_present new before r after :
  Forall (λ b, ¬ RatingsTable.same_key b new) before ->
  RatingsTable.same_key r new ->
  RatingsTable.on_conflict_update new (before ++ r :: after)
  = before ++ new :: after.
Proof.
  intros Hb Hr. induction Hb as [| b before Hb _ IH]; simpl.
  - by rewrite decide_True.
  - rewrite decide_False by done. by rewrite IH.
Qed.

Lemma on_conflict_update_absent new rows :
  Forall (λ b, ¬ RatingsTable.same_key b new) rows ->
  RatingsTable.on_conflict_update new rows = rows ++ [new].
Proof.
  induction 1 as [| b rows Hb _ IH]; simpl; [done |].
  rewrite decide_False by done. by rewrite IH.
Qed.

Lemma on_conflict_update_keys new rows :
  Forall (λ r', ¬ RatingsTable.same_key r' new) rows \/
  exists before r after,
    rows = before ++ r :: after
    /\ Forall (λ b, ¬ RatingsTable.same_key b new) before
    /\ RatingsTable.same_key r new.
Proof.
  induction rows as [| r rows IH]; [left; constructor |].
  destruct (decide (RatingsTable.same_key r new)) as [Hk | Hk].
  - right. exists [], r, rows. split; [done |]. split; [constructor | done].
  - destruct IH as [Hall | (before & r' & after & -> & Hb & Hr')].
    + left. by constructor.
    + right. exists (r :: before), r', after.
      split; [done |]. split; [by constructor | done].
Qed.

Lemma unique_key_replace before r new after :
  RatingsTable.same_key r new ->
  RatingsTable.unique_key (before ++ r :: after) ->
  RatingsTable.unique_key (before ++ new :: after).
Proof.
  intros Hk. induction before as [| b before IH];
    cbn [app RatingsTable.unique_key].
  - intros [Hr Hu]. split; [| done].
    eapply Forall_impl; [exact Hr |]. cbn beta. intros r' Hn Hk'.
    apply Hn. eapply same_key_trans; [exact Hk' | by apply same_key_sym].
  - intros [Hb Hu]. split; [| by apply IH].
    rewrite Forall_app, Forall_cons in Hb |- *.
    destruct Hb as (H1 & H2 & H3). repeat split; [done | | done].
    intros Hk'. apply H2. eapply same_key_trans; [exact Hk | exact Hk'].
Qed.

Lemma unique_key_snoc rows new :
  Forall (λ b, ¬ RatingsTable.same_key b new) rows ->
  RatingsTable.unique_key rows ->
  RatingsTable.unique_key (rows ++ [new]).
Proof.
  induction 1 as [| b rows Hb _ IH]; cbn [app RatingsTable.unique_key].
  - intros _. split; [constructor | done].
  - intros [Hall Hu]. split; [| by apply IH].
    rewrite Forall_app, Forall_singleton. split; [done |].
    intros Hk. by apply Hb, same_key_sym.
Qed.

(** The upsert keeps the [UNIQUE (user_id, store_id)] constraint. *)
Lemma on_conflict_update_unique new rows :
  RatingsTable.unique_key rows ->
  RatingsTable.unique_key (RatingsTable.on_conflict_update new rows).
Proof.
  intros Hu.
  destruct (on_conflict_update_keys new rows)
    as [Hall | (before & r & after & -> & Hb & Hr)].
  - rewrite on_conflict_update_absent by done. by apply unique_key_snoc.
  - rewrite on_conflict_update_present by done.
    by eapply unique_key_replace.
Qed.

(** *** The checks of the upsert *)

Lemma in_conflict_Some new rows old :
  RatingsTable.in_conflict new rows = Some old ->
  old ∈ rows /\ RatingsTable.same_key old new.
Proof.
  unfold RatingsTable.in_conflict.
  induction rows as [| r rows IH]; [done |]. cbn [List.find].
  case_bool_decide as Hk.
  - intros [= ->]. split; [left | done].
  - intros H. destruct (IH H) as [Hin Hsame]. split; [by right | done].
Qed.

Lemma in_conflict_None new rows :
  RatingsTable.in_conflict new rows = None ->
  Forall (λ r, ¬ RatingsTable.same_key r new) rows.
Proof.
  unfold RatingsTable.in_conflict.
  induction rows as [| r rows IH]; [constructor |]. cbn [List.find].
  case_bool_decide as Hk; [done |]. intros H. constructor; auto.
Qed.

Lemma in_range_fits score :
  1 <= score <= 5 ->
  RatingsTable.fits_smallint score = true
  /\ RatingsTable.rating_check score = true.
Proof.
  intros Hs. unfold RatingsTable.fits_smallint, RatingsTable.rating_check.
  rewrite !andb_true_iff, !Z.leb_le. lia.
Qed.

Lemma out_of_range_check score :
  ¬ (1 <= score <= 5) -> RatingsTable.rating_check score = false.
Proof.
  intros Hs. unfold RatingsTable.rating_check.
  rewrite andb_false_iff, !Z.leb_gt. lia.
Qed.

(** A rating of one's own with a score in [1,5] is stored when it can be
    written. *)
Lemma submitRating_stored c storeId userId score rows :
  1 <= score <= 5 -> own_rating c userId -> writable c storeId userId rows ->
  submitRating c storeId userId score rows
  = (Returned (Some (RatingsTable.Row userId storeId score)),
     RatingsTable.on_conflict_update (RatingsTable.Row userId storeId score) rows).
Proof.
  intros Hs Hown Hw. destruct (in_range_fits score Hs) as [Hfits Hcheck].
  unfold submitRating, RatingsTable.upsert, RatingsTable.insert_policy,
    RatingsTable.update_policy.
  cbn [RatingsTable.rating RatingsTable.user_id RatingsTable.store_id].
  rewrite Hfits, Hcheck. rewrite (bool_decide_eq_true_2 _ Hown). cbn [negb].
  destruct (RatingsTable.in_conflict _ rows) as [old |] eqn:E;
    cbv beta iota zeta.
  - apply in_conflict_Some in E as [_ [Hu _]]. cbn in Hu.
    rewrite bool_decide_eq_true_2 by (by rewrite Hu). done.
  - apply in_conflict_None in E.
    destruct Hw as [(r & Hr & Hu & Hi) | [Hp Hst]].
    + rewrite Forall_forall in E. by destruct (E r Hr).
    + unfold RatingsTable.references.
      cbn [RatingsTable.user_id RatingsTable.store_id].
      by rewrite !bool_decide_eq_true_2.
Qed.

(** What [submitRating] answers in every case, and that it changes the
    table only by storing the row. *)
Lemma submitRating_cases c storeId userId score rows :
  let new := RatingsTable.Row userId storeId score in
  (submitRating c storeId userId score rows
   = (Returned (Some new), RatingsTable.on_conflict_update new rows)
   /\ 1 <= score <= 5 /\ own_rating c userId /\ writable c storeId userId rows)
  \/ (exists e,
        submitRating c storeId userId score rows = (Thrown e, rows)
        /\ (RatingsTable.fits_smallint score = false ->
            e = numeric_value_out_of_range)
        /\ (RatingsTable.fits_smallint score = true ->
            ¬ own_rating c userId -> e = insufficient_privilege)
        /\ (RatingsTable.fits_smallint score = true ->
            own_rating c userId -> ¬ (1 <= score <= 5) ->
            e = check_violation)
        /\ (1 <= score <= 5 -> own_rating c userId ->
            e = foreign_key_violation /\ ¬ writable c storeId userId rows)).
Proof.
  intros new.
  unfold submitRating, RatingsTable.upsert, RatingsTable.insert_policy.
  cbn [RatingsTable.rating RatingsTable.user_id].
  destruct (RatingsTable.fits_smallint score) eqn:Hfits; cbn [negb].
  2: { right. eexists. split; [reflexivity |]. split; [done |].
       split; [done |]. split; [done |]. intros Hs.
       destruct (in_range_fits score Hs). congruence. }
  case_bool_decide as Hown; cbn [negb].
  2: { right. eexists. split; [reflexivity |]. split; [done |].
       split; [done |]. split; [done |]. done. }
  destruct (RatingsTable.rating_check score) eqn:Hcheck; cbn [negb].
  2: { right. eexists. split; [reflexivity |]. split; [done |].
       split; [done |]. split; [done |]. intros Hs.
       destruct (in_range_fits score Hs). congruence. }
  assert (1 <= score <= 5) as Hs.
  { unfold RatingsTable.rating_check in Hcheck.
    rewrite andb_true_iff, !Z.leb_le in Hcheck. lia. }
  destruct (RatingsTable.in_conflict _ rows) as [old |] eqn:E;
    cbv beta iota zeta.
  - apply in_conflict_Some in E as [Hin [Hu Hi]]. cbn in Hu, Hi.
    unfold RatingsTable.update_policy.
    rewrite bool_decide_eq_true_2 by (by rewrite Hu). cbn [negb].
    left. split; [done |]. split; [done |]. split; [done |].
    left. by exists old.
  - apply in_conflict_None in E.
    destruct (RatingsTable.references c _) eqn:Href; cbn [negb].
    + left. split; [done |]. split; [done |]. split; [done |]. right.
      unfold RatingsTable.references in Href.
      rewrite andb_true_iff, !bool_decide_eq_true in Href. done.
    + right. eexists. split; [reflexivity |]. split; [done |].
      split; [done |]. split; [done |]. intros _ _. split; [done |].
      intros [(r & Hr & Hu & Hi) | [Hp Hst]].
      * rewrite Forall_forall in E. by destruct (E r Hr).
      * unfold RatingsTable.references in Href.
        cbn [RatingsTable.user_id RatingsTable.store_id new] in Href.
        by rewrite !bool_decide_eq_true_2 in Href.
Qed.

(** A score outside [1,5] is refused and the table stays as it is: by
    the column, with a validation error, for a rating of one's own, and
    by the policy for a rating submitted for somebody else. *)
Lemma submitRating_invalid c storeId userId score rows :
  ¬ (1 <= score <= 5) ->
  exists e,
    submitRating c storeId userId score rows = (Thrown e, rows)
    /\ (own_rating c userId -> ValidationError e)
    /\ (RatingsTable.fits_smallint score = false -> ValidationError e)
    /\ (¬ own_rating c userId -> RatingsTable.fits_smallint score = true ->
        e = insufficient_privilege).
Proof.
  intros Hs.
  destruct (submitRating_cases c storeId userId score rows)
    as [(_ & Hin & _) | (e & He & H1 & H2 & H3 & _)]; [done |].
  exists e. split; [done |]. unfold ValidationError.
  destruct (RatingsTable.fits_smallint score) eqn:Hfits.
  - split; [| split]; [| done |].
    + intros Hown. left. by apply H3.
    + intros Hown _. by apply H2.
  - split; [| split]; [| | done]; intros _; right; by apply H1.
Qed.

(** A rating for a store that does not exist, or by a user without
    profile, is refused by the foreign key and leaves the table as it
    is; a rating submitted for another user is refused by the policy. *)
Example submitRating_refusals :
  submitRating (sample_context "u1") 99 "u1" 5 sample_table
  = (Thrown foreign_key_violation, sample_table)
  /\ submitRating (RatingsTable.Context (Some "nobody") [7; 9] ["u1"; "u2"])
       9 "nobody" 5 sample_table
     = (Thrown foreign_key_violation, sample_table)
  /\ submitRating (sample_context "u2") 7 "u1" 5 sample_table
     = (Thrown insufficient_privilege, sample_table)
  /\ submitRating (RatingsTable.Context None [7; 9] ["u1"; "u2"])
       7 "u1" 5 sample_table
     = (Thrown insufficient_privilege, sample_table).
Proof. vm_compute. done. Qed.

(** The specification's statement fails: a score of 6 submitted for
    another user is refused by the row-level policy, before the [CHECK]
    of the column is looked at. *)
Lemma C7_counterexample : ¬ fails_with_ValidationError.
Proof.
  intros Hclaim.
  destruct (Hclaim (sample_context "u2") 7 "u1" 6 [] ltac:(lia))
    as (e & He & Hv).
  assert (e = insufficient_privilege) as -> by (vm_compute in He; congruence).
  by destruct Hv.
Qed.

(** C7: [submitRating] throws, and leaves the table as it is, whenever
    the score is outside [1,5]: with a validation error of the column
    when the rating is the caller's own or the score does not fit the
    column type, and with the refusal of the row-level policy when a
    score that fits the type is submitted for another user.  It returns
    only for a score inside [1,5], submitted as the caller's own, and
    then the row is stored, inserted or overwritten; it does return for
    every such rating that can be written. *)
Theorem C7_submitRating_validates
  (c : RatingsTable.context) (storeId : Z) (userId : string) (score : Z)
  (rows : list RatingsTable.row) :
  (¬ (1 <= score <= 5) ->
   exists e,
     submitRating c storeId userId score rows = (Thrown e, rows)
     /\ (own_rating c userId -> ValidationError e)
     /\ (RatingsTable.fits_smallint score = false -> ValidationError e)
     /\ (¬ own_rating c userId -> RatingsTable.fits_smallint score = true ->
         e = insufficient_privilege))
  /\ (forall r rows',
        submitRating c storeId userId score rows = (Returned r, rows') ->
        1 <= score <= 5
        /\ own_rating c userId
        /\ r = Some (RatingsTable.Row userId storeId score)
        /\ rows' = RatingsTable.on_conflict_update
                     (RatingsTable.Row userId storeId score) rows)
  /\ (1 <= score <= 5 -> own_rating c userId ->
      writable c storeId userId rows ->
      submitRating c storeId userId score rows
      = (Returned (Some (RatingsTable.Row userId storeId score)),
         RatingsTable.on_conflict_update
           (RatingsTable.Row userId storeId score) rows)).
Proof.
  split; [apply submitRating_invalid |].
  split; [| apply submitRating_stored].
  intros r rows' Hret.
  destruct (submitRating_cases c storeId userId score rows)
    as [(Heq & Hs & Hown & _) | (e & He & _)]; [| congruence].
  rewrite Heq in Hret. injection Hret as <- <-. done.
Qed.

Lemma C7_witness :
  (exists e,
     submitRating (sample_context "u1") 7 "u1" 6 [RatingsTable.Row "u1" 7 3]
     = (Thrown e, [RatingsTable.Row "u1" 7 3])
     /\ ValidationError e)
  /\ submitRating (sample_context "u1") 7 "u1" 5 [RatingsTable.Row "u1" 7 3]
     = (Returned (Some (RatingsTable.Row "u1" 7 5)),
        RatingsTable.on_conflict_update (RatingsTable.Row "u1" 7 5)
          [RatingsTable.Row "u1" 7 3]).
Proof.
  split.
  - destruct (proj1 (C7_submitRating_validates (sample_context "u1") 7 "u1" 6
                       [RatingsTable.Row "u1" 7 3]) ltac:(lia))
      as (e & He & Hv & _).
    exists e. split; [exact He |]. apply Hv. reflexivity.
  - apply (proj2 (proj2 (C7_submitRating_validates (sample_context "u1") 7 "u1"
                           5 [RatingsTable.Row "u1" 7 3]))).
    + lia.
    + reflexivity.
    + left. exists (RatingsTable.Row "u1" 7 3).
      split; [apply list_elem_of_here | split; reflexivity].
Defined.

Lemma sum_of_scores_app (l l' : list Rating.t) :
  sum_of_scores (l ++ l') = sum_of_scores l + sum_of_scores l'.
Proof.
  induction l as [| r l IH]; [done |].
  rewrite <- app_comm_cons, !sum_of_scores_cons, IH. lia.
Qed.

Lemma ratings_of_select_split S before (r : RatingsTable.row) after :
  RatingsTable.store_id r = S ->
  ratings_of S (RatingsTable.select_store_id_rating (before ++ r :: after))
  = ratings_of S (RatingsTable.select_store_id_rating before)
    ++ Rating.Build S (RatingsTable.rating r)
    :: ratings_of S (RatingsTable.select_store_id_rating after).
Proof.
  intros <-. unfold ratings_of, RatingsTable.select_store_id_rating.
  rewrite fmap_app, fmap_cons, filter_app, filter_cons_True; done.
Qed.

Lemma ratings_of_select_other S before (r : RatingsTable.row) after :
  RatingsTable.store_id r <> S ->
  ratings_of S (RatingsTable.select_store_id_rating (before ++ r :: after))
  = ratings_of S (RatingsTable.select_store_id_rating (before ++ after)).
Proof.
  intros Hne. unfold ratings_of, RatingsTable.select_store_id_rating.
  rewrite !fmap_app, fmap_cons, !filter_app, filter_cons_False; done.
Qed.

Lemma select_smallint rows :
  checked rows ->
  Forall smallint_score (RatingsTable.select_store_id_rating rows).
Proof.
  unfold checked, RatingsTable.select_store_id_rating. intros H.
  apply Forall_fmap. eapply Forall_impl; [exact H |].
  unfold smallint_score. cbn. intros r Hr. lia.
Qed.

Lemma select_length rows :
  array_length rows -> array_length (RatingsTable.select_store_id_rating rows).
Proof.
  unfold array_length, RatingsTable.select_store_id_rating.
  by rewrite length_fmap.
Qed.

Lemma row_key_absent U S rows :
  (forall old, RatingsTable.Row U S old ∉ rows) ->
  forall s, Forall (λ b, ¬ RatingsTable.same_key b (RatingsTable.Row U S s)) rows.
Proof.
  intros Hno s. apply Forall_forall. intros [u i x] Hin [Hu Hi].
  simpl in Hu, Hi. subst. by apply (Hno x).
Qed.

(** The rows and the aggregates after a second rating by the same user
    for the same store. *)
Lemma rerate_effect rows U S old s before after :
  RatingsTable.unique_key rows ->
  rows = before ++ RatingsTable.Row U S old :: after ->
  let rows' := RatingsTable.on_conflict_update (RatingsTable.Row U S s) rows in
  rows' = before ++ RatingsTable.Row U S s :: after
  /\ (forall i,
        length (ratings_of i (RatingsTable.select_store_id_rating rows'))
        = length (ratings_of i (RatingsTable.select_store_id_rating rows)))
  /\ sum_of_scores (ratings_of S (RatingsTable.select_store_id_rating rows'))
     = sum_of_scores (ratings_of S (RatingsTable.select_store_id_rating rows))
       - old + s.
Proof.
  intros Hu -> rows'.
  assert (Hrows' : rows' = before ++ RatingsTable.Row U S s :: after).
  { unfold rows'. apply on_conflict_update_present; [| done].
    eapply Forall_impl; [exact (unique_key_app_inv _ _ _ Hu) |].
    cbn beta. intros b Hb Hk. apply Hb.
    eapply same_key_trans; [exact Hk | done]. }
  split; [done |]. rewrite Hrows'. split.
  - intros i. destruct (decide (S = i)) as [<- | Hne].
    + rewrite !ratings_of_select_split by done. by rewrite !length_app.
    + by rewrite !ratings_of_select_other by done.
  - rewrite !ratings_of_select_split by done.
    rewrite !sum_of_scores_app, !sum_of_scores_cons. simpl. lia.
Qed.

(** C2: on a table that satisfies its uniqueness constraint, a rating
    with a score in [1,5] that a user submits as their own is stored when
    it can be written: the user has already rated the store, or the store
    and the user's profile exist.  Any other submission is refused and
    leaves the table as it is.  When the user has already rated the
    store, the row is overwritten in place: every store keeps its
    [totalRatings], the store's scores are the former ones with the old
    score replaced by the new one, and its recomputed [averageRating] is
    computed from that sum, in which the old score no longer counts.  When
    the user has not rated the store, one row is added: the store's
    [totalRatings] grows by exactly 1 and no other store's changes. *)
Theorem C2_upsert_on_user_and_store
  (c : RatingsTable.context)
  (rows : list RatingsTable.row) (U : string) (S : Z) (s : Z) :
  RatingsTable.unique_key rows -> 1 <= s <= 5 ->
  (¬ (own_rating c U /\ writable c S U rows) ->
   exists e, submitRating c S U s rows = (Thrown e, rows))
  /\
  (own_rating c U -> writable c S U rows ->
  exists rows',
    submitRating c S U s rows = (Returned (Some (RatingsTable.Row U S s)), rows')
    /\ RatingsTable.unique_key rows'
    /\ (forall old, RatingsTable.Row U S old ∈ rows ->
        (exists before after,
           rows = before ++ RatingsTable.Row U S old :: after
           /\ rows' = before ++ RatingsTable.Row U S s :: after)
        /\ (forall store,
              StoreWithRatings.totalRatings
                (storeWithRatings (RatingsTable.select_store_id_rating rows') store)
              = StoreWithRatings.totalRatings
                  (storeWithRatings (RatingsTable.select_store_id_rating rows) store))
        /\ (checked rows -> array_length rows ->
            forall store, Store.id store = S ->
              let R := ratings_of S (RatingsTable.select_store_id_rating rows) in
              StoreWithRatings.averageRating
                (storeWithRatings (RatingsTable.select_store_id_rating rows') store)
              = JSNumber.toFixed1
                  (JSNumber.div (sum_of_scores R - old + s) (Z.of_nat (length R)))))
    /\ ((forall old, RatingsTable.Row U S old ∉ rows) ->
        rows' = rows ++ [RatingsTable.Row U S s]
        /\ forall store,
             StoreWithRatings.totalRatings
               (storeWithRatings (RatingsTable.select_store_id_rating rows') store)
             = (StoreWithRatings.totalRatings
                  (storeWithRatings (RatingsTable.select_store_id_rating rows) store)
                + if decide (Store.id store = S) then 1 else 0)%nat)).
Proof.
  intros Hu Hs. split.
  { intros Hno.
    destruct (submitRating_cases c S U s rows)
      as [(_ & _ & Hown & Hw) | (e & He & _)]; [by destruct Hno |].
    by exists e. }
  intros Hown Hw.
  exists (RatingsTable.on_conflict_update (RatingsTable.Row U S s) rows).
  split; [by apply submitRating_stored |].
  split; [by apply on_conflict_update_unique |].
  split.
  - intros old Hin.
    apply list_elem_of_split in Hin as (before & after & Hrows).
    destruct (rerate_effect rows U S old s before after Hu Hrows)
      as (Hrows' & Hlen & Hsum).
    split; [by exists before, after |].
    split.
    { intros store. rewrite !totalRatings_storeWithRatings. apply Hlen. }
    intros Hc Harr store Hid R.
    assert (Hc' : checked (RatingsTable.on_conflict_update
                             (RatingsTable.Row U S s) rows)).
    { rewrite Hrows'. unfold checked in *. rewrite Hrows in Hc.
      rewrite Forall_app, Forall_cons in Hc |- *.
      destruct Hc as (? & _ & ?). split; [done |]. split; [simpl; lia | done]. }
    assert (Harr' : array_length (RatingsTable.on_conflict_update
                                    (RatingsTable.Row U S s) rows)).
    { rewrite Hrows'. unfold array_length in *. rewrite Hrows in Harr.
      rewrite length_app in Harr |- *. simpl in *. lia. }
    rewrite storeWithRatings_exact
      by (by apply select_smallint || by apply select_length).
    cbn zeta. rewrite Hid, Hlen, Hsum. fold R.
    assert (HR : length R <> 0%nat).
    { unfold R. rewrite Hrows, ratings_of_select_split by done.
      rewrite length_app. simpl. lia. }
    rewrite decide_False by done. reflexivity.
  - intros Hno.
    pose proof (row_key_absent U S rows Hno s) as Habs.
    rewrite on_conflict_update_absent by done.
    split; [done |]. intros store.
    rewrite !totalRatings_storeWithRatings.
    unfold ratings_of, RatingsTable.select_store_id_rating.
    rewrite fmap_app, filter_app, length_app. f_equal.
    simpl. rewrite filter_cons, filter_nil. simpl.
    destruct (decide (Store.id store = S)) as [-> | Hne].
    + by rewrite decide_True.
    + by rewrite decide_False by congruence.
Qed.

Lemma sample_table_unique : RatingsTable.unique_key sample_table.
Proof.
  unfold sample_table. simpl.
  repeat match goal with
         | |- _ /\ _ => split
         | |- Forall _ _ => constructor
         | |- True => exact I
         | |- ¬ _ => intros [? ?]; simpl in *; congruence
         end.
Qed.

Lemma C2_witness :
  RatingsTable.unique_key sample_table /\ 1 <= 5 <= 5
  /\ own_rating (sample_context "u1") "u1"
  /\ writable (sample_context "u1") 7 "u1" sample_table
  /\ exists rows',
    submitRating (sample_context "u1") 7 "u1" 5 sample_table
    = (Returned (Some (RatingsTable.Row "u1" 7 5)), rows')
    /\ RatingsTable.unique_key rows'
    /\ (forall old, RatingsTable.Row "u1" 7 old ∈ sample_table ->
        (exists before after,
           sample_table = before ++ RatingsTable.Row "u1" 7 old :: after
           /\ rows' = before ++ RatingsTable.Row "u1" 7 5 :: after)
        /\ (forall store,
              StoreWithRatings.totalRatings
                (storeWithRatings (RatingsTable.select_store_id_rating rows') store)
              = StoreWithRatings.totalRatings
                  (storeWithRatings
                     (RatingsTable.select_store_id_rating sample_table) store))
        /\ (checked sample_table -> array_length sample_table ->
            forall store, Store.id store = 7 ->
              let R := ratings_of 7
                         (RatingsTable.select_store_id_rating sample_table) in
              StoreWithRatings.averageRating
                (storeWithRatings (RatingsTable.select_store_id_rating rows') store)
              = JSNumber.toFixed1
                  (JSNumber.div (sum_of_scores R - old + 5) (Z.of_nat (length R)))))
    /\ ((forall old, RatingsTable.Row "u1" 7 old ∉ sample_table) ->
        rows' = sample_table ++ [RatingsTable.Row "u1" 7 5]
        /\ forall store,
             StoreWithRatings.totalRatings
               (storeWithRatings (RatingsTable.select_store_id_rating rows') store)
             = (StoreWithRatings.totalRatings
                  (storeWithRatings
                     (RatingsTable.select_store_id_rating sample_table) store)
                + if decide (Store.id store = 7%Z) then 1 else 0)%nat).
Proof.
  assert (Hown : own_rating (sample_context "u1") "u1") by reflexivity.
  assert (Hw : writable (sample_context "u1") 7 "u1" sample_table).
  { left. exists (RatingsTable.Row "u1" 7 3).
    split; [apply list_elem_of_here | split; reflexivity]. }
  split; [apply sample_table_unique |]. split; [lia |].
  split; [exact Hown |]. split; [exact Hw |].
  apply (proj2 (C2_upsert_on_user_and_store (sample_context "u1") sample_table
                  "u1" 7 5 sample_table_unique ltac:(lia)) Hown Hw).
Defined.

(** Scenario C of the specification: a user rates a store 3 and then 5;
    the table holds the single row with score 5, and the store shows one
    rating with average 5.0. *)
Example scenario_C :
  let '(_, rows1) := submitRating (sample_context "u1") 7 "u1" 3 [] in
  let '(_, rows2) := submitRating (sample_context "u1") 7 "u1" 5 rows1 in
  rows1 = [RatingsTable.Row "u1" 7 3]
  /\ rows2 = [RatingsTable.Row "u1" 7 5]
  /\ (λ out, (StoreWithRatings.averageRating out,
              StoreWithRatings.totalRatings out))
       <$> getAllStoresWithRatings [corner_shop] rows2
     = [(50, 1%nat)].
Proof. vm_compute. done. Qed.

(** *** The operations of [AuthProvider] *)

(** What an operation makes of the completion of its client call. *)
Lemma await_result_Returned call result :
  await_result call = Returned result
  <-> exists response,
        call = Returned response
        /\ ((Auth.error response = None /\ result = succeeded)
            \/ exists err, Auth.error response = Some err
                           /\ result = failed (Auth.message err)).
Proof.
  unfold await_result, result_of. split.
  - destruct call as [response | e]; [| done]. intros [= <-].
    exists response. split; [done |].
    destruct (Auth.error response) as [err |]; [right; by exists err | by left].
  - intros (response & -> & [[-> ->] | (err & -> & ->)]); done.
Qed.

Lemma await_result_Thrown call e :
  await_result call = Thrown e <-> call = Thrown e.
Proof.
  unfold await_result. destruct call as [response | e']; [done |].
  split; by intros [= ->].
Qed.

(** The specification's statement fails: when the call of the client
    rejects, [login] rejects with it. *)
Lemma C9_counterexample : ¬ always_returns_a_result.
Proof.
  intros Hclaim.
  destruct (Hclaim (λ _ _, Thrown (client_failure "Failed to fetch"))
              (λ _, Returned {| Auth.error := None |})
              (λ _ _, None) (λ _ _, None) (λ _, "id-1") (λ _, "now")
              initial_setup) as [Hlogin _].
  destruct (Hlogin "alex@example.org" "Secret#123") as [result Hresult].
  discriminate Hresult.
Qed.

(** C9: sign-in, sign-up, password update and admin user creation return
    a result value exactly when their call of the authentication client
    resolves: [{success: true}] when the answer holds no error and
    [{success: false, error: message}] with the message of the error
    when it holds one, so that an error the service answers with is
    never thrown.  They throw exactly when the call of the client
    rejects, and then with the error it rejected with. *)
Theorem C9_auth_operations_return_results
  (signInWithPassword : string -> string -> Completion Auth.response)
  (updateUser : string -> Completion Auth.response)
  (signUp_rejected : Backend -> Auth.SignUp -> option rejection)
  (signUp_refused : Backend -> Auth.SignUp -> option Auth.AuthError)
  (gen_random_uuid now : Backend -> string) (script : setup_script) :
  let answered (call : Completion Auth.response) (result : AuthResult) :=
    exists response,
      call = Returned response
      /\ ((Auth.error response = None /\ result = succeeded)
          \/ exists err, Auth.error response = Some err
                         /\ result = failed (Auth.message err)) in
  let signUp_of userData role b :=
    (signUp signUp_rejected signUp_refused gen_random_uuid now script
       {| Auth.email := userData !! "email";
          Auth.password := userData !! "password";
          Auth.options_data :=
            object_literal [("name", userData !! "name");
                            ("address", userData !! "address");
                            ("role", role)] |} b).1 in
  (forall email password,
     (forall result,
        login signInWithPassword email password = Returned result
        <-> answered (signInWithPassword email password) result)
     /\ (forall e,
           login signInWithPassword email password = Thrown e
           <-> signInWithPassword email password = Thrown e))
  /\ (forall currentPassword newPassword,
        (forall result,
           updatePassword updateUser currentPassword newPassword
           = Returned result
           <-> answered (updateUser newPassword) result)
        /\ (forall e,
              updatePassword updateUser currentPassword newPassword = Thrown e
              <-> updateUser newPassword = Thrown e))
  /\ (forall (userData : gmap string string) b,
        let operation :=
          (register signUp_rejected signUp_refused gen_random_uuid now script
             userData b).1 in
        (forall result,
           operation = Returned result
           <-> answered (signUp_of userData (Some "user") b) result)
        /\ (forall e,
              operation = Thrown e
              <-> signUp_of userData (Some "user") b = Thrown e))
  /\ (forall (userData : gmap string string) b,
        let operation :=
          (createUser signUp_rejected signUp_refused gen_random_uuid now script
             userData b).1 in
        (forall result,
           operation = Returned result
           <-> answered (signUp_of userData (userData !! "role") b) result)
        /\ (forall e,
              operation = Thrown e
              <-> signUp_of userData (userData !! "role") b = Thrown e)).
Proof.
  intros answered signUp_of. unfold answered, signUp_of.
  split; [| split; [| split]].
  - intros email password. unfold login.
    split; [intros result; apply await_result_Returned
           | intros e; apply await_result_Thrown].
  - intros currentPassword newPassword. unfold updatePassword.
    split; [intros result; apply await_result_Returned
           | intros e; apply await_result_Thrown].
  - intros userData b. cbv zeta. unfold register.
    destruct (signUp _ _ _ _ _ _ b) as [call b']. cbn [fst].
    split; [intros result; apply await_result_Returned
           | intros e; apply await_result_Thrown].
  - intros userData b. cbv zeta. unfold createUser.
    destruct (signUp _ _ _ _ _ _ b) as [call b']. cbn [fst].
    split; [intros result; apply await_result_Returned
           | intros e; apply await_result_Thrown].
Qed.

(** *** Registration *)

Lemma object_literal_role name address role :
  object_literal [("name", name); ("address", address); ("role", role)]
    !! "role" = role.
Proof.
  unfold object_literal. cbn [foldr fst snd].
  destruct name, address, role;
    repeat (rewrite lookup_insert_ne by done);
    rewrite ?lookup_insert_eq, ?lookup_empty; done.
Qed.

Lemma handle_new_user_role script now new rows rows' :
  handle_new_user script now new rows = Some rows' ->
  exists name address role,
    rows' = rows ++ [Profile.Build (AuthUser.id new) name address role
                       (updated_at_default script now)]
    /\ trigger_role script (AuthUser.raw_user_meta_data new) = Some role.
Proof.
  unfold handle_new_user.
  destruct (_ !! "name") as [name |]; [| done].
  destruct (_ !! "address") as [address |]; [| done].
  destruct (trigger_role _ _) as [role |]; [| done].
  destruct (name_column _ _) as [stored_name |]; [| done].
  destruct (address_column _ _) as [stored_address |]; [| done].
  case_match; [| done]. intros [= <-]. eauto.
Qed.

Lemma trigger_role_user script meta :
  meta !! "role" = Some "user" -> trigger_role script meta = Some user.
Proof. unfold trigger_role. by intros ->. Qed.

(** The service handling a sign-up whose metadata carries the role
    [user]: it answers with an error and writes nothing, or it answers
    without error and has created one identity and its profile, with
    role [user]. *)
Lemma signup_request_user signUp_refused gen_random_uuid now script request b :
  Auth.options_data request !! "role" = Some "user" ->
  let '(response, b') :=
    signup_request signUp_refused gen_random_uuid now script request b in
  (Auth.error response <> None /\ b' = b)
  \/ (Auth.error response = None
      /\ exists identity name address,
           users b' = users b ++ [identity]
           /\ profiles b'
              = profiles b
                ++ [Profile.Build (AuthUser.id identity) name address user
                      (updated_at_default script (now b))]).
Proof.
  intros Hrole. unfold signup_request.
  destruct (signUp_refused b request) as [e |]; [by left |].
  destruct (handle_new_user _ _ _ _) as [rows |] eqn:E; [| by left].
  right. split; [done |].
  apply handle_new_user_role in E as (name & address & role & -> & Hr).
  cbn [AuthUser.raw_user_meta_data AuthUser.id] in Hr |- *.
  rewrite (trigger_role_user script) in Hr by done.
  injection Hr as <-. eauto.
Qed.

(** C3: whatever object the caller passes to [register], with or without
    a [role] property of any value, and however the service and its
    client behave, the operation leaves the users and the profiles as
    they were or has created exactly one identity and one profile, with
    role [user].  When the call of the client does not reject, the
    operation returns a result: when it succeeds the identity and the
    profile were created, and when it fails nothing was created. *)
Theorem C3_register_assigns_user
  (signUp_rejected : Backend -> Auth.SignUp -> option rejection)
  (signUp_refused : Backend -> Auth.SignUp -> option Auth.AuthError)
  (gen_random_uuid now : Backend -> string) (script : setup_script)
  (userData : gmap string string) (b : Backend) :
  let created b' :=
    exists identity name address,
      users b' = users b ++ [identity]
      /\ profiles b'
         = profiles b
           ++ [Profile.Build (AuthUser.id identity) name address user
                 (updated_at_default script (now b))] in
  exists completion b',
    register signUp_rejected signUp_refused gen_random_uuid now script
      userData b = (completion, b')
    /\ (b' = b \/ created b')
    /\ ((forall request, signUp_rejected b request = None) ->
        exists res,
          completion = Returned res
          /\ if success res then created b' else b' = b).
Proof.
  intros created. unfold register, signUp.
  match goal with
  | |- context [signUp_rejected b ?r] => set (request := r)
  end.
  pose proof (signup_request_user signUp_refused gen_random_uuid now script
                request b ltac:(apply object_literal_role)) as Heffect.
  destruct (signUp_rejected b request) as [[e | e] |] eqn:Hrej.
  - eexists _, _. split; [reflexivity |]. split; [by left |].
    intros Hnever. by rewrite Hnever in Hrej.
  - destruct (signup_request _ _ _ _ request b) as [response b'].
    eexists _, _. split; [reflexivity |]. cbn [snd]. split.
    + destruct Heffect as [[_ ->] | [_ Hc]]; [by left | by right].
    + intros Hnever. by rewrite Hnever in Hrej.
  - destruct (signup_request _ _ _ _ request b) as [response b'].
    eexists _, _. split; [reflexivity |]. split.
    + destruct Heffect as [[_ ->] | [_ Hc]]; [by left | by right].
    + intros _. eexists. split; [reflexivity |].
      unfold result_of.
      destruct Heffect as [[Herr ->] | [-> Hc]]; [| done].
      by destruct (Auth.error response).
Qed.

(** Scenario D of the specification: the caller's [role: 'admin'] is not
    passed on, and the profile is created with role [user]. *)
Example scenario_D :
  register (λ _ _, None) (λ _ _, None) (λ _, "id-1")
    (λ _, "2025-01-03T00:00:00Z") revised_setup sample_userData empty_backend
  = (Returned succeeded,
     {| users :=
          [AuthUser.Build "id-1" (Some "alex@example.org")
             (object_literal [("name", Some "Alexandra Maria Johnson");
                              ("address", Some "3 Main Street");
                              ("role", Some "user")])];
        profiles :=
          [Profile.Build "id-1" "Alexandra Maria Johnson" "3 Main Street" user
             None] |}).
Proof. vm_compute. reflexivity. Qed.

(** The admin path passes the given role on, and the trigger trusts it. *)
Example createUser_passes_role :
  profiles
    (createUser (λ _ _, None) (λ _ _, None) (λ _, "id-1")
       (λ _, "2025-01-03T00:00:00Z") revised_setup sample_userData
       empty_backend).2
  = [Profile.Build "id-1" "Alexandra Maria Johnson" "3 Main Street" admin
       None].
Proof. vm_compute. reflexivity. Qed.

(** *** The session handler *)

Lemma AppRouter_loading matchPath s pathname :
  AuthContext.loading s = true ->
  AppRouter matchPath s pathname = Some LoadingSpinner.
Proof. unfold AppRouter. by intros ->. Qed.

Lemma Routes_anonymous matchPath pathname :
  (forall p, matchPath "*" p = true) ->
  Routes matchPath (routes None) pathname
  = Some (if matchPath "/login" pathname then LoginPage
          else if matchPath "/register" pathname then RegisterPage
          else Navigate "/login").
Proof.
  intros Hsplat. unfold Routes, routes. cbn [List.find fst snd].
  destruct (matchPath "/login" pathname); [done |].
  destruct (matchPath "/register" pathname); [done |].
  by rewrite Hsplat.
Qed.

Lemma Routes_anonymous_no_dashboard matchPath pathname r :
  Routes matchPath (routes None) pathname <> Some (dashboard r).
Proof.
  unfold Routes, routes. cbn [List.find fst snd].
  repeat case_match; destruct r; done.
Qed.

(** The handler's run when the profile fetch yields no profile. *)
Lemma onAuthStateChange_no_profile rows session_user s :
  (forall p, getProfile rows (session_user !! "id") <> Returned (Some p)) ->
  onAuthStateChange rows (Some session_user) s
  = [AuthContext.State (AuthContext.user s) true (Some session_user);
     AuthContext.State (AuthContext.user s) true None;
     AuthContext.State None false None].
Proof.
  intros Hno. unfold onAuthStateChange.
  destruct (getProfile rows (session_user !! "id")) as [[p |] |] eqn:E;
    [by destruct (Hno p) | done..].
Qed.

(** C5: when an auth event carries an identity and the profile fetch for
    it yields no profile (no row, or a failed fetch), the handler signs
    the client out and completes with an empty session user and no
    session; no state it passes through renders a dashboard. *)
Theorem C5_missing_profile_forces_sign_out
  (rows : list Profile.t) (session_user : gmap string string)
  (s : AuthContext.state) :
  (forall p, getProfile rows (session_user !! "id") <> Returned (Some p)) ->
  let trace := onAuthStateChange rows (Some session_user) s in
  last trace = Some (AuthContext.State None false None)
  /\ (exists s', s' ∈ trace /\ AuthContext.session s' = None
                 /\ AuthContext.loading s' = true)
  /\ forall s', s' ∈ trace ->
       forall matchPath pathname r,
         AppRouter matchPath s' pathname <> Some (dashboard r).
Proof.
  intros Hno trace. unfold trace.
  rewrite onAuthStateChange_no_profile by done.
  split; [done |]. split.
  - eexists. split; [apply list_elem_of_further, list_elem_of_here | done].
  - intros s' Hs' matchPath pathname r.
    rewrite !elem_of_cons, elem_of_nil in Hs'.
    destruct Hs' as [-> | [-> | [-> | []]]].
    + rewrite AppRouter_loading by done. by destruct r.
    + rewrite AppRouter_loading by done. by destruct r.
    + unfold AppRouter. cbn [AuthContext.loading AuthContext.user].
      apply Routes_anonymous_no_dashboard.
Qed.

(** With no row for the identity, [single()] makes [getProfile] throw. *)
Lemma getProfile_no_row (rows : list Profile.t) userId :
  (forall p, p ∈ rows -> Some (Profile.id p) <> userId) ->
  getProfile rows userId = Thrown no_single_row.
Proof.
  intros Hno. unfold getProfile.
  assert (E : filter (λ p, Some (Profile.id p) = userId) rows = []).
  { induction rows as [| p rows IH]; [done |].
    rewrite filter_cons_False by (apply Hno; left).
    apply IH. intros q Hq. apply Hno. by right. }
  by rewrite E.
Qed.

Lemma C5_witness :
  (forall p, getProfile [] (sample_session_user !! "id") <> Returned (Some p))
  /\ let trace :=
       onAuthStateChange [] (Some sample_session_user) (initial_state None) in
     last trace = Some (AuthContext.State None false None)
     /\ (exists s', s' ∈ trace /\ AuthContext.session s' = None
                    /\ AuthContext.loading s' = true)
     /\ forall s', s' ∈ trace ->
          forall matchPath pathname r,
            AppRouter matchPath s' pathname <> Some (dashboard r).
Proof.
  assert (H : forall p,
             getProfile [] (sample_session_user !! "id") <> Returned (Some p))
    by (intros p; vm_compute; discriminate).
  split; [exact H |].
  apply (C5_missing_profile_forces_sign_out [] sample_session_user
           (initial_state None) H).
Defined.

Lemma getProfile_sample :
  getProfile [sample_profile] (sample_session_user !! "id")
  = Returned (Some sample_profile).
Proof. vm_compute. reflexivity. Qed.

(** C8, as the specification states it, fails: after the first handler
    has completed in the admin state, a further event carrying the same
    identity sets [loading] again while the profile is fetched. *)
Lemma C8_counterexample : ¬ never_reenters_loading.
Proof.
  intros Hnever.
  pose (s0 := AuthContext.State
                (Some (Profile.to_object sample_profile ∪ sample_session_user))
                false (Some sample_session_user)).
  assert (Hreach : reachable s0).
  { apply (reachable_event [sample_profile] (Some sample_session_user)
             (initial_state None)); [constructor |].
    unfold onAuthStateChange. rewrite getProfile_sample.
    apply list_elem_of_further, list_elem_of_here. }
  specialize (Hnever [sample_profile] (Some sample_session_user) s0
                (AuthContext.State (AuthContext.user s0) true
                   (Some sample_session_user))
                Hreach eq_refl).
  assert (Hin : AuthContext.State (AuthContext.user s0) true
                  (Some sample_session_user)
                ∈ onAuthStateChange [sample_profile] (Some sample_session_user) s0).
  { unfold onAuthStateChange. rewrite getProfile_sample.
    apply list_elem_of_here. }
  specialize (Hnever Hin). discriminate Hnever.
Qed.

(** The run of the handler on one event: the states that show the
    loading state, then the state it completes with. *)
Lemma onAuthStateChange_trace
  (rows : list Profile.t) (session : option (gmap string string))
  (s : AuthContext.state) :
  exists pending final,
    onAuthStateChange rows session s = pending ++ [final]
    /\ Forall (λ s', AuthContext.loading s' = true
                     /\ AuthContext.user s' = AuthContext.user s) pending
    /\ AuthContext.loading final = false
    /\ (session = None -> pending = [] /\ AuthContext.user final = None)
    /\ (is_Some session -> pending <> [])
    /\ (AuthContext.user final = None
        \/ exists profile session_user,
             session = Some session_user
             /\ profile ∈ rows
             /\ AuthContext.user final
                = Some (Profile.to_object profile ∪ session_user)).
Proof.
  unfold onAuthStateChange.
  destruct session as [session_user |].
  - destruct (getProfile rows (session_user !! "id")) as [[p |] |] eqn:E.
    + eexists [_], _. split; [reflexivity |].
      split; [by repeat constructor |]. split; [done |].
      split; [done |]. split; [done |]. right. exists p, session_user.
      split; [done |]. split; [| done].
      unfold getProfile, throw_or_data, single in E.
      destruct (filter _ rows) as [| q [| q' l]] eqn:F; try done.
      cbn in E. injection E as ->.
      assert (Hq : p ∈ filter (λ p, Some (Profile.id p) = session_user !! "id") rows)
        by (rewrite F; left).
      by apply list_elem_of_filter in Hq as [_ Hq].
    + eexists [_; _], _. split; [reflexivity |].
      split; [by repeat constructor |]. split; [done |].
      split; [done |]. split; [done |]. by left.
    + eexists [_; _], _. split; [reflexivity |].
      split; [by repeat constructor |]. split; [done |].
      split; [done |]. split; [done |]. by left.
  - exists [], (AuthContext.State None false None).
    split; [done |]. split; [constructor |]. split; [done |].
    split; [done |]. split; [by intros [? [=]] | by left].
Qed.

(** *** The router *)

Lemma to_object_role p :
  Profile.to_object p !! "role" = Some (role_label (Profile.role p)).
Proof.
  unfold Profile.to_object.
  destruct (Profile.updated_at p);
    rewrite !lookup_insert_ne by done; apply lookup_singleton_eq.
Qed.

Lemma merged_role p (session_user : gmap string string) :
  (Profile.to_object p ∪ session_user) !! "role"
  = Some (role_label (Profile.role p)).
Proof. apply lookup_union_Some_l, to_object_role. Qed.

Lemma reachable_merged s : reachable s -> session_user_merged s.
Proof.
  induction 1 as [session | rows session s s' _ IH Hin | s s' _ IH Hin].
  - exact I.
  - destruct (onAuthStateChange_trace rows session s)
      as (pending & final & Htrace & Hpending & _ & _ & _ & Hfinal).
    rewrite Htrace, elem_of_app, list_elem_of_singleton in Hin.
    destruct Hin as [Hin | ->].
    + rewrite Forall_forall in Hpending.
      destruct (Hpending s' Hin) as [_ Hu].
      unfold session_user_merged in *. by rewrite Hu.
    + unfold session_user_merged.
      destruct Hfinal as [-> | (p & su & _ & _ & ->)]; [done | eauto].
  - unfold logout in Hin. rewrite !elem_of_cons, elem_of_nil in Hin.
    destruct Hin as [-> | [-> | []]]; [exact IH | exact I].
Qed.

(** Replaces each closed [bool_decide] of the goal by its value. *)
Ltac eval_bool_decide :=
  repeat match goal with
         | |- context [bool_decide ?P] =>
             let b := eval vm_compute in (bool_decide P) in
             change (bool_decide P) with b
         end.

Lemma getDashboardPath_label r :
  getDashboardPath (Some (role_label r)) = dashboard_path r.
Proof. by destruct r. Qed.

Lemma Routes_role matchPath (u : gmap string string) r pathname :
  (forall p, matchPath "*" p = true) ->
  u !! "role" = Some (role_label r) ->
  Routes matchPath (routes (Some u)) pathname
  = Some (if matchPath (dashboard_path r) pathname then dashboard r
          else Navigate (dashboard_path r)).
Proof.
  intros Hsplat Hrole. unfold Routes, routes. rewrite Hrole.
  rewrite getDashboardPath_label.
  destruct r; cbn [role_label dashboard dashboard_path];
    eval_bool_decide; cbn;
    destruct (matchPath _ pathname); cbn; try done;
    destruct (matchPath "/" pathname); cbn; try done;
    by rewrite Hsplat.
Qed.

Lemma dashboard_inj r r' : dashboard r = dashboard r' -> r = r'.
Proof. by destruct r, r'. Qed.

(** The row [getProfile] returns is the row of the table with the
    identifier it was asked for. *)
Lemma getProfile_Returned rows userId profile :
  getProfile rows userId = Returned (Some profile) ->
  profile ∈ rows /\ Some (Profile.id profile) = userId.
Proof.
  unfold getProfile, throw_or_data, single. intros E.
  destruct (filter _ rows) as [| q [| q' l]] eqn:F; try done.
  cbn in E. injection E as ->.
  assert (Hq : profile ∈ filter (λ p, Some (Profile.id p) = userId) rows)
    by (rewrite F; left).
  by apply list_elem_of_filter in Hq as [? ?].
Qed.

(** C8 as amended: an auth event without identity takes the context to
    the anonymous state directly, without a state that shows the loading
    state.  An auth event that carries an identity first shows the
    loading state, in which the router renders the spinner on every
    path and the former session user is still held, while the profile of
    the identity is fetched.  When the fetch returns the profile row of
    the identity, the handler completes outside the loading state, in
    the role state of that profile: the session user is the profile
    merged into the identity and the router renders the dashboard of the
    profile's role or redirects to it.  When there is no such row, or the
    fetch fails, the handler signs out while the loading state is still
    shown and completes in the anonymous state, without session. *)
Theorem C8_loading_on_each_event
  (matchPath : string -> string -> bool)
  (rows : list Profile.t) (session : option (gmap string string))
  (s : AuthContext.state) :
  (forall p, matchPath "*" p = true) ->
  match session with
  | None =>
      onAuthStateChange rows session s = [AuthContext.State None false None]
  | Some session_user =>
      exists pending final,
        onAuthStateChange rows session s = pending ++ [final]
        /\ pending <> []
        /\ Forall (λ s', AuthContext.loading s' = true
                         /\ AuthContext.user s' = AuthContext.user s
                         /\ forall pathname,
                              AppRouter matchPath s' pathname
                              = Some LoadingSpinner) pending
        /\ AuthContext.loading final = false
        /\ match getProfile rows (session_user !! "id") with
           | Returned (Some profile) =>
               profile ∈ rows
               /\ Some (Profile.id profile) = session_user !! "id"
               /\ Forall (λ s', AuthContext.session s' = Some session_user)
                    pending
               /\ final
                  = AuthContext.State
                      (Some (Profile.to_object profile ∪ session_user))
                      false (Some session_user)
               /\ forall pathname,
                    AppRouter matchPath final pathname
                    = Some (if matchPath (dashboard_path (Profile.role profile))
                                 pathname
                            then dashboard (Profile.role profile)
                            else Navigate
                                   (dashboard_path (Profile.role profile)))
           | _ =>
               (exists s', s' ∈ pending /\ AuthContext.session s' = None)
               /\ final = AuthContext.State None false None
           end
  end.
Proof.
  intros Hsplat. unfold onAuthStateChange.
  destruct session as [session_user |]; [| done].
  destruct (getProfile rows (session_user !! "id")) as [[p |] | e] eqn:E.
  - apply getProfile_Returned in E as [Hin Hid].
    eexists [_], _. split; [reflexivity |]. split; [done |].
    split; [by repeat constructor |]. split; [done |].
    split; [done |]. split; [done |]. split; [by repeat constructor |].
    split; [done |]. intros pathname. unfold AppRouter.
    cbn [setLoading setUser AuthContext.loading AuthContext.user].
    apply Routes_role; [done | apply merged_role].
  - eexists [_; _], _. split; [reflexivity |]. split; [done |].
    split; [by repeat constructor |]. split; [done |]. split; [| done].
    eexists. split; [apply list_elem_of_further, list_elem_of_here | done].
  - eexists [_; _], _. split; [reflexivity |]. split; [done |].
    split; [by repeat constructor |]. split; [done |]. split; [| done].
    eexists. split; [apply list_elem_of_further, list_elem_of_here | done].
Qed.

Lemma C8_witness :
  (forall p, literal_match "*" p = true)
  /\ exists pending final,
       onAuthStateChange [sample_profile] (Some sample_session_user)
         sample_admin_state
       = pending ++ [final]
       /\ pending <> []
       /\ AuthContext.loading final = false
       /\ final = sample_admin_state.
Proof.
  assert (Hsplat : forall p, literal_match "*" p = true) by done.
  split; [exact Hsplat |].
  pose proof (C8_loading_on_each_event literal_match [sample_profile]
                (Some sample_session_user) sample_admin_state Hsplat)
    as (pending & final & Htrace & Hpending & _ & Hfinal & Hprofile).
  rewrite getProfile_sample in Hprofile.
  destruct Hprofile as (_ & _ & _ & Hstate & _).
  by exists pending, final.
Defined.

(** C4: in every reachable state, the router renders the loading
    spinner while [loading] is set; for an anonymous session it renders
    the sign-in or the registration view on their paths and redirects
    every other path to sign-in; for a session user it renders the
    dashboard of the profile's role on that dashboard's path and
    redirects every other path to it.  Hence a dashboard is rendered only
    to a session user whose profile role is the role of that dashboard. *)
Theorem C4_role_routing
  (matchPath : string -> string -> bool) (s : AuthContext.state)
  (pathname : string) :
  (forall p, matchPath "*" p = true) -> reachable s ->
  let view := AppRouter matchPath s pathname in
  (if AuthContext.loading s then view = Some LoadingSpinner
   else match AuthContext.user s with
        | None =>
            view = Some (if matchPath "/login" pathname then LoginPage
                         else if matchPath "/register" pathname then RegisterPage
                         else Navigate "/login")
        | Some u =>
            exists r,
              u !! "role" = Some (role_label r)
              /\ view = Some (if matchPath (dashboard_path r) pathname
                              then dashboard r
                              else Navigate (dashboard_path r))
        end)
  /\ forall r',
       view = Some (dashboard r') ->
       AuthContext.loading s = false
       /\ exists u, AuthContext.user s = Some u
                    /\ u !! "role" = Some (role_label r').
Proof.
  intros Hsplat Hreach view.
  assert (Hview :
    if AuthContext.loading s then view = Some LoadingSpinner
    else match AuthContext.user s with
         | None =>
             view = Some (if matchPath "/login" pathname then LoginPage
                          else if matchPath "/register" pathname then RegisterPage
                          else Navigate "/login")
         | Some u =>
             exists r,
               u !! "role" = Some (role_label r)
               /\ view = Some (if matchPath (dashboard_path r) pathname
                               then dashboard r
                               else Navigate (dashboard_path r))
         end).
  { unfold view, AppRouter.
    destruct (AuthContext.loading s); [done |].
    pose proof (reachable_merged s Hreach) as Hm.
    unfold session_user_merged in Hm.
    destruct (AuthContext.user s) as [u |].
    - destruct Hm as (p & su & ->). exists (Profile.role p).
      split; [apply merged_role |].
      apply Routes_role; [done | apply merged_role].
    - by apply Routes_anonymous. }
  split; [exact Hview |].
  intros r' Hr'.
  destruct (AuthContext.loading s).
  { rewrite Hview in Hr'. by destruct r'. }
  split; [done |].
  destruct (AuthContext.user s) as [u |].
  - destruct Hview as (r & Hrole & Hv). exists u. split; [done |].
    rewrite Hv in Hr'.
    destruct (matchPath (dashboard_path r) pathname).
    + injection Hr' as Hr'. by apply dashboard_inj in Hr' as ->.
    + by destruct r'.
  - rewrite Hview in Hr'. repeat case_match; by destruct r'.
Qed.

Lemma sample_admin_state_reachable : reachable sample_admin_state.
Proof.
  apply (reachable_event [sample_profile] (Some sample_session_user)
           (initial_state None)); [constructor |].
  unfold onAuthStateChange. rewrite getProfile_sample.
  apply list_elem_of_further, list_elem_of_here.
Qed.

Lemma literal_match_splat p : literal_match "*" p = true.
Proof. reflexivity. Qed.

Lemma C4_witness :
  (forall p, literal_match "*" p = true) /\ reachable sample_admin_state
  /\ let view := AppRouter literal_match sample_admin_state "/user" in
     (if AuthContext.loading sample_admin_state then view = Some LoadingSpinner
      else match AuthContext.user sample_admin_state with
           | None =>
               view = Some (if literal_match "/login" "/user" then LoginPage
                            else if literal_match "/register" "/user"
                                 then RegisterPage
                                 else Navigate "/login")
           | Some u =>
               exists r,
                 u !! "role" = Some (role_label r)
                 /\ view = Some (if literal_match (dashboard_path r) "/user"
                                 then dashboard r
                                 else Navigate (dashboard_path r))
           end)
     /\ forall r',
          view = Some (dashboard r') ->
          AuthContext.loading sample_admin_state = false
          /\ exists u, AuthContext.user sample_admin_state = Some u
                       /\ u !! "role" = Some (role_label r').
Proof.
  split; [exact literal_match_splat |].
  split; [exact sample_admin_state_reachable |].
  apply (C4_role_routing literal_match sample_admin_state "/user"
           literal_match_splat sample_admin_state_reachable).
Defined.

(** An admin who requests the user dashboard is sent to the admin
    dashboard, and the admin dashboard is rendered there. *)
Example admin_requests_user_dashboard :
  AppRouter literal_match sample_admin_state "/user" = Some (Navigate "/admin")
  /\ AppRouter literal_match sample_admin_state "/admin" = Some AdminDashboard
  /\ AppRouter literal_match (initial_state None) "/admin" = Some LoadingSpinner
  /\ AppRouter literal_match (AuthContext.State None false None) "/admin"
     = Some (Navigate "/login").
Proof. vm_compute. done. Qed.

(** ** Further properties of the data-access functions *)

Lemma ratings_of_filter_in (ids : list Z) i (l : list Rating.t) :
  i ∈ ids ->
  ratings_of i (filter (λ r, Rating.store_id r ∈ ids) l) = ratings_of i l.
Proof.
  intros Hi. unfold ratings_of. rewrite list_filter_filter.
  apply list_filter_iff. intros r. split; [by intros [? _] |].
  intros ->. done.
Qed.

Lemma select_filter_in (ids : list Z) (rows : list RatingsTable.row) :
  RatingsTable.select_store_id_rating
    (filter (λ r, RatingsTable.store_id r ∈ ids) rows)
  = filter (λ r, Rating.store_id r ∈ ids)
      (RatingsTable.select_store_id_rating rows).
Proof.
  unfold RatingsTable.select_store_id_rating.
  induction rows as [| r rows IH]; [done |].
  rewrite fmap_cons, !filter_cons. cbn [Rating.store_id].
  case_decide; by rewrite ?fmap_cons, IH.
Qed.

Lemma storeWithRatings_ext ratings ratings' store :
  ratings_of (Store.id store) ratings' = ratings_of (Store.id store) ratings ->
  storeWithRatings ratings' store = storeWithRatings ratings store.
Proof.
  intros E. unfold storeWithRatings.
  fold (ratings_of (Store.id store) ratings').
  fold (ratings_of (Store.id store) ratings). by rewrite E.
Qed.

(** X1: the owner's view shows the owner's stores with the same records
    as the view of all stores: restricting the ratings to the owner's
    store ids changes no aggregate. *)
Theorem getStoresByOwner_is_filtered_view
  (ownerId : string) (stores : list Store.t) (ratings : list RatingsTable.row) :
  getStoresByOwner ownerId stores ratings
  = filter (λ out, StoreWithRatings.owner_id out = Some ownerId)
      (getAllStoresWithRatings stores ratings).
Proof.
  unfold getStoresByOwner, getAllStoresWithRatings, calculateStoreRatings.
  set (owned := filter (λ s, Store.owner_id s = Some ownerId) stores).
  rewrite select_filter_in.
  set (all := RatingsTable.select_store_id_rating ratings).
  transitivity (storeWithRatings all <$> owned).
  - apply list_fmap_ext. intros i store Hstore.
    apply storeWithRatings_ext, ratings_of_filter_in.
    apply list_elem_of_fmap. exists store. split; [done |].
    by apply list_elem_of_lookup_2 in Hstore.
  - unfold owned. clear owned.
    induction stores as [| s stores IH]; [done |].
    rewrite fmap_cons, !filter_cons.
    destruct (storeWithRatings_frame all s) as (_ & _ & _ & _ & Ho & _).
    rewrite Ho. case_decide; by rewrite ?fmap_cons, IH.
Qed.

(** *** Reading a user's rating back *)

Lemma unique_key_app_after before r after :
  RatingsTable.unique_key (before ++ r :: after) ->
  Forall (λ a, ¬ RatingsTable.same_key a r) after.
Proof.
  induction before as [| b before IH]; cbn [app RatingsTable.unique_key].
  - by intros [? _].
  - intros [_ ?]. by apply IH.
Qed.

Lemma filter_key_absent U S (rows : list RatingsTable.row) x :
  Forall (λ r, ¬ RatingsTable.same_key r (RatingsTable.Row U S x)) rows ->
  filter (λ r, RatingsTable.store_id r = S ∧ RatingsTable.user_id r = U) rows
  = [].
Proof.
  induction 1 as [| r rows Hr _ IH]; [done |].
  rewrite filter_cons_False; [done |].
  intros [HS HU]. apply Hr. by split.
Qed.

Lemma key_absent_any U S (rows : list RatingsTable.row) x y :
  Forall (λ r, ¬ RatingsTable.same_key r (RatingsTable.Row U S x)) rows ->
  Forall (λ r, ¬ RatingsTable.same_key r (RatingsTable.Row U S y)) rows.
Proof. intros H. eapply Forall_impl; [exact H |]. intros r Hr. exact Hr. Qed.

(** The rows of a table around the row of a key, when the key is held. *)
Lemma table_split_on_key U S (rows : list RatingsTable.row) :
  RatingsTable.unique_key rows ->
  Forall (λ r, ¬ RatingsTable.same_key r (RatingsTable.Row U S 0)) rows
  \/ exists before x after,
       rows = before ++ RatingsTable.Row U S x :: after
       /\ Forall (λ r, ¬ RatingsTable.same_key r (RatingsTable.Row U S 0)) before
       /\ Forall (λ r, ¬ RatingsTable.same_key r (RatingsTable.Row U S 0)) after.
Proof.
  intros Hu.
  destruct (on_conflict_update_keys (RatingsTable.Row U S 0) rows)
    as [Hall | (before & [u i x] & after & -> & Hb & [Hku Hki])]; [by left |].
  right. cbn in Hku, Hki. subst u i. exists before, x, after.
  split; [done |]. split; [done |].
  eapply Forall_impl; [exact (unique_key_app_after _ _ _ Hu) |].
  cbn beta. intros a Ha Hk. apply Ha. exact Hk.
Qed.

Lemma getUserRating_split U S before x after :
  Forall (λ r, ¬ RatingsTable.same_key r (RatingsTable.Row U S 0)) before ->
  Forall (λ r, ¬ RatingsTable.same_key r (RatingsTable.Row U S 0)) after ->
  getUserRating S U (before ++ RatingsTable.Row U S x :: after)
  = Returned (Some x).
Proof.
  intros Hb Ha. unfold getUserRating.
  rewrite filter_app, filter_cons_True by done.
  by rewrite (filter_key_absent U S before 0), (filter_key_absent U S after 0).
Qed.

Lemma getUserRating_absent U S (rows : list RatingsTable.row) :
  Forall (λ r, ¬ RatingsTable.same_key r (RatingsTable.Row U S 0)) rows ->
  getUserRating S U rows = Returned None.
Proof.
  intros Hall. unfold getUserRating.
  by rewrite (filter_key_absent U S rows 0).
Qed.

Lemma getUserRating_lookup_aux U S (rows : list RatingsTable.row) :
  RatingsTable.unique_key rows ->
  (exists x,
     RatingsTable.Row U S x ∈ rows
     /\ getUserRating S U rows = Returned (Some x))
  \/ ((forall x, RatingsTable.Row U S x ∉ rows)
      /\ getUserRating S U rows = Returned None).
Proof.
  intros Hu.
  destruct (table_split_on_key U S rows Hu)
    as [Hall | (before & x & after & -> & Hb & Ha)].
  - right. split; [| by apply getUserRating_absent].
    intros x Hin. rewrite Forall_forall in Hall.
    by apply (Hall _ Hin).
  - left. exists x. split; [| by apply getUserRating_split].
    rewrite elem_of_app. right. left.
Qed.

(** X2: on a table that satisfies its uniqueness constraint,
    [getUserRating] never throws: it returns the score of the user's row
    for the store when there is one, and no data when there is none. *)
Theorem getUserRating_lookup
  (storeId : Z) (userId : string) (rows : list RatingsTable.row) :
  RatingsTable.unique_key rows ->
  (exists x,
     RatingsTable.Row userId storeId x ∈ rows
     /\ getUserRating storeId userId rows = Returned (Some x))
  \/ ((forall x, RatingsTable.Row userId storeId x ∉ rows)
      /\ getUserRating storeId userId rows = Returned None).
Proof. apply getUserRating_lookup_aux. Qed.

Lemma getUserRating_lookup_witness :
  RatingsTable.unique_key sample_table
  /\ ((exists x,
         RatingsTable.Row "u2" 7 x ∈ sample_table
         /\ getUserRating 7 "u2" sample_table = Returned (Some x))
      \/ ((forall x, RatingsTable.Row "u2" 7 x ∉ sample_table)
          /\ getUserRating 7 "u2" sample_table = Returned None)).
Proof.
  split; [apply sample_table_unique |].
  apply (getUserRating_lookup 7 "u2" sample_table sample_table_unique).
Defined.

Lemma getUserRating_stored storeId userId score rows :
  RatingsTable.unique_key rows ->
  getUserRating storeId userId
    (RatingsTable.on_conflict_update
       (RatingsTable.Row userId storeId score) rows)
  = Returned (Some score).
Proof.
  intros Hu.
  destruct (table_split_on_key userId storeId rows Hu)
    as [Hall | (before & x & after & -> & Hb & Ha)].
  - rewrite on_conflict_update_absent by (by eapply key_absent_any).
    replace (rows ++ [RatingsTable.Row userId storeId score])
      with (rows ++ RatingsTable.Row userId storeId score :: []) by done.
    by apply getUserRating_split.
  - rewrite on_conflict_update_present;
      [| by eapply key_absent_any | done].
    by apply getUserRating_split.
Qed.

(** X3: a rating that [submitRating] has stored is the one
    [getUserRating] reads back for that user and store, and a rating
    that it has refused leaves what is read back as it was.  A rating of
    one's own with a score in [1,5] that can be written is stored, and
    so read back. *)
Theorem getUserRating_after_submitRating
  (c : RatingsTable.context)
  (storeId : Z) (userId : string) (score : Z) (rows : list RatingsTable.row) :
  RatingsTable.unique_key rows ->
  (forall r rows',
     submitRating c storeId userId score rows = (Returned r, rows') ->
     getUserRating storeId userId rows' = Returned (Some score))
  /\ (forall e rows',
        submitRating c storeId userId score rows = (Thrown e, rows') ->
        getUserRating storeId userId rows' = getUserRating storeId userId rows)
  /\ (1 <= score <= 5 -> own_rating c userId ->
      writable c storeId userId rows ->
      getUserRating storeId userId
        (submitRating c storeId userId score rows).2
      = Returned (Some score)).
Proof.
  intros Hu. split; [| split].
  - intros r rows' Hret.
    destruct (submitRating_cases c storeId userId score rows)
      as [(Heq & _) | (e & He & _)]; [| congruence].
    rewrite Heq in Hret. injection Hret as _ <-.
    by apply getUserRating_stored.
  - intros e rows' Hthrown.
    destruct (submitRating_cases c storeId userId score rows)
      as [(Heq & _) | (e' & He & _)]; [congruence |].
    rewrite He in Hthrown. by injection Hthrown as _ <-.
  - intros Hs Hown Hw. rewrite submitRating_stored by done. cbn [snd].
    by apply getUserRating_stored.
Qed.

Lemma getUserRating_after_submitRating_witness :
  RatingsTable.unique_key sample_table /\ 1 <= 5 <= 5
  /\ own_rating (sample_context "u1") "u1"
  /\ writable (sample_context "u1") 7 "u1" sample_table
  /\ getUserRating 7 "u1"
       (submitRating (sample_context "u1") 7 "u1" 5 sample_table).2
     = Returned (Some 5).
Proof.
  assert (Hown : own_rating (sample_context "u1") "u1") by reflexivity.
  assert (Hw : writable (sample_context "u1") 7 "u1" sample_table).
  { right. split; [apply list_elem_of_here |]. apply list_elem_of_here. }
  split; [apply sample_table_unique |]. split; [lia |].
  split; [exact Hown |]. split; [exact Hw |].
  apply (proj2 (proj2 (getUserRating_after_submitRating (sample_context "u1")
                         7 "u1" 5 sample_table sample_table_unique))).
  - lia.
  - exact Hown.
  - exact Hw.
Defined.

Lemma filter_on_conflict_update (P : RatingsTable.row -> Prop)
  `{!∀ r, Decision (P r)} new rows :
  (forall r, RatingsTable.same_key r new -> ¬ P r) -> ¬ P new ->
  filter P (RatingsTable.on_conflict_update new rows) = filter P rows.
Proof.
  intros Hkey Hnew.
  induction rows as [| r rows IH]; cbn [RatingsTable.on_conflict_update].
  - by rewrite filter_cons_False.
  - case_decide as Hk.
    + rewrite filter_cons_False by done.
      by rewrite filter_cons_False by (by apply Hkey).
    + by rewrite !filter_cons, IH.
Qed.

Lemma submitRating_table c storeId userId score rows :
  (submitRating c storeId userId score rows).2 = rows
  \/ ((submitRating c storeId userId score rows).2
      = RatingsTable.on_conflict_update
          (RatingsTable.Row userId storeId score) rows
      /\ 1 <= score <= 5).
Proof.
  destruct (submitRating_cases c storeId userId score rows)
    as [(-> & Hs & _) | (e & -> & _)]; [by right | by left].
Qed.

(** X4: what a user has rated for other stores, and what other users
    have rated, is read back unchanged after any [submitRating]. *)
Theorem getUserRating_other_key
  (c : RatingsTable.context)
  (storeId storeId' : Z) (userId userId' : string) (score : Z)
  (rows : list RatingsTable.row) :
  (storeId', userId') <> (storeId, userId) ->
  getUserRating storeId' userId' (submitRating c storeId userId score rows).2
  = getUserRating storeId' userId' rows.
Proof.
  intros Hne.
  destruct (submitRating_table c storeId userId score rows) as [-> | [-> _]];
    [done |].
  unfold getUserRating. rewrite filter_on_conflict_update; [done | |].
  - intros r [Hu Hs] [Hs' Hu']. cbn in Hu, Hs. congruence.
  - cbn. intros [? ?]. congruence.
Qed.

Lemma getUserRating_other_key_witness :
  (7, "u2") <> (7, "u1")
  /\ getUserRating 7 "u2"
       (submitRating (sample_context "u1") 7 "u1" 5 sample_table).2
     = getUserRating 7 "u2" sample_table.
Proof.
  assert (H : (7, "u2") <> (7, "u1")) by discriminate.
  split; [exact H |].
  apply (getUserRating_other_key (sample_context "u1") 7 7 "u1" "u2" 5
           sample_table H).
Defined.

(** *** What [submitRating] keeps *)

Lemma on_conflict_update_checked new rows :
  1 <= RatingsTable.rating new <= 5 ->
  checked rows -> checked (RatingsTable.on_conflict_update new rows).
Proof.
  intros Hnew. unfold checked.
  induction 1 as [| r rows Hr Hrows IH]; cbn [RatingsTable.on_conflict_update].
  - constructor; [done | constructor].
  - case_decide; by constructor.
Qed.

(** X5: whatever is submitted, the table keeps its constraints: one row
    per user and store, and every score in [1,5]. *)
Theorem submitRating_keeps_constraints
  (c : RatingsTable.context)
  (storeId : Z) (userId : string) (score : Z) (rows : list RatingsTable.row) :
  RatingsTable.unique_key rows -> checked rows ->
  RatingsTable.unique_key (submitRating c storeId userId score rows).2
  /\ checked (submitRating c storeId userId score rows).2.
Proof.
  intros Hu Hc.
  destruct (submitRating_table c storeId userId score rows)
    as [-> | [-> Hs]]; [done |]. split.
  - by apply on_conflict_update_unique.
  - by apply on_conflict_update_checked.
Qed.

Lemma sample_table_checked : checked sample_table.
Proof. unfold checked, sample_table. repeat constructor; cbn; lia. Qed.

Lemma submitRating_keeps_constraints_witness :
  RatingsTable.unique_key sample_table /\ checked sample_table
  /\ RatingsTable.unique_key
       (submitRating (sample_context "u2") 9 "u2" 4 sample_table).2
  /\ checked (submitRating (sample_context "u2") 9 "u2" 4 sample_table).2.
Proof.
  split; [apply sample_table_unique |]. split; [apply sample_table_checked |].
  apply (submitRating_keeps_constraints (sample_context "u2") 9 "u2" 4
           sample_table sample_table_unique sample_table_checked).
Defined.

Lemma on_conflict_update_holds new rows :
  new ∈ RatingsTable.on_conflict_update new rows.
Proof.
  induction rows as [| r rows IH]; cbn [RatingsTable.on_conflict_update].
  - left.
  - case_decide; [left | by right].
Qed.

Lemma on_conflict_update_twice new new' rows :
  RatingsTable.same_key new new' ->
  RatingsTable.on_conflict_update new' (RatingsTable.on_conflict_update new rows)
  = RatingsTable.on_conflict_update new' rows.
Proof.
  intros Hk. induction rows as [| r rows IH]; cbn [RatingsTable.on_conflict_update].
  - by rewrite decide_True.
  - destruct (decide (RatingsTable.same_key r new)) as [Hr | Hr].
    + cbn [RatingsTable.on_conflict_update].
      rewrite decide_True by done.
      by rewrite decide_True by (by eapply same_key_trans).
    + cbn [RatingsTable.on_conflict_update].
      assert (Hr' : ¬ RatingsTable.same_key r new').
      { intros H. apply Hr. eapply same_key_trans; [exact H |].
        by apply same_key_sym. }
      rewrite !decide_False by done. by rewrite IH.
Qed.

(** X6: the last write wins: a rating submitted after another one by the
    same user for the same store leaves the table exactly as if it alone
    had been submitted; in particular submitting a rating twice changes
    nothing the second time. *)
Theorem submitRating_last_write_wins
  (c : RatingsTable.context)
  (storeId : Z) (userId : string) (first second : Z)
  (rows : list RatingsTable.row) :
  1 <= second <= 5 ->
  submitRating c storeId userId second
    (submitRating c storeId userId first rows).2
  = submitRating c storeId userId second rows.
Proof.
  intros Hs.
  destruct (submitRating_cases c storeId userId first rows)
    as [(-> & _ & Hown & Hw) | (e & -> & _)]; [| done].
  cbn [snd]. rewrite !submitRating_stored; try done.
  - f_equal. by apply on_conflict_update_twice.
  - left. exists (RatingsTable.Row userId storeId first). split; [| done].
    apply on_conflict_update_holds.
Qed.

Lemma submitRating_last_write_wins_witness :
  1 <= 5 <= 5
  /\ submitRating (sample_context "u1") 7 "u1" 5
       (submitRating (sample_context "u1") 7 "u1" 2 sample_table).2
     = submitRating (sample_context "u1") 7 "u1" 5 sample_table.
Proof.
  split; [lia |].
  apply (submitRating_last_write_wins (sample_context "u1") 7 "u1" 2 5
           sample_table).
  lia.
Defined.

(** X7: a rating for one store changes the record of no other store in
    the view of all stores. *)
Theorem submitRating_other_stores
  (c : RatingsTable.context)
  (storeId : Z) (userId : string) (score : Z) (rows : list RatingsTable.row)
  (store : Store.t) :
  Store.id store <> storeId ->
  storeWithRatings
    (RatingsTable.select_store_id_rating
       (submitRating c storeId userId score rows).2) store
  = storeWithRatings (RatingsTable.select_store_id_rating rows) store.
Proof.
  intros Hne.
  destruct (submitRating_table c storeId userId score rows) as [-> | [-> _]];
    [done |].
  apply storeWithRatings_ext.
  unfold ratings_of, RatingsTable.select_store_id_rating.
  induction rows as [| r rows IH]; cbn [RatingsTable.on_conflict_update].
  - rewrite fmap_cons, filter_cons_False; [done |]. cbn. congruence.
  - case_decide as Hk.
    + destruct Hk as [_ Hk]. cbn in Hk.
      rewrite !fmap_cons, !filter_cons_False; [done | |]; cbn; congruence.
    + by rewrite !fmap_cons, !filter_cons, IH.
Qed.

Lemma submitRating_other_stores_witness :
  Store.id book_shop <> 7
  /\ storeWithRatings
       (RatingsTable.select_store_id_rating
          (submitRating (sample_context "u1") 7 "u1" 5 sample_table).2)
       book_shop
     = storeWithRatings (RatingsTable.select_store_id_rating sample_table)
         book_shop.
Proof.
  assert (H : Store.id book_shop <> 7) by discriminate.
  split; [exact H |].
  apply (submitRating_other_stores (sample_context "u1") 7 "u1" 5 sample_table
           book_shop H).
Defined.

(** *** The admin's total and the user's own ratings *)

Lemma length_filter_in_cons i (ids : list Z) (l : list Rating.t) :
  i ∉ ids ->
  length (filter (λ r, Rating.store_id r ∈ i :: ids) l)
  = (length (ratings_of i l)
     + length (filter (λ r, Rating.store_id r ∈ ids) l))%nat.
Proof.
  intros Hi. unfold ratings_of.
  induction l as [| r l IH]; [done |].
  rewrite !filter_cons.
  destruct (decide (Rating.store_id r = i)) as [E | E].
  - rewrite decide_True by (rewrite E; left).
    rewrite decide_False by (by rewrite E). cbn [length]. lia.
  - destruct (decide (Rating.store_id r ∈ ids)) as [Hin | Hin].
    + rewrite decide_True by (by right). cbn [length]. lia.
    + rewrite decide_False; [done |].
      rewrite elem_of_cons. by intros [? | ?].
Qed.

Lemma filter_in_nil (l : list Rating.t) :
  filter (λ r, Rating.store_id r ∈ @nil Z) l = [].
Proof.
  induction l as [| r l IH]; [done |].
  rewrite filter_cons_False; [done | apply not_elem_of_nil].
Qed.

Lemma totalRatings_foldl (stores : list Store.t) (l : list Rating.t) (acc : Z) :
  NoDup (Store.id <$> stores) ->
  0 <= acc ->
  acc + Z.of_nat (length (filter (λ r, Rating.store_id r ∈ Store.id <$> stores) l))
    < 2 ^ 53 ->
  foldl (λ total store,
           JSNumber.add total (Z.of_nat (StoreWithRatings.totalRatings store)))
        acc (calculateStoreRatings stores l)
  = acc + Z.of_nat (length (filter (λ r, Rating.store_id r ∈ Store.id <$> stores) l)).
Proof.
  unfold calculateStoreRatings. revert acc.
  induction stores as [| s stores IH]; intros acc Hnd Hacc Hbound.
  - cbn [fmap list_fmap foldl]. rewrite filter_in_nil. cbn. lia.
  - cbn [fmap list_fmap] in Hnd, Hbound |- *.
    apply NoDup_cons in Hnd as [Hs Hnd].
    rewrite length_filter_in_cons in Hbound |- * by done.
    cbn [foldl]. rewrite totalRatings_storeWithRatings.
    unfold JSNumber.add at 2. rewrite round53_exact by lia.
    rewrite IH by (done || lia). lia.
Qed.

(** X8: with distinct store ids and fewer than [2^32] ratings, the
    admin's "Total Ratings" is the number of ratings that belong to a
    listed store; when every rating refers to a stored store it is the
    number of rows of the ratings table. *)
Theorem AdminDashboard_totalRatings_counts_rows
  (stores : list Store.t) (rows : list RatingsTable.row) :
  NoDup (Store.id <$> stores) -> array_length rows ->
  AdminDashboard_totalRatings (getAllStoresWithRatings stores rows)
  = Z.of_nat
      (length (filter (λ r, RatingsTable.store_id r ∈ Store.id <$> stores) rows))
  /\ (references_stores stores rows ->
      AdminDashboard_totalRatings (getAllStoresWithRatings stores rows)
      = Z.of_nat (length rows)).
Proof.
  intros Hnd Hlen.
  assert (E : AdminDashboard_totalRatings (getAllStoresWithRatings stores rows)
              = Z.of_nat (length (filter
                  (λ r, RatingsTable.store_id r ∈ Store.id <$> stores) rows))).
  { unfold AdminDashboard_totalRatings, getAllStoresWithRatings.
    pose proof (length_filter
                  (λ r, RatingsTable.store_id r ∈ Store.id <$> stores) rows) as Hle.
    assert (El : length (filter (λ r, Rating.store_id r ∈ Store.id <$> stores)
                           (RatingsTable.select_store_id_rating rows))
                 = length (filter
                     (λ r, RatingsTable.store_id r ∈ Store.id <$> stores) rows)).
    { rewrite <- select_filter_in.
      unfold RatingsTable.select_store_id_rating. by rewrite length_fmap. }
    unfold array_length in Hlen. change (2 ^ 32) with 4294967296 in Hlen.
    rewrite totalRatings_foldl; rewrite ?El; [lia | done | lia |].
    change (2 ^ 53) with 9007199254740992. lia. }
  split; [exact E |].
  intros Hfk. rewrite E. f_equal. f_equal.
  unfold references_stores in Hfk.
  clear -Hfk. induction Hfk as [| r rows Hr _ IH]; [done |].
  by rewrite filter_cons_True, IH.
Qed.

Lemma sample_stores_NoDup : NoDup (Store.id <$> [corner_shop; book_shop]).
Proof.
  cbn. apply NoDup_cons. split; [| apply NoDup_singleton].
  rewrite list_elem_of_singleton. discriminate.
Qed.

Lemma sample_table_length : array_length sample_table.
Proof. unfold array_length. cbn. lia. Qed.

Lemma AdminDashboard_totalRatings_counts_rows_witness :
  NoDup (Store.id <$> [corner_shop; book_shop]) /\ array_length sample_table
  /\ AdminDashboard_totalRatings
       (getAllStoresWithRatings [corner_shop; book_shop] sample_table)
     = Z.of_nat
         (length (filter (λ r, RatingsTable.store_id r
                               ∈ Store.id <$> [corner_shop; book_shop])
                    sample_table))
  /\ (references_stores [corner_shop; book_shop] sample_table ->
      AdminDashboard_totalRatings
        (getAllStoresWithRatings [corner_shop; book_shop] sample_table)
      = Z.of_nat (length sample_table)).
Proof.
  split; [apply sample_stores_NoDup |]. split; [apply sample_table_length |].
  apply (AdminDashboard_totalRatings_counts_rows [corner_shop; book_shop]
           sample_table sample_stores_NoDup sample_table_length).
Defined.

Lemma unique_key_functional U S x y (rows : list RatingsTable.row) :
  RatingsTable.unique_key rows ->
  RatingsTable.Row U S x ∈ rows -> RatingsTable.Row U S y ∈ rows -> x = y.
Proof.
  intros Hu Hx Hy.
  destruct (table_split_on_key U S rows Hu)
    as [Hall | (before & z & after & -> & Hb & Ha)].
  - rewrite Forall_forall in Hall. by destruct (Hall _ Hx).
  - rewrite Forall_forall in Hb, Ha.
    assert (Hz : forall w, RatingsTable.Row U S w
                           ∈ before ++ RatingsTable.Row U S z :: after -> w = z).
    { intros w. rewrite elem_of_app, elem_of_cons.
      intros [Hin | [E | Hin]].
      - by destruct (Hb _ Hin).
      - by injection E.
      - by destruct (Ha _ Hin). }
    by rewrite (Hz x Hx), (Hz y Hy).
Qed.

Lemma getUserRating_Some_iff U S x (rows : list RatingsTable.row) :
  RatingsTable.unique_key rows ->
  getUserRating S U rows = Returned (Some x) <-> RatingsTable.Row U S x ∈ rows.
Proof.
  intros Hu.
  destruct (getUserRating_lookup_aux U S rows Hu)
    as [(y & Hy & ->) | (Hno & ->)].
  - split.
    + by intros [= <-].
    + intros Hx. by rewrite (unique_key_functional U S x y rows Hu Hx Hy).
  - split; [done |]. intros Hx. by destruct (Hno x).
Qed.

Lemma loadUserRatings_acc U (table : list RatingsTable.row)
  (storesData : list StoreWithRatings.t) (acc : gmap Z Z) :
  RatingsTable.unique_key table ->
  exists m,
    loadUserRatings U storesData table acc = Returned m
    /\ forall i,
         m !! i
         = match getUserRating i U table with
           | Returned (Some x) =>
               if decide (i ∈ StoreWithRatings.id <$> storesData)
               then Some x else acc !! i
           | _ => acc !! i
           end.
Proof.
  intros Hu. revert acc.
  induction storesData as [| s l IH]; intros acc.
  - exists acc. split; [done |]. intros i.
    by destruct (getUserRating i U table) as [[x |] |].
  - cbn [loadUserRatings].
    destruct (getUserRating_lookup_aux U (StoreWithRatings.id s) table Hu)
      as [(y & Hy & Ey) | (Hno & Ey)]; rewrite Ey.
    + destruct (IH (<[StoreWithRatings.id s := y]> acc)) as (m & -> & Hm).
      exists m. split; [done |]. intros i. rewrite Hm. rewrite fmap_cons.
      destruct (decide (i = StoreWithRatings.id s)) as [-> | Hi].
      * rewrite Ey, lookup_insert_eq. rewrite (decide_True _ _ (list_elem_of_here _ _)).
        by case_decide.
      * rewrite lookup_insert_ne by done.
        destruct (getUserRating i U table) as [[x |] |]; try done.
        destruct (decide (i ∈ StoreWithRatings.id <$> l)) as [Hin | Hin].
        -- by rewrite decide_True by (by right).
        -- rewrite decide_False; [done |].
           rewrite elem_of_cons. by intros [? | ?].
    + destruct (IH acc) as (m & -> & Hm).
      exists m. split; [done |]. intros i. rewrite Hm. rewrite fmap_cons.
      destruct (decide (i = StoreWithRatings.id s)) as [-> | Hi].
      * by rewrite Ey.
      * destruct (getUserRating i U table) as [[x |] |]; try done.
        destruct (decide (i ∈ StoreWithRatings.id <$> l)) as [Hin | Hin].
        -- by rewrite decide_True by (by right).
        -- rewrite decide_False; [done |].
           rewrite elem_of_cons. by intros [? | ?].
Qed.

(** X9: on a table that satisfies its uniqueness constraint, the loop of
    [loadData] completes, and [userRatings] holds, for exactly the listed
    stores the user has rated, the stored score. *)
Theorem loadUserRatings_holds_own_ratings
  (userId : string) (storesData : list StoreWithRatings.t)
  (table : list RatingsTable.row) :
  RatingsTable.unique_key table ->
  exists userRatings,
    loadUserRatings userId storesData table ∅ = Returned userRatings
    /\ forall storeId score,
         userRatings !! storeId = Some score
         <-> storeId ∈ StoreWithRatings.id <$> storesData
             /\ RatingsTable.Row userId storeId score ∈ table.
Proof.
  intros Hu.
  destruct (loadUserRatings_acc userId table storesData ∅ Hu) as (m & Hm & Hlook).
  exists m. split; [done |]. intros i x. rewrite Hlook.
  rewrite <- (getUserRating_Some_iff userId i x table Hu).
  destruct (getUserRating i userId table) as [[y |] |].
  - case_decide as Hin.
    + split; [by intros [= ->] | by intros [_ [= ->]]].
    + rewrite lookup_empty. split; [done | by intros [? _]].
  - rewrite lookup_empty. split; [done | by intros [_ [=]]].
  - rewrite lookup_empty. split; [done | by intros [_ [=]]].
Qed.

Lemma loadUserRatings_holds_own_ratings_witness :
  RatingsTable.unique_key sample_table
  /\ exists userRatings,
       loadUserRatings "u1"
         (getAllStoresWithRatings [corner_shop; book_shop] sample_table)
         sample_table ∅
       = Returned userRatings
       /\ forall storeId score,
            userRatings !! storeId = Some score
            <-> storeId ∈ StoreWithRatings.id
                  <$> getAllStoresWithRatings [corner_shop; book_shop] sample_table
                /\ RatingsTable.Row "u1" storeId score ∈ sample_table.
Proof.
  split; [apply sample_table_unique |].
  apply (loadUserRatings_holds_own_ratings "u1"
           (getAllStoresWithRatings [corner_shop; book_shop] sample_table)
           sample_table sample_table_unique).
Defined.

(** ** Further properties of the session handler and the router *)

Lemma getProfile_primary_key (rows : list Profile.t) (p : Profile.t) :
  NoDup (Profile.id <$> rows) -> p ∈ rows ->
  getProfile rows (Some (Profile.id p)) = Returned (Some p).
Proof.
  intros Hnd Hp. unfold getProfile.
  assert (E : filter (λ q, Some (Profile.id q) = Some (Profile.id p)) rows = [p]).
  { induction rows as [| q rows IH]; [by apply elem_of_nil in Hp |].
    rewrite fmap_cons in Hnd. apply NoDup_cons in Hnd as [Hq Hnd].
    apply elem_of_cons in Hp as [<- | Hp].
    - rewrite filter_cons_True by done. f_equal.
      clear IH Hnd. induction rows as [| q rows IH]; [done |].
      rewrite fmap_cons, not_elem_of_cons in Hq. destruct Hq as [Hne Hq].
      rewrite filter_cons_False by congruence. by apply IH.
    - rewrite filter_cons_False; [by apply IH |].
      intros [= E]. apply Hq. rewrite E.
      apply list_elem_of_fmap. by exists p. }
  by rewrite E.
Qed.

Lemma to_object_lookup p k :
  Profile.to_object p !! k
  = if decide (k = "updated_at") then Profile.updated_at p
    else if decide (k = "id") then Some (Profile.id p)
    else if decide (k = "name") then Some (Profile.name p)
    else if decide (k = "address") then Some (Profile.address p)
    else if decide (k = "role") then Some (role_label (Profile.role p))
    else None.
Proof.
  unfold Profile.to_object.
  destruct (Profile.updated_at p) as [time |];
    repeat (case_decide;
            [subst; repeat (rewrite lookup_insert_ne by done);
             by rewrite ?lookup_insert_eq, ?lookup_singleton_eq,
                  ?lookup_singleton_ne by done |]);
    repeat (rewrite lookup_insert_ne by done); by rewrite lookup_singleton_ne.
Qed.

(** X10: with one profile row per identity, an auth event whose identity
    has a profile row completes signed in, after one state that shows the
    loading state.  In the session user the columns of the profile row
    win over the identity's properties of the same name: [id], [name],
    [address] and [role], and [updated_at] where the table has that
    column; every other property of the identity, such as [email], is
    kept, and so is its [updated_at] where the table has no such
    column. *)
Theorem onAuthStateChange_signs_in
  (rows : list Profile.t) (p : Profile.t) (session_user : gmap string string)
  (s : AuthContext.state) :
  NoDup (Profile.id <$> rows) -> p ∈ rows ->
  session_user !! "id" = Some (Profile.id p) ->
  exists u,
    onAuthStateChange rows (Some session_user) s
    = [AuthContext.State (AuthContext.user s) true (Some session_user);
       AuthContext.State (Some u) false (Some session_user)]
    /\ u !! "id" = session_user !! "id"
    /\ u !! "name" = Some (Profile.name p)
    /\ u !! "address" = Some (Profile.address p)
    /\ u !! "role" = Some (role_label (Profile.role p))
    /\ u !! "updated_at"
       = match Profile.updated_at p with
         | Some time => Some time
         | None => session_user !! "updated_at"
         end
    /\ forall k, k ∉ ["id"; "name"; "address"; "role"; "updated_at"] ->
                 u !! k = session_user !! k.
Proof.
  intros Hnd Hp Hid. exists (Profile.to_object p ∪ session_user).
  split.
  { unfold onAuthStateChange. rewrite Hid.
    by rewrite (getProfile_primary_key rows p Hnd Hp). }
  rewrite Hid.
  split; [apply lookup_union_Some_l; by rewrite to_object_lookup |].
  split; [apply lookup_union_Some_l; by rewrite to_object_lookup |].
  split; [apply lookup_union_Some_l; by rewrite to_object_lookup |].
  split; [apply lookup_union_Some_l; by rewrite to_object_lookup |].
  split.
  - destruct (Profile.updated_at p) as [time |] eqn:Htime.
    + apply lookup_union_Some_l. by rewrite to_object_lookup.
    + apply lookup_union_r. by rewrite to_object_lookup.
  - intros k Hk. apply lookup_union_r.
    rewrite to_object_lookup.
    repeat (case_decide; [subst; exfalso; apply Hk; set_solver |]). done.
Qed.

Lemma onAuthStateChange_signs_in_witness :
  NoDup (Profile.id <$> [sample_profile]) /\ sample_profile ∈ [sample_profile]
  /\ sample_identity !! "id" = Some (Profile.id sample_profile)
  /\ exists u,
       onAuthStateChange [sample_profile] (Some sample_identity) (initial_state None)
       = [AuthContext.State None true (Some sample_identity);
          AuthContext.State (Some u) false (Some sample_identity)]
       /\ u !! "id" = sample_identity !! "id"
       /\ u !! "name" = Some (Profile.name sample_profile)
       /\ u !! "address" = Some (Profile.address sample_profile)
       /\ u !! "role" = Some (role_label (Profile.role sample_profile))
       /\ u !! "updated_at"
          = match Profile.updated_at sample_profile with
            | Some time => Some time
            | None => sample_identity !! "updated_at"
            end
       /\ forall k, k ∉ ["id"; "name"; "address"; "role"; "updated_at"] ->
                    u !! k = sample_identity !! k.
Proof.
  assert (H1 : NoDup (Profile.id <$> [sample_profile])) by apply NoDup_singleton.
  assert (H2 : sample_profile ∈ [sample_profile]) by apply list_elem_of_here.
  assert (H3 : sample_identity !! "id" = Some (Profile.id sample_profile))
    by reflexivity.
  split; [exact H1 |]. split; [exact H2 |]. split; [exact H3 |].
  apply (onAuthStateChange_signs_in [sample_profile] sample_profile
           sample_identity (initial_state None) H1 H2 H3).
Defined.

(** X11: the state a handler completes with depends on the event and on
    the profiles only: nothing of the former session user survives an
    event, and handling the same event again changes nothing. *)
Theorem onAuthStateChange_forgets_former_state
  (rows : list Profile.t) (session : option (gmap string string))
  (s s' : AuthContext.state) :
  last (onAuthStateChange rows session s)
  = last (onAuthStateChange rows session s')
  /\ forall final,
       last (onAuthStateChange rows session s) = Some final ->
       last (onAuthStateChange rows session final) = Some final.
Proof.
  unfold onAuthStateChange.
  destruct session as [su |]; [| split; [done | by intros ? [= <-]]].
  destruct (getProfile rows (su !! "id")) as [[p |] |];
    (split; [done | by intros ? [= <-]]).
Qed.

(** X12: a redirect of the router is never answered by another redirect:
    in a reachable state that is not loading, the path the router
    redirects to renders the sign-in view or a dashboard, provided the
    path matching lets a literal path match itself. *)
Theorem redirect_target_renders
  (matchPath : string -> string -> bool) (s : AuthContext.state)
  (pathname to : string) :
  (forall p, matchPath "*" p = true) ->
  (forall p, p ∈ ["/login"; "/admin"; "/user"; "/store-owner"] ->
             matchPath p p = true) ->
  reachable s -> AuthContext.loading s = false ->
  AppRouter matchPath s pathname = Some (Navigate to) ->
  AppRouter matchPath s to = Some LoginPage
  \/ exists r, AppRouter matchPath s to = Some (dashboard r).
Proof.
  intros Hsplat Hself Hreach Hload. unfold AppRouter. rewrite Hload.
  pose proof (reachable_merged s Hreach) as Hm.
  unfold session_user_merged in Hm.
  destruct (AuthContext.user s) as [u |].
  - destruct Hm as (p & su & ->).
    rewrite !(Routes_role matchPath _ (Profile.role p)) by (done || apply merged_role).
    destruct (matchPath (dashboard_path (Profile.role p)) pathname);
      [by destruct (Profile.role p) |].
    intros [= <-]. right. exists (Profile.role p).
    rewrite Hself; [done |]. destruct (Profile.role p); set_solver.
  - rewrite !Routes_anonymous by done.
    destruct (matchPath "/login" pathname); [done |].
    destruct (matchPath "/register" pathname); [done |].
    intros [= <-]. left. rewrite Hself; [done | set_solver].
Qed.

Lemma literal_match_self p : literal_match p p = true.
Proof.
  unfold literal_match. rewrite (bool_decide_eq_true_2 (p = p)) by done.
  apply orb_true_r.
Qed.

Lemma redirect_target_renders_witness :
  (forall p, literal_match "*" p = true)
  /\ (forall p, p ∈ ["/login"; "/admin"; "/user"; "/store-owner"] ->
                literal_match p p = true)
  /\ reachable sample_admin_state
  /\ AuthContext.loading sample_admin_state = false
  /\ AppRouter literal_match sample_admin_state "/user" = Some (Navigate "/admin")
  /\ (AppRouter literal_match sample_admin_state "/admin" = Some LoginPage
      \/ exists r,
           AppRouter literal_match sample_admin_state "/admin"
           = Some (dashboard r)).
Proof.
  assert (H2 : forall p, p ∈ ["/login"; "/admin"; "/user"; "/store-owner"] ->
                         literal_match p p = true)
    by (intros p _; apply literal_match_self).
  assert (H5 : AppRouter literal_match sample_admin_state "/user"
               = Some (Navigate "/admin")) by (vm_compute; reflexivity).
  split; [exact literal_match_splat |]. split; [exact H2 |].
  split; [exact sample_admin_state_reachable |]. split; [reflexivity |].
  split; [exact H5 |].
  apply (redirect_target_renders literal_match sample_admin_state "/user" "/admin"
           literal_match_splat H2 sample_admin_state_reachable eq_refl H5).
Defined.

(** ** The forms *)

Lemma append_cons c (a b : string) :
  (String c a ++ b = String c (a ++ b))%string.
Proof. reflexivity. Qed.

Lemma append_nil (b : string) : (EmptyString ++ b)%string = b.
Proof. reflexivity. Qed.

Lemma dot_append (c : string) : ("." ++ c)%string = String JSString.dot c.
Proof. reflexivity. Qed.

Lemma at_append (c : string) : ("@" ++ c)%string = String JSString.at_sign c.
Proof. reflexivity. Qed.

Lemma every_char_app p (a b : string) :
  JSString.every_char p (a ++ b)
  = JSString.every_char p a && JSString.every_char p b.
Proof.
  induction a as [| c a IH]; [done |].
  rewrite append_cons. cbn [JSString.every_char]. by rewrite IH, andb_assoc.
Qed.

Lemma email_char_not_at c :
  JSString.email_char c = true ->
  Ascii.eqb c JSString.at_sign = false /\ JSString.is_space c = false.
Proof.
  unfold JSString.email_char. rewrite andb_true_iff, !negb_true_iff.
  by intros [? ?].
Qed.

Lemma dot_before_last_split (s : string) :
  JSString.dot_before_last s = true ->
  exists b c : string, s = (b ++ "." ++ c)%string /\ c <> EmptyString.
Proof.
  induction s as [| x s IH]; [done |].
  cbn [JSString.dot_before_last].
  destruct s as [| y s]; [done |].
  rewrite orb_true_iff. intros [Hx | Hs].
  - apply Ascii.eqb_eq in Hx as ->. by exists EmptyString, (String y s).
  - destruct (IH Hs) as (b & c & E & Hc).
    exists (String x b), c. by rewrite append_cons, <- E.
Qed.

Lemma dot_before_last_app (b c : string) :
  c <> EmptyString ->
  JSString.dot_before_last (b ++ "." ++ c) = true.
Proof.
  intros Hc. rewrite dot_append. induction b as [| x b IH].
  - rewrite append_nil. destruct c; [done |].
    cbn [JSString.dot_before_last]. by rewrite Ascii.eqb_refl.
  - rewrite append_cons. cbn [JSString.dot_before_last].
    destruct (b ++ String JSString.dot c)%string eqn:E; [by destruct b |].
    rewrite IH. apply orb_true_r.
Qed.

Lemma test_domain_spec (d : string) :
  JSString.test_domain d = true
  <-> exists b c : string,
        d = (b ++ "." ++ c)%string
        /\ b <> EmptyString /\ c <> EmptyString
        /\ JSString.every_char JSString.email_char b = true
        /\ JSString.every_char JSString.email_char c = true.
Proof.
  unfold JSString.test_domain. rewrite andb_true_iff. split.
  - intros [Hall Hdot]. destruct d as [| x d]; [done |].
    destruct (dot_before_last_split d Hdot) as (b & c & -> & Hc).
    exists (String x b), c. split; [by rewrite append_cons |].
    split; [done |]. split; [done |].
    rewrite <- append_cons, every_char_app, andb_true_iff in Hall.
    destruct Hall as [Hb Hc']. split; [done |].
    rewrite dot_append in Hc'. cbn [JSString.every_char] in Hc'.
    by apply andb_true_iff in Hc' as [_ ?].
  - intros (b & c & -> & Hb & Hc & Hab & Hac). split.
    + rewrite every_char_app, Hab, dot_append. cbn [JSString.every_char].
      by rewrite Hac.
    + destruct b as [| x b]; [done |]. rewrite append_cons.
      by apply dot_before_last_app.
Qed.

Lemma test_local_spec (seen : bool) (s : string) :
  JSString.test_local seen s = true
  <-> exists a d : string,
        s = (a ++ "@" ++ d)%string
        /\ JSString.every_char JSString.email_char a = true
        /\ (seen = false -> a <> EmptyString)
        /\ JSString.test_domain d = true.
Proof.
  revert seen. induction s as [| x s IH]; intros seen.
  - split; [done |]. intros (a & d & E & _). by destruct a.
  - cbn [JSString.test_local].
    destruct (Ascii.eqb x JSString.at_sign) eqn:Hx.
    + apply Ascii.eqb_eq in Hx as ->. rewrite andb_true_iff. split.
      * intros [-> Hd]. exists EmptyString, s. by repeat split.
      * intros (a & d & E & Ha & Hseen & Hd).
        destruct a as [| y a].
        -- rewrite append_nil, at_append in E. injection E as <-.
           split; [| done]. destruct seen; [done |]. by destruct Hseen.
        -- rewrite append_cons in E. injection E as <- _.
           cbn [JSString.every_char] in Ha.
           apply andb_true_iff in Ha as [Ha _].
           apply email_char_not_at in Ha as [Ha _].
           by rewrite Ascii.eqb_refl in Ha.
    + destruct (JSString.is_space x) eqn:Hsp.
      * split; [done |]. intros (a & d & E & Ha & _).
        destruct a as [| y a].
        -- rewrite append_nil, at_append in E. injection E as -> _.
           by rewrite Ascii.eqb_refl in Hx.
        -- rewrite append_cons in E. injection E as <- _.
           cbn [JSString.every_char] in Ha.
           apply andb_true_iff in Ha as [Ha _].
           apply email_char_not_at in Ha as [_ Ha]. congruence.
      * rewrite IH. split.
        -- intros (a & d & -> & Ha & _ & Hd). exists (String x a), d.
           split; [by rewrite append_cons |]. split; [| done].
           cbn [JSString.every_char]. rewrite Ha, andb_true_r.
           unfold JSString.email_char. by rewrite Hsp, Hx.
        -- intros (a & d & E & Ha & _ & Hd).
           destruct a as [| y a].
           ++ rewrite append_nil, at_append in E. injection E as -> _.
              by rewrite Ascii.eqb_refl in Hx.
           ++ rewrite append_cons in E. injection E as <- ->.
              exists a, d. cbn [JSString.every_char] in Ha.
              apply andb_true_iff in Ha as [_ Ha]. done.
Qed.

Lemma test_email_shaped (s : string) :
  JSString.test_email s = true <-> email_shaped s.
Proof.
  unfold JSString.test_email, email_shaped. rewrite test_local_spec. split.
  - intros (a & d & -> & Ha & Hne & Hd).
    apply test_domain_spec in Hd as (b & c & -> & Hb & Hc & Hab & Hac).
    exists a, b, c. repeat split; auto.
  - intros (a & b & c & -> & Ha & Hb & Hc & Haa & Hab & Hac).
    exists a, (b ++ "." ++ c)%string. repeat split; auto.
    apply test_domain_spec. exists b, c. repeat split; auto.
Qed.

(** *** Validation *)

Lemma trimStart_spaces (s : string) :
  JSString.every_char JSString.is_space (JSString.trimStart s)
  = JSString.every_char JSString.is_space s.
Proof.
  induction s as [| c s IH]; [done |].
  cbn [JSString.trimStart JSString.every_char].
  destruct (JSString.is_space c) eqn:E; [by rewrite IH |].
  cbn [JSString.every_char]. by rewrite E.
Qed.

Lemma trimEnd_empty (s : string) :
  JSString.trimEnd s = EmptyString
  <-> JSString.every_char JSString.is_space s = true.
Proof.
  induction s as [| c s IH]; [done |].
  cbn [JSString.trimEnd JSString.every_char]. rewrite andb_true_iff, <- IH.
  destruct (JSString.trimEnd s) as [| d t].
  - destruct (JSString.is_space c); split; try done. by intros [? _].
  - split; [done |]. by intros [_ ?].
Qed.

Lemma some_char_spec p (s : string) :
  JSString.some_char p s = true
  <-> exists c, p c = true /\ c ∈ String.list_ascii_of_string s.
Proof.
  induction s as [| x s IH]; cbn [JSString.some_char String.list_ascii_of_string].
  - split; [done |]. intros (c & _ & Hc). by apply elem_of_nil in Hc.
  - rewrite orb_true_iff, IH. split.
    + intros [Hx | (c & Hc & Hin)]; [exists x | exists c];
        (split; [done |]); [left | by right].
    + intros (c & Hc & Hin). apply elem_of_cons in Hin as [-> | Hin];
        [by left | right; by exists c].
Qed.

Lemma every_char_negb_some p (s : string) :
  JSString.every_char p s = negb (JSString.some_char (λ c, negb (p c)) s).
Proof.
  induction s as [| x s IH]; [done |].
  cbn [JSString.every_char JSString.some_char].
  rewrite IH. by destruct (p x).
Qed.

Lemma not_blank_spec (s : string) :
  JSString.falsy (JSString.trim s) = false <-> not_blank s.
Proof.
  unfold JSString.falsy, JSString.trim, not_blank.
  rewrite bool_decide_eq_false, trimEnd_empty, trimStart_spaces.
  rewrite every_char_negb_some, negb_true_iff, not_false_iff_true.
  rewrite some_char_spec. by setoid_rewrite negb_true_iff.
Qed.

Lemma name_ok_spec (s : string) :
  name_ok s = true <-> not_blank s /\ (20 <= String.length s <= 60)%nat.
Proof.
  unfold name_ok. rewrite !andb_true_iff, !negb_true_iff, not_blank_spec.
  rewrite !Nat.ltb_ge. tauto.
Qed.

Lemma email_ok_spec (s : string) :
  email_ok s = true <-> email_shaped s.
Proof.
  unfold email_ok. rewrite andb_true_iff, negb_true_iff, test_email_shaped.
  split; [by intros [_ ?] |]. intros Hs. split; [| done].
  apply not_blank_spec.
  destruct Hs as (a & b & c & -> & Ha & _ & _ & Haa & _).
  destruct a as [| x a]; [done |]. exists x. split.
  - cbn [JSString.every_char] in Haa. apply andb_true_iff in Haa as [Hx _].
    by apply email_char_not_at in Hx as [_ ?].
  - rewrite append_cons. left.
Qed.

Lemma address_ok_spec (s : string) :
  address_ok s = true <-> not_blank s /\ (String.length s <= 400)%nat.
Proof.
  unfold address_ok. rewrite !andb_true_iff, !negb_true_iff, not_blank_spec.
  by rewrite Nat.ltb_ge.
Qed.

Lemma password_ok_spec (s : string) :
  password_ok s = true <-> password_rule s.
Proof.
  unfold password_ok, password_rule, JSString.test_has_upper,
    JSString.test_has_special.
  rewrite !andb_true_iff, !negb_true_iff, orb_false_iff, !Nat.ltb_ge.
  rewrite !some_char_spec. unfold JSString.falsy.
  rewrite bool_decide_eq_false. split.
  - intros (((_ & ? & ?) & ?) & ?). by repeat split.
  - intros ((? & ?) & ? & ?). repeat split; try done.
    intros ->. cbn in *. lia.
Qed.

Lemma no_error_after_insert (k v : string) (m : gmap string string) :
  bool_decide (size (<[k := v]> m) = 0%nat) = false.
Proof.
  apply bool_decide_eq_false. rewrite map_size_empty_iff.
  apply insert_non_empty.
Qed.

Lemma no_error_stage (c : bool) (k v : string) (m m' : gmap string string) :
  bool_decide (size (if c then <[k := v]> m else m') = 0%nat)
  = negb c && bool_decide (size m' = 0%nat).
Proof. destruct c; [apply no_error_after_insert | done]. Qed.

Lemma no_error_empty :
  bool_decide (size (∅ : gmap string string) = 0%nat) = true.
Proof. done. Qed.

Lemma Register_valid_bool (f : RegisterForm.t) :
  (Register_validateForm f).2
  = name_ok (RegisterForm.name f) && email_ok (RegisterForm.email f)
    && address_ok (RegisterForm.address f)
    && password_ok (RegisterForm.password f).
Proof.
  unfold Register_validateForm, name_ok, email_ok, address_ok, password_ok.
  cbn [snd]. rewrite !no_error_stage, no_error_empty.
  btauto.
Qed.

Lemma AddUserModal_valid_bool (f : AddUserForm.t) :
  (AddUserModal_validateForm f).2
  = name_ok (AddUserForm.name f) && email_ok (AddUserForm.email f)
    && address_ok (AddUserForm.address f)
    && password_ok (AddUserForm.password f).
Proof.
  unfold AddUserModal_validateForm, name_ok, email_ok, address_ok, password_ok.
  cbn [snd]. rewrite !no_error_stage, no_error_empty.
  btauto.
Qed.

Lemma PasswordChangeModal_valid_bool (f : PasswordForm.t) :
  (PasswordChangeModal_validateForm f).2
  = negb (JSString.falsy (PasswordForm.currentPassword f))
    && password_ok (PasswordForm.newPassword f)
    && bool_decide (PasswordForm.newPassword f = PasswordForm.confirmPassword f).
Proof.
  unfold PasswordChangeModal_validateForm, password_ok.
  cbn [snd]. rewrite !no_error_stage, no_error_empty.
  destruct (bool_decide (PasswordForm.newPassword f
                         = PasswordForm.confirmPassword f));
    btauto.
Qed.

Lemma valid_iff_no_errors (m : gmap string string) :
  bool_decide (size m = 0%nat) = true <-> m = ∅.
Proof. rewrite bool_decide_eq_true. apply map_size_empty_iff. Qed.

Lemma valid_no_errors (m : gmap string string) :
  bool_decide (size m = 0%nat) = true -> m = ∅.
Proof. intros H. apply bool_decide_eq_true in H. by apply map_size_empty_iff. Qed.

Lemma Register_accepts_fields (f : RegisterForm.t) :
  (Register_validateForm f).2 = true
  <-> name_ok (RegisterForm.name f) = true
      /\ email_ok (RegisterForm.email f) = true
      /\ address_ok (RegisterForm.address f) = true
      /\ password_ok (RegisterForm.password f) = true.
Proof. rewrite Register_valid_bool, !andb_true_iff. tauto. Qed.

(** *** The columns of [public.profiles] and the sign-up request *)

Lemma length_list_ascii_of_string (s : string) :
  length (String.list_ascii_of_string s) = String.length s.
Proof. induction s as [| c s IH]; [done |]. cbn. by rewrite IH. Qed.

(** A value that fits the column is stored as it is. *)
Lemma varchar_fits (n : nat) (value : string) :
  (String.length value <= n)%nat -> varchar n value = Some value.
Proof.
  intros Hlen. unfold varchar.
  rewrite drop_ge, take_ge by (by rewrite length_list_ascii_of_string).
  rewrite bool_decide_eq_true_2 by constructor.
  by rewrite String.string_of_list_ascii_of_string.
Qed.

(** Beyond the width only spaces are cut off. *)
Example varchar_cuts_spaces :
  varchar 3 "ab" = Some "ab"
  /\ varchar 3 "abc  " = Some "abc"
  /\ varchar 3 "abcd" = None
  /\ varchar 3 "abc d" = None.
Proof. vm_compute. done. Qed.

Lemma string_of_list_ascii_app (l l' : list Ascii.ascii) :
  String.string_of_list_ascii (l ++ l')
  = (String.string_of_list_ascii l ++ String.string_of_list_ascii l')%string.
Proof.
  induction l as [| c l IH]; [done |].
  cbn [app String.string_of_list_ascii]. by rewrite IH, append_cons.
Qed.

(** What the column stores is the value itself, or the value without
    spaces at its end. *)
Lemma varchar_prefix (n : nat) (value stored : string) :
  varchar n value = Some stored ->
  exists spaces,
    value = (stored ++ spaces)%string
    /\ Forall (λ c, c = Ascii.ascii_of_nat 32)
         (String.list_ascii_of_string spaces).
Proof.
  unfold varchar. case_bool_decide as Hspaces; [| done]. intros [= <-].
  exists (String.string_of_list_ascii
            (drop n (String.list_ascii_of_string value))).
  split.
  - by rewrite <- string_of_list_ascii_app, take_drop,
      String.string_of_list_ascii_of_string.
  - by rewrite String.list_ascii_of_string_of_list_ascii.
Qed.

Lemma name_column_varchar script name stored :
  name_column script name = Some stored -> varchar 60 name = Some stored.
Proof.
  unfold name_column. destruct (varchar 60 name) as [v |]; [| done].
  destruct script; [done |]. by case_match.
Qed.

Lemma address_column_varchar script address stored :
  address_column script address = Some stored ->
  varchar 400 address = Some stored.
Proof.
  unfold address_column. destruct (varchar 400 address) as [v |]; [| done].
  destruct script; [done |]. by case_match.
Qed.

Lemma address_column_fits script address :
  (String.length address <= 400)%nat ->
  address_column script address = Some address.
Proof.
  intros Hlen. unfold address_column, char_length.
  rewrite varchar_fits by done.
  destruct script; [done |]. by rewrite bool_decide_eq_true_2.
Qed.

Lemma name_column_fits script name :
  (String.length name <= 60)%nat ->
  (script = revised_setup -> 20 <= String.length name)%nat ->
  name_column script name = Some name.
Proof.
  intros Hlen Hmin. unfold name_column, char_length.
  rewrite varchar_fits by done.
  destruct script; [done |].
  by rewrite !bool_decide_eq_true_2 by auto.
Qed.

Lemma valid_form_lengths (f : RegisterForm.t) :
  (Register_validateForm f).2 = true ->
  (20 <= String.length (RegisterForm.name f) <= 60)%nat
  /\ (String.length (RegisterForm.address f) <= 400)%nat.
Proof.
  intros (Hn & _ & Ha & _)%Register_accepts_fields.
  apply name_ok_spec in Hn as [_ Hn]. by apply address_ok_spec in Ha as [_ Ha].
Qed.

Lemma object_literal_name name address role :
  object_literal [("name", name); ("address", address); ("role", role)]
    !! "name" = name.
Proof.
  unfold object_literal. cbn [foldr fst snd].
  destruct name, address, role;
    repeat (rewrite lookup_insert_ne by done);
    rewrite ?lookup_insert_eq, ?lookup_empty; done.
Qed.

Lemma object_literal_address name address role :
  object_literal [("name", name); ("address", address); ("role", role)]
    !! "address" = address.
Proof.
  unfold object_literal. cbn [foldr fst snd].
  destruct name, address, role;
    repeat (rewrite lookup_insert_ne by done);
    rewrite ?lookup_insert_eq, ?lookup_empty; done.
Qed.

(** The rows a sign-up adds: the identity, and the profile the trigger
    inserts for it. *)
Lemma handle_new_user_appends (script : setup_script) (now : string)
  (new : AuthUser.t) (rows rows' : list Profile.t) :
  handle_new_user script now new rows = Some rows' ->
  exists name address stored_name stored_address role,
    rows' = rows ++ [Profile.Build (AuthUser.id new) stored_name
                       stored_address role (updated_at_default script now)]
    /\ AuthUser.raw_user_meta_data new !! "name" = Some name
    /\ name_column script name = Some stored_name
    /\ AuthUser.raw_user_meta_data new !! "address" = Some address
    /\ address_column script address = Some stored_address
    /\ trigger_role script (AuthUser.raw_user_meta_data new) = Some role
    /\ AuthUser.id new ∉ Profile.id <$> rows.
Proof.
  unfold handle_new_user. intros H.
  destruct (AuthUser.raw_user_meta_data new !! "name") as [name |]; [| done].
  destruct (AuthUser.raw_user_meta_data new !! "address") as [address |];
    [| done].
  destruct (trigger_role script (AuthUser.raw_user_meta_data new))
    as [role |]; [| done].
  destruct (name_column script name) as [stored_name |] eqn:Hn; [| done].
  destruct (address_column script address) as [stored_address |] eqn:Ha;
    [| done].
  case_bool_decide as Hfresh; [| done].
  injection H as <-. by exists name, address, stored_name, stored_address, role.
Qed.

Lemma handle_new_user_accepts (script : setup_script) (now : string)
  (new : AuthUser.t) (rows : list Profile.t) name address stored_name
  stored_address role :
  AuthUser.raw_user_meta_data new !! "name" = Some name ->
  name_column script name = Some stored_name ->
  AuthUser.raw_user_meta_data new !! "address" = Some address ->
  address_column script address = Some stored_address ->
  trigger_role script (AuthUser.raw_user_meta_data new) = Some role ->
  AuthUser.id new ∉ Profile.id <$> rows ->
  handle_new_user script now new rows
  = Some (rows ++ [Profile.Build (AuthUser.id new) stored_name stored_address
                     role (updated_at_default script now)]).
Proof.
  intros Hname Hn Haddress Ha Hrole Hfresh. unfold handle_new_user.
  rewrite Hname, Haddress, Hrole, Hn, Ha. by rewrite bool_decide_eq_true_2.
Qed.

(** What the service has done after a sign-up request: nothing, with an
    error in its answer, or the identity and its profile were added,
    with no error. *)
Lemma signup_request_cases refused gen now (script : setup_script)
  (request : Auth.SignUp) (b : Backend) :
  let meta := Auth.options_data request in
  (exists err,
     signup_request refused gen now script request b
     = ({| Auth.error := Some err |}, b))
  \/ (exists name address stored_name stored_address role,
        signup_request refused gen now script request b
        = ({| Auth.error := None |},
           {| users := users b
                       ++ [AuthUser.Build (gen b) (Auth.email request) meta];
              profiles := profiles b
                          ++ [Profile.Build (gen b) stored_name stored_address
                                role (updated_at_default script (now b))] |})
        /\ meta !! "name" = Some name
        /\ name_column script name = Some stored_name
        /\ meta !! "address" = Some address
        /\ address_column script address = Some stored_address
        /\ trigger_role script meta = Some role).
Proof.
  intros meta. unfold signup_request.
  destruct (refused b request) as [err |]; [left; by eexists |].
  destruct (handle_new_user script _ _ (profiles b)) as [rows |] eqn:Hrows;
    [| left; by eexists].
  right. apply handle_new_user_appends in Hrows
    as (name & address & stored_name & stored_address & role & -> & Hname
        & Hn & Haddress & Ha & Hrole & _).
  cbn [AuthUser.raw_user_meta_data AuthUser.id] in *.
  by exists name, address, stored_name, stored_address, role.
Qed.

(** What a call of [signUp] leaves behind, however it completes. *)
Lemma signUp_cases rejected refused gen now (script : setup_script)
  (request : Auth.SignUp) (b : Backend) :
  let handled := signup_request refused gen now script request b in
  match rejected b request with
  | None =>
      signUp rejected refused gen now script request b
      = (Returned handled.1, handled.2)
  | Some (rejected_unsent e) =>
      signUp rejected refused gen now script request b = (Thrown e, b)
  | Some (rejected_handled e) =>
      signUp rejected refused gen now script request b = (Thrown e, handled.2)
  end.
Proof.
  intros handled. unfold signUp, handled.
  destruct (rejected b request) as [[e | e] |]; try done.
  by destruct (signup_request _ _ _ _ request b).
Qed.

(** X13: the e-mail test of the forms accepts exactly the strings
    [local@domain.top] whose three parts are not empty and hold neither
    white space nor an at sign; the dot that is found is the last one
    after the at sign, so [domain] may hold dots itself. *)
Theorem test_email_accepts_shape (s : string) :
  JSString.test_email s = true <-> email_shaped s.
Proof. apply test_email_shaped. Qed.

(** X14: [validateForm] of [Register] returns [true] exactly for a name
    of 20 to 60 characters that is not blank, an e-mail of the shape
    [local@domain.top], an address of at most 400 characters that is not
    blank, and a password of 8 to 16 characters with an upper-case letter
    and a special character; it has set no error then. *)
Theorem Register_validateForm_accepts (f : RegisterForm.t) :
  ((Register_validateForm f).2 = true
   <-> (not_blank (RegisterForm.name f)
        /\ (20 <= String.length (RegisterForm.name f) <= 60)%nat)
       /\ email_shaped (RegisterForm.email f)
       /\ (not_blank (RegisterForm.address f)
           /\ (String.length (RegisterForm.address f) <= 400)%nat)
       /\ password_rule (RegisterForm.password f))
  /\ ((Register_validateForm f).2 = true <-> (Register_validateForm f).1 = ∅).
Proof.
  split.
  - by rewrite Register_accepts_fields, name_ok_spec, email_ok_spec,
      address_ok_spec, password_ok_spec.
  - unfold Register_validateForm. cbn [fst snd]. apply valid_iff_no_errors.
Qed.

(** X15: the form of the administrator and the registration form accept
    the same name, e-mail, address and password, whatever the role chosen
    in the former: its single test per field is the disjunction of the
    tests the latter makes one after the other. *)
Theorem AddUserModal_validates_as_Register
  (name email password address role : string) :
  (AddUserModal_validateForm
     (AddUserForm.Build name email password address role)).2
  = (Register_validateForm (RegisterForm.Build name email address password)).2.
Proof. by rewrite AddUserModal_valid_bool, Register_valid_bool. Qed.

(** X16: [validateForm] of [PasswordChangeModal] returns [true] exactly
    when the current password is not empty, the new one follows the
    password rule of the registration form, and the confirmation equals
    the new password. *)
Theorem PasswordChangeModal_validateForm_accepts (f : PasswordForm.t) :
  (PasswordChangeModal_validateForm f).2 = true
  <-> PasswordForm.currentPassword f <> EmptyString
      /\ password_rule (PasswordForm.newPassword f)
      /\ PasswordForm.newPassword f = PasswordForm.confirmPassword f.
Proof.
  rewrite PasswordChangeModal_valid_bool, !andb_true_iff, negb_true_iff.
  rewrite password_ok_spec, bool_decide_eq_true. unfold JSString.falsy.
  rewrite bool_decide_eq_false. tauto.
Qed.

(** X17: a form that [validateForm] of [Register] accepts fits the
    columns of [public.profiles] of the initial setup script, which
    store its name and its address as they are, uncut; its address also
    passes the length check of the revised script.  The length check of
    [name] in the revised script is left out of the statement: it counts
    characters, where the form counts code units. *)
Theorem Register_validateForm_fits_schema (f : RegisterForm.t) :
  (Register_validateForm f).2 = true ->
  name_column initial_setup (RegisterForm.name f) = Some (RegisterForm.name f)
  /\ forall script,
       address_column script (RegisterForm.address f)
       = Some (RegisterForm.address f).
Proof.
  intros [[_ Hn] Ha]%valid_form_lengths. split.
  - by apply name_column_fits.
  - intros script. by apply address_column_fits.
Qed.

Lemma Register_validateForm_fits_schema_witness :
  (Register_validateForm sample_form).2 = true
  /\ name_column initial_setup (RegisterForm.name sample_form)
     = Some (RegisterForm.name sample_form)
  /\ forall script,
       address_column script (RegisterForm.address sample_form)
       = Some (RegisterForm.address sample_form).
Proof.
  assert ((Register_validateForm sample_form).2 = true) as H
    by (vm_compute; reflexivity).
  split; [exact H |].
  exact (Register_validateForm_fits_schema sample_form H).
Defined.

(** X18: under the initial setup script, submitting a form that
    validates ends with no error shown and [loading] off, and adds
    exactly one identity and one profile, with the name and the address
    of the form and the role [user], when the call of the client does
    not reject, the service does not refuse the sign-up and the new
    identifier is not yet a profile's. *)
Theorem Register_handleSubmit_creates_profile rejected refused gen now
  (f : RegisterForm.t) (b : Backend) :
  let meta := object_literal [("name", Some (RegisterForm.name f));
                              ("address", Some (RegisterForm.address f));
                              ("role", Some "user")] in
  let request := {| Auth.email := Some (RegisterForm.email f);
                    Auth.password := Some (RegisterForm.password f);
                    Auth.options_data := meta |} in
  (Register_validateForm f).2 = true ->
  rejected b request = None ->
  refused b request = None ->
  gen b ∉ Profile.id <$> profiles b ->
  Register_handleSubmit rejected refused gen now initial_setup f b
  = (Returned {| errors := ∅; loading := false |},
     {| users := users b
                 ++ [AuthUser.Build (gen b) (Some (RegisterForm.email f)) meta];
        profiles := profiles b
                    ++ [Profile.Build (gen b) (RegisterForm.name f)
                          (RegisterForm.address f) user (Some (now b))] |}).
Proof.
  intros meta request Hvalid Hrejected Hrefused Hfresh.
  destruct (valid_form_lengths f Hvalid) as [[_ Hn] Ha].
  unfold Register_handleSubmit.
  destruct (Register_validateForm f) as [newErrors valid] eqn:Hv.
  cbn [snd] in Hvalid. subst valid. cbn [negb].
  assert (newErrors = ∅) as ->.
  { apply valid_no_errors. unfold Register_validateForm in Hv.
    injection Hv as <- E. exact E. }
  unfold register.
  assert (RegisterForm.to_object f !! "name" = Some (RegisterForm.name f)) as ->
    by done.
  assert (RegisterForm.to_object f !! "email" = Some (RegisterForm.email f)) as ->
    by done.
  assert (RegisterForm.to_object f !! "address"
          = Some (RegisterForm.address f)) as -> by done.
  assert (RegisterForm.to_object f !! "password"
          = Some (RegisterForm.password f)) as -> by done.
  fold meta. fold request.
  pose proof (signUp_cases rejected refused gen now initial_setup request b)
    as Hcall.
  cbv zeta in Hcall. rewrite Hrejected in Hcall. rewrite Hcall.
  assert (signup_request refused gen now initial_setup request b
          = ({| Auth.error := None |},
             {| users := users b
                         ++ [AuthUser.Build (gen b)
                               (Some (RegisterForm.email f)) meta];
                profiles := profiles b
                            ++ [Profile.Build (gen b) (RegisterForm.name f)
                                  (RegisterForm.address f) user
                                  (Some (now b))] |}))
    as ->; [| done].
  unfold signup_request. rewrite Hrefused.
  rewrite (handle_new_user_accepts initial_setup (now b) _ (profiles b)
             (RegisterForm.name f) (RegisterForm.address f)
             (RegisterForm.name f) (RegisterForm.address f) user);
    [done
    | apply object_literal_name
    | by apply name_column_fits
    | apply object_literal_address
    | by apply address_column_fits
    | apply trigger_role_user, object_literal_role
    | exact Hfresh].
Qed.

Lemma Register_handleSubmit_creates_profile_witness :
  Register_handleSubmit (λ _ _, None) (λ _ _, None) (λ _, "u1")
    (λ _, "2025-01-03T00:00:00Z") initial_setup sample_form empty_backend
  = (Returned {| errors := ∅; loading := false |},
     {| users :=
          [AuthUser.Build "u1" (Some "ah@example.org")
             (object_literal [("name", Some "Alexander Hamilton Junior");
                              ("address", Some "1 Wall Street");
                              ("role", Some "user")])];
        profiles :=
          [Profile.Build "u1" "Alexander Hamilton Junior" "1 Wall Street"
             user (Some "2025-01-03T00:00:00Z")] |}).
Proof.
  apply (Register_handleSubmit_creates_profile (λ _ _, None) (λ _ _, None)
           (λ _, "u1") (λ _, "2025-01-03T00:00:00Z") sample_form
           empty_backend).
  - vm_compute; reflexivity.
  - reflexivity.
  - reflexivity.
  - cbn. apply not_elem_of_nil.
Defined.

(** X19: whatever the form and the behaviour of the service and of its
    client, [handleSubmit] of [Register] either leaves the users and the
    profiles as they were, or the form had validated and exactly one
    profile was added, with the name and the address of the form and the
    role [user]; a form that does not validate changes nothing. *)
Theorem Register_handleSubmit_frame rejected refused gen now
  (script : setup_script) (f : RegisterForm.t) (b : Backend) :
  let b' := (Register_handleSubmit rejected refused gen now script f b).2 in
  b' = b
  \/ ((Register_validateForm f).2 = true
      /\ profiles b' = profiles b
                       ++ [Profile.Build (gen b) (RegisterForm.name f)
                             (RegisterForm.address f) user
                             (updated_at_default script (now b))]
      /\ length (users b') = S (length (users b))).
Proof.
  cbv zeta. unfold Register_handleSubmit.
  destruct (Register_validateForm f) as [newErrors valid] eqn:Hv.
  destruct valid; cbn [negb snd]; [| by left].
  assert ((Register_validateForm f).2 = true) as Hvalid by (by rewrite Hv).
  destruct (valid_form_lengths f Hvalid) as [[_ Hn] Ha].
  unfold register.
  assert (RegisterForm.to_object f !! "name" = Some (RegisterForm.name f)) as ->
    by done.
  assert (RegisterForm.to_object f !! "address"
          = Some (RegisterForm.address f)) as -> by done.
  match goal with
  | |- context [signUp rejected refused gen now script ?r b] =>
      set (request := r)
  end.
  assert (let handled := signup_request refused gen now script request b in
          handled.2 = b
          \/ (profiles handled.2
              = profiles b
                ++ [Profile.Build (gen b) (RegisterForm.name f)
                      (RegisterForm.address f) user
                      (updated_at_default script (now b))]
              /\ length (users handled.2) = S (length (users b)))) as Hhandled.
  { destruct (signup_request_cases refused gen now script request b)
      as [(err & ->) | (name & address & stored_name & stored_address & role
                        & -> & Hname & Hsn & Haddress & Hsa & Hrole)];
      [by left |].
    right. cbn [snd profiles users request Auth.options_data] in *.
    rewrite object_literal_name in Hname. injection Hname as <-.
    rewrite object_literal_address in Haddress. injection Haddress as <-.
    rewrite (trigger_role_user script) in Hrole by apply object_literal_role.
    injection Hrole as <-.
    apply name_column_varchar in Hsn. rewrite varchar_fits in Hsn by done.
    apply address_column_varchar in Hsa. rewrite varchar_fits in Hsa by done.
    injection Hsn as <-. injection Hsa as <-.
    split; [done |]. rewrite length_app. cbn. lia. }
  cbv zeta in Hhandled.
  pose proof (signUp_cases rejected refused gen now script request b) as Hcall.
  cbv zeta in Hcall.
  destruct (rejected b request) as [[e | e] |]; rewrite Hcall;
    cbn [await_result snd]; [by left | |].
  - destruct Hhandled as [-> | Hadded]; [by left | by right].
  - destruct Hhandled as [E | Hadded]; [left | right]; done.
Qed.

(** ** The rating distribution *)

Lemma count_step_lookup (counts : gmap Z JSCount.t) (r k : Z) :
  <[r := JSCount.incr (counts !! r)]> counts !! k
  = if decide (r = k) then Some (JSCount.incr (counts !! k)) else counts !! k.
Proof.
  case_decide as E; [subst; apply lookup_insert_eq | by apply lookup_insert_ne].
Qed.

Lemma count_foldl_lookup (ratings : list Rating.t) (counts : gmap Z JSCount.t)
  (k : Z) :
  foldl (λ counts r,
           <[Rating.rating r := JSCount.incr (counts !! Rating.rating r)]>
             counts) counts ratings !! k
  = Nat.iter (length (filter (λ r, Rating.rating r = k) ratings))
      (λ c, Some (JSCount.incr c)) (counts !! k).
Proof.
  revert counts. induction ratings as [| r ratings IH]; intros counts; [done |].
  cbn [foldl]. rewrite IH, count_step_lookup, filter_cons.
  case_decide; [| done]. cbn [length]. by rewrite Nat.iter_succ_r.
Qed.

Lemma iter_incr_Num (n m : nat) :
  Nat.iter n (λ c, Some (JSCount.incr c)) (Some (JSCount.Num m))
  = Some (JSCount.Num (n + m)).
Proof.
  induction n as [| n IH]; [done |].
  rewrite Nat.iter_succ, IH. done.
Qed.

Lemma iter_incr_missing (n : nat) :
  Nat.iter n (λ c, Some (JSCount.incr c)) None
  = match n with O => None | S _ => Some JSCount.NaN end.
Proof.
  induction n as [| n IH]; [done |]. rewrite Nat.iter_succ, IH.
  by destruct n.
Qed.

Lemma count_ratings_star (ratings : list Rating.t) (k : Z) :
  1 <= k <= 5 ->
  count_ratings ratings !! k
  = Some (JSCount.Num (length (filter (λ r, Rating.rating r = k) ratings))).
Proof.
  intros Hk. unfold count_ratings. rewrite count_foldl_lookup.
  assert (k = 1 \/ k = 2 \/ k = 3 \/ k = 4 \/ k = 5) as Hcases by lia.
  destruct Hcases as [-> | [-> | [-> | [-> | ->]]]];
    (etrans; [apply (iter_incr_Num _ 0) |]); by rewrite Nat.add_0_r.
Qed.

Lemma count_ratings_other (ratings : list Rating.t) (k : Z) :
  ~ 1 <= k <= 5 ->
  count_ratings ratings !! k
  = match filter (λ r, Rating.rating r = k) ratings with
    | [] => None
    | _ :: _ => Some JSCount.NaN
    end.
Proof.
  intros Hk. unfold count_ratings. rewrite count_foldl_lookup.
  assert (({[5 := JSCount.Num 0; 4 := JSCount.Num 0; 3 := JSCount.Num 0;
             2 := JSCount.Num 0; 1 := JSCount.Num 0]} : gmap Z JSCount.t) !! k
          = None) as ->.
  { rewrite !lookup_insert_ne by lia. apply lookup_singleton_ne. lia. }
  rewrite iter_incr_missing.
  by destruct (filter (λ r, Rating.rating r = k) ratings).
Qed.

Lemma count_ratings_valid (ratings : list Rating.t) :
  Forall valid_score ratings ->
  count_ratings ratings
  = {[5 := JSCount.Num (ratings_of_star 5 ratings);
      4 := JSCount.Num (ratings_of_star 4 ratings);
      3 := JSCount.Num (ratings_of_star 3 ratings);
      2 := JSCount.Num (ratings_of_star 2 ratings);
      1 := JSCount.Num (ratings_of_star 1 ratings)]}.
Proof.
  intros Hvalid. apply map_eq. intros k.
  destruct (decide (1 <= k <= 5)) as [Hk | Hk].
  - rewrite count_ratings_star by done.
    assert (k = 1 \/ k = 2 \/ k = 3 \/ k = 4 \/ k = 5) as Hcases by lia.
    by destruct Hcases as [-> | [-> | [-> | [-> | ->]]]].
  - rewrite count_ratings_other by done.
    rewrite !lookup_insert_ne, lookup_singleton_ne by lia.
    assert (filter (λ r, Rating.rating r = k) ratings = []) as ->; [| done].
    induction Hvalid as [| r ratings Hr _ IH]; [done |].
    rewrite filter_cons_False; [done |]. unfold valid_score in Hr. lia.
Qed.

Lemma ratings_of_star_total (ratings : list Rating.t) :
  Forall valid_score ratings ->
  (ratings_of_star 5 ratings + ratings_of_star 4 ratings
   + ratings_of_star 3 ratings + ratings_of_star 2 ratings
   + ratings_of_star 1 ratings = length ratings)%nat.
Proof.
  unfold ratings_of_star.
  induction 1 as [| r ratings Hr _ IH]; [done |].
  unfold valid_score in Hr. rewrite !filter_cons. cbn [length].
  repeat case_decide; cbn [length]; lia.
Qed.

Lemma RatingDistribution_valid (ratings : list Rating.t) (total : nat) :
  Forall valid_score ratings ->
  RatingDistribution ratings total = bar_of ratings total <$> [5; 4; 3; 2; 1].
Proof.
  intros Hvalid. unfold RatingDistribution.
  rewrite (count_ratings_valid ratings Hvalid).
  change (bar_of ratings total <$> [5; 4; 3; 2; 1])
    with [bar_of ratings total 5; bar_of ratings total 4;
          bar_of ratings total 3; bar_of ratings total 2;
          bar_of ratings total 1].
  unfold bar_of.
  generalize (ratings_of_star 5 ratings), (ratings_of_star 4 ratings),
    (ratings_of_star 3 ratings), (ratings_of_star 2 ratings),
    (ratings_of_star 1 ratings).
  generalize (percentage_of total). intros p c5 c4 c3 c2 c1.
  vm_compute. reflexivity.
Qed.

(** The quotient of a count by a total it does not exceed is at most
    one, and one exactly for the total itself. *)
Lemma div_count_by_total s t :
  0 < s <= t ->
  exists m k,
    JSNumber.div s t = JSNumber.Double m (- k)
    /\ 52 <= k /\ 2 ^ 52 <= m <= 2 ^ k /\ m <= 2 ^ 53
    /\ (s = t -> m = 2 ^ k).
Proof.
  intros [Hs Hst].
  destruct (div_correctly_rounded s t Hs ltac:(lia) ltac:(nia))
    as (m & k & E & Hk & [Hm52 Hm53] & Hlo & Hr).
  exists m, k. split; [done |].
  assert (0 < 2 ^ k) as HK by (apply Z.pow_pos_nonneg; lia).
  set (K := 2 ^ k) in *.
  assert (m <= K) as HmK.
  { assert (2 * m * t <= (2 * K + 1) * t) as H by nia.
    apply Z.mul_le_mono_pos_r in H; lia. }
  split; [| split; [lia |]; split; [done |]].
  - destruct (Z.lt_ge_cases k 52) as [Hlt | ]; [| done].
    assert (2 ^ k < 2 ^ 52) by (apply Z.pow_lt_mono_r; lia). lia.
  - intros ->.
    assert (0 <= (2 * m - 2 * K + 1) * t) as H by nia.
    apply Z.mul_nonneg_cancel_r in H; lia.
Qed.

Lemma log2_hundredfold m :
  2 ^ 52 <= m <= 2 ^ 53 -> Z.log2 (m * 100) = 58 \/ Z.log2 (m * 100) = 59.
Proof.
  intros Hm.
  assert (58 <= Z.log2 (m * 100)) as Hlo.
  { change 58 with (Z.log2 (2 ^ 58)). apply Z.log2_le_mono.
    change (2 ^ 58) with (64 * 2 ^ 52). lia. }
  assert (Z.log2 (m * 100) <= 59) as Hhi.
  { change 59 with (Z.log2 (2 ^ 53 * 100)). apply Z.log2_le_mono. lia. }
  lia.
Qed.

Lemma percentage_bounds (total n : nat) :
  (0 < total)%nat -> (n <= total)%nat ->
  exists m k,
    percentage_of total (JSCount.Num n) = Some (JSNumber.Double m (- k))
    /\ 0 <= k /\ 0 <= m <= 100 * 2 ^ k
    /\ (n = 0%nat -> m = 0) /\ (n = total -> m = 100 * 2 ^ k).
Proof.
  intros Htotal Hn. unfold percentage_of.
  destruct (Nat.ltb_spec 0 total) as [_ |]; [| lia].
  destruct n as [| n].
  - exists 0, 0. repeat split; try done. lia.
  - destruct (div_count_by_total (Z.of_nat (S n)) (Z.of_nat total) ltac:(lia))
      as (m & k & -> & Hk & [Hm52 HmK] & Hm53 & Hfull).
    unfold mul_int. cbn [JSNumber.mant JSNumber.expo].
    rewrite (Z.abs_eq (m * 100)) by lia.
    destruct (Z.ltb_spec (m * 100) (2 ^ 53)) as [Hsmall | _]; [lia |].
    rewrite (Z.sgn_pos (m * 100)), Z.mul_1_l by lia.
    assert (exists K', 0 < K' /\ 2 ^ k = K' * 2 ^ (Z.log2 (m * 100) - 52)
                       /\ K' = 2 ^ (k - (Z.log2 (m * 100) - 52)))
      as (K' & HK' & HKsplit & HKdef).
    { exists (2 ^ (k - (Z.log2 (m * 100) - 52))).
      destruct (log2_hundredfold m ltac:(lia)) as [-> | ->];
        (split; [apply Z.pow_pos_nonneg; lia |]); (split; [| done]);
        rewrite <- Z.pow_add_r by lia; f_equal; lia. }
    exists (JSNumber.rne (m * 100) (2 ^ (Z.log2 (m * 100) - 52))),
      (k - (Z.log2 (m * 100) - 52)).
    rewrite <- HKdef.
    destruct (log2_hundredfold m ltac:(lia)) as [E | E]; rewrite E in *.
    + change (2 ^ (58 - 52)) with 64 in *.
      pose proof (rne_bounds (m * 100) 64 ltac:(lia) ltac:(lia)) as Hr.
      split; [do 2 f_equal; lia |]. split; [lia |]. split; [lia |].
      split; [done |]. intros Heq. rewrite Hfull in * by lia. lia.
    + change (2 ^ (59 - 52)) with 128 in *.
      pose proof (rne_bounds (m * 100) 128 ltac:(lia) ltac:(lia)) as Hr.
      split; [do 2 f_equal; lia |]. split; [lia |]. split; [lia |].
      split; [done |]. intros Heq. rewrite Hfull in * by lia. lia.
Qed.

(** X20: when every rating is between one and five stars, the
    distribution is the five bars for 5, 4, 3, 2 and 1 stars in this
    order, each with the number of ratings of that many stars, and the
    five counts add up to the number of ratings. *)
Theorem RatingDistribution_counts_by_star (ratings : list Rating.t)
  (total : nat) :
  Forall valid_score ratings ->
  RatingDistribution ratings total = bar_of ratings total <$> [5; 4; 3; 2; 1]
  /\ (ratings_of_star 5 ratings + ratings_of_star 4 ratings
      + ratings_of_star 3 ratings + ratings_of_star 2 ratings
      + ratings_of_star 1 ratings = length ratings)%nat.
Proof.
  intros Hvalid. split.
  - by apply RatingDistribution_valid.
  - by apply ratings_of_star_total.
Qed.

Lemma RatingDistribution_counts_by_star_witness :
  RatingDistribution sample_ratings 4
  = bar_of sample_ratings 4 <$> [5; 4; 3; 2; 1]
  /\ (ratings_of_star 5 sample_ratings + ratings_of_star 4 sample_ratings
      + ratings_of_star 3 sample_ratings + ratings_of_star 2 sample_ratings
      + ratings_of_star 1 sample_ratings = length sample_ratings)%nat.
Proof.
  apply (RatingDistribution_counts_by_star sample_ratings 4).
  unfold sample_ratings, valid_score.
  repeat (constructor; [cbn; lia |]). constructor.
Defined.

(** X21: a rating outside one to five stars gets a bar of its own whose
    count is [NaN], the result of [++] on the missing property; its
    percentage is [NaN] as well when [total] is positive. *)
Theorem RatingDistribution_out_of_range (ratings : list Rating.t)
  (total : nat) (r : Rating.t) :
  r ∈ ratings -> ~ valid_score r ->
  Bar.Build (Rating.rating r) JSCount.NaN (percentage_of total JSCount.NaN)
    ∈ RatingDistribution ratings total
  /\ ((0 < total)%nat -> percentage_of total JSCount.NaN = None).
Proof.
  intros Hr Hout. split.
  - unfold RatingDistribution. rewrite merge_sort_Permutation.
    apply list_elem_of_fmap.
    exists (Rating.rating r, JSCount.NaN). split; [done |].
    apply elem_of_map_to_list. rewrite count_ratings_other by done.
    assert (r ∈ filter (λ r', Rating.rating r' = Rating.rating r) ratings)
      as Hin by (by apply list_elem_of_filter).
    destruct (filter _ ratings); [by apply elem_of_nil in Hin | done].
  - intros Htotal. unfold percentage_of.
    by destruct (Nat.ltb_spec 0 total); [| lia].
Qed.

Lemma RatingDistribution_out_of_range_witness :
  Bar.Build 6 JSCount.NaN (percentage_of 1 JSCount.NaN)
    ∈ RatingDistribution [Rating.Build 7 6] 1
  /\ ((0 < 1)%nat -> percentage_of 1 JSCount.NaN = None).
Proof.
  apply (RatingDistribution_out_of_range [Rating.Build 7 6] 1
           (Rating.Build 7 6)).
  - apply list_elem_of_singleton. reflexivity.
  - unfold valid_score. cbn. lia.
Defined.

(** X22: for a positive [total] and a count that does not exceed it, the
    percentage of a bar is a binary64 value between 0 and 100: it is 0
    for no rating and exactly 100 when the count is the total. *)
Theorem percentage_within_100 (total n : nat) :
  (0 < total)%nat -> (n <= total)%nat ->
  exists m k,
    percentage_of total (JSCount.Num n) = Some (JSNumber.Double m (- k))
    /\ 0 <= k /\ 0 <= m <= 100 * 2 ^ k
    /\ (n = 0%nat -> m = 0) /\ (n = total -> m = 100 * 2 ^ k).
Proof. apply percentage_bounds. Qed.

Lemma percentage_within_100_witness :
  exists m k,
    percentage_of 3 (JSCount.Num 1) = Some (JSNumber.Double m (- k))
    /\ 0 <= k /\ 0 <= m <= 100 * 2 ^ k
    /\ (1%nat = 0%nat -> m = 0) /\ (1%nat = 3%nat -> m = 100 * 2 ^ k).
Proof. apply (percentage_within_100 3 1); lia. Defined.

(** ** Users created by the administrator *)

Lemma createUser_outcome rejected refused gen now (script : setup_script)
  (userData : gmap string string) (b : Backend) :
  let meta := object_literal [("name", userData !! "name");
                              ("address", userData !! "address");
                              ("role", userData !! "role")] in
  let created b' :=
    exists name address stored_name stored_address role,
      b' = {| users := users b
                       ++ [AuthUser.Build (gen b) (userData !! "email") meta];
              profiles := profiles b
                          ++ [Profile.Build (gen b) stored_name stored_address
                                role (updated_at_default script (now b))] |}
      /\ userData !! "name" = Some name
      /\ cut_of name stored_name
      /\ userData !! "address" = Some address
      /\ cut_of address stored_address
      /\ match userData !! "role" with
         | Some label => role_of_label label = Some role
         | None => script = revised_setup /\ role = user
         end in
  exists completion b',
    createUser rejected refused gen now script userData b = (completion, b')
    /\ (b' = b \/ created b')
    /\ (completion = Returned succeeded -> created b')
    /\ (forall message, completion = Returned (failed message) -> b' = b).
Proof.
  intros meta created. unfold createUser. fold meta.
  match goal with
  | |- context [signUp rejected refused gen now script ?r b] =>
      set (request := r)
  end.
  assert (let handled := signup_request refused gen now script request b in
          (Auth.error handled.1 <> None /\ handled.2 = b)
          \/ (Auth.error handled.1 = None /\ created handled.2)) as Hhandled.
  { destruct (signup_request_cases refused gen now script request b)
      as [(err & ->) | (name & address & stored_name & stored_address & role
                        & -> & Hname & Hsn & Haddress & Hsa & Hrole)];
      [by left |].
    right. split; [done |].
    cbn [snd request Auth.options_data Auth.email] in *. fold meta in Hname,
      Haddress, Hrole |- *.
    unfold meta in Hname, Haddress, Hrole.
    rewrite object_literal_name in Hname.
    rewrite object_literal_address in Haddress.
    unfold trigger_role in Hrole. rewrite object_literal_role in Hrole.
    exists name, address, stored_name, stored_address, role.
    split; [done |]. split; [done |].
    split; [by eapply varchar_prefix, name_column_varchar |]. split; [done |].
    split; [by eapply varchar_prefix, address_column_varchar |].
    destruct (userData !! "role"); [done |].
    destruct script; [done |]. by injection Hrole as <-. }
  cbv zeta in Hhandled.
  pose proof (signUp_cases rejected refused gen now script request b) as Hcall.
  cbv zeta in Hcall.
  destruct (rejected b request) as [[e | e] |]; rewrite Hcall;
    cbn [await_result].
  - eexists _, _. split; [reflexivity |]. split; [by left |]. done.
  - eexists _, _. split; [reflexivity |]. split; [| done].
    destruct Hhandled as [[_ ->] | [_ Hc]]; [by left | by right].
  - eexists _, _. split; [reflexivity |]. unfold result_of.
    destruct Hhandled as [[Herr ->] | [-> Hc]].
    + split; [by left |].
      destruct (Auth.error _) as [err |]; [| done]. done.
    + split; [by right |]. done.
Qed.

(** X23: [createUser] leaves the users and the profiles as they were, or
    has added one identity and one profile for it.  The profile holds
    the name and the address it was given, each as it is or without
    spaces at its end, which the column cuts off beyond its width; its
    role is the one whose label was passed, and [user] when no role was
    passed, which only the revised setup script allows.  When
    [createUser] returns success the rows were added, and when it
    returns a failure nothing was; a label that names no role never
    creates a profile. *)
Theorem createUser_assigns_chosen_role rejected refused gen now
  (script : setup_script) (userData : gmap string string) (b : Backend) :
  let meta := object_literal [("name", userData !! "name");
                              ("address", userData !! "address");
                              ("role", userData !! "role")] in
  let created b' :=
    exists name address stored_name stored_address role,
      b' = {| users := users b
                       ++ [AuthUser.Build (gen b) (userData !! "email") meta];
              profiles := profiles b
                          ++ [Profile.Build (gen b) stored_name stored_address
                                role (updated_at_default script (now b))] |}
      /\ userData !! "name" = Some name
      /\ cut_of name stored_name
      /\ userData !! "address" = Some address
      /\ cut_of address stored_address
      /\ match userData !! "role" with
         | Some label => role_of_label label = Some role
         | None => script = revised_setup /\ role = user
         end in
  exists completion b',
    createUser rejected refused gen now script userData b = (completion, b')
    /\ (b' = b \/ created b')
    /\ (completion = Returned succeeded -> created b')
    /\ (forall message, completion = Returned (failed message) -> b' = b).
Proof. apply createUser_outcome. Qed.
